(** * PacketSender: a shallow embedding of [src/packet_sender.cpp]

    The development follows the source file function by function.  It
    covers the POSIX builds of the file ([#ifndef _WIN32]); the build
    switches the file branches on ([BSD], the pcap transport
    [TINS_HAVE_PACKET_SENDER_PCAP_SENDPACKET], [TINS_HAVE_DOT11]) are kept as
    fields of a [Build] record, so that every [#if] chain of the source is a
    [match] of the model.

    Integers are mathematical integers with the wrap-around of their C type
    written out ([long] is 64 bits, [int] 32 bits, as on LP64 systems).
    Exceptions are an error monad over the sender object and the operating
    system; the operating system is a script of return values together with
    the log of the calls made so far. *)

From Stdlib Require Import ZArith Lia List Bool.
From stdpp Require Import base option list gmap.

Local Open Scope Z_scope.

(** ** Machine integers *)

Module Machine.

(** Two's complement reduction of [z] to a signed [w]-bit integer. *)
Definition wrap_signed (w z : Z) : Z :=
  (z + 2 ^ (w - 1)) mod 2 ^ w - 2 ^ (w - 1).

Definition wrap_long : Z -> Z := wrap_signed 64.
Definition wrap_int : Z -> Z := wrap_signed 32.

(** Conversion to [uint32_t]. *)
Definition to_uint32 (z : Z) : Z := z mod 2 ^ 32.

Definition LONG_MIN : Z := - 2 ^ 63.
Definition LONG_MAX : Z := 2 ^ 63 - 1.
Definition INT_MIN : Z := - 2 ^ 31.
Definition INT_MAX : Z := 2 ^ 31 - 1.
Definition UINT32_MAX : Z := 2 ^ 32 - 1.

End Machine.

Import Machine.

(** ** Deadline arithmetic: [struct timeval] and [timeval_subtract] *)

Record timeval : Type := Timeval { tv_sec : Z; tv_usec : Z }.

#[global] Instance timeval_eq_dec : EqDecision timeval.
Proof. solve_decision. Defined.

(** [PacketSender::timeval_subtract(result, x, y)].  The source updates [*y]
    in place and writes [*result]; the model returns the result, the final
    value of [*y] and the returned flag.  [tv_sec] and [tv_usec] are [long],
    [nsec] is an [int], and [1000000 * nsec] is an [int] product. *)
Definition timeval_subtract (x y : timeval) : timeval * timeval * bool :=
  let y1 :=
    if tv_usec x <? tv_usec y then
      let nsec := wrap_int (wrap_long (wrap_long (tv_usec y - tv_usec x) ÷ 1000000 + 1)) in
      {| tv_sec := wrap_long (tv_sec y + nsec);
         tv_usec := wrap_long (tv_usec y - wrap_int (1000000 * nsec)) |}
    else y in
  let y2 :=
    if 1000000 <? wrap_long (tv_usec x - tv_usec y1) then
      let nsec := wrap_int (wrap_long (tv_usec x - tv_usec y1) ÷ 1000000) in
      {| tv_sec := wrap_long (tv_sec y1 - nsec);
         tv_usec := wrap_long (tv_usec y1 + wrap_int (1000000 * nsec)) |}
    else y1 in
  ({| tv_sec := wrap_long (tv_sec x - tv_sec y2);
      tv_usec := wrap_long (tv_usec x - tv_usec y2) |},
   y2,
   tv_sec x <? tv_sec y2).

Definition subtract_result (x y : timeval) : timeval := (timeval_subtract x y).1.1.
Definition subtract_expired (x y : timeval) : bool := (timeval_subtract x y).2.

(** Vocabulary of the deadline arithmetic. *)

(** Microsecond field in [0, 1_000_000). *)
Definition normalized (t : timeval) : Prop := 0 <= tv_usec t < 1000000.

(** Seconds a clock can show: within 2^61 of the epoch, far from the ends
    of [long]. *)
Definition clock_range (t : timeval) : Prop := - 2 ^ 61 < tv_sec t < 2 ^ 61.

(** [a < b]: seconds first, microseconds break the tie. *)
Definition timeval_lt (a b : timeval) : Prop :=
  tv_sec a < tv_sec b \/ (tv_sec a = tv_sec b /\ tv_usec a < tv_usec b).

(** A timestamp or a duration counted in microseconds. *)
Definition micros (t : timeval) : Z := tv_sec t * 1000000 + tv_usec t.

(** ** Build configuration

    One field per preprocessor switch the source branches on. *)

Record Build : Type := {
  bsd : bool;               (* defined(BSD) || defined(__FreeBSD_kernel__) *)
  pcap_sendpacket : bool;   (* TINS_HAVE_PACKET_SENDER_PCAP_SENDPACKET *)
  have_dot11 : bool         (* TINS_HAVE_DOT11 *)
}.

Definition linux_build : Build :=
  {| bsd := false; pcap_sendpacket := false; have_dot11 := true |}.
Definition bsd_build : Build :=
  {| bsd := true; pcap_sendpacket := false; have_dot11 := true |}.
Definition pcap_build : Build :=
  {| bsd := false; pcap_sendpacket := true; have_dot11 := true |}.

(** ** Socket kinds, interfaces, PDU types *)

(** Modelled from the spec: the enumeration [PacketSender::SocketType] is
    declared in [packet_sender.h], which is not part of the sources at hand.
    The kinds are those the constructor and [close_socket] name, in the order
    of the spec's data model, closed by the sentinel [SOCKETS_END]. *)
Inductive SocketType : Type :=
| ETHER_SOCKET
| IP_TCP_SOCKET
| IP_UDP_SOCKET
| IP_RAW_SOCKET
| IPV6_SOCKET
| ICMP_SOCKET
| SOCKETS_END.

#[global] Instance SocketType_eq_dec : EqDecision SocketType.
Proof. solve_decision. Defined.

(** The integer value of an enumerator, used to index [sockets_]. *)
Definition type_index (t : SocketType) : nat :=
  match t with
  | ETHER_SOCKET => 0
  | IP_TCP_SOCKET => 1
  | IP_UDP_SOCKET => 2
  | IP_RAW_SOCKET => 3
  | IPV6_SOCKET => 4
  | ICMP_SOCKET => 5
  | SOCKETS_END => 6
  end%nat.

Record NetworkInterface : Type := {
  iface_id : Z;             (* iface.id() *)
  iface_name : list Z       (* iface.name(), as character codes *)
}.

#[global] Instance NetworkInterface_eq_dec : EqDecision NetworkInterface.
Proof. solve_decision. Defined.

(** [PDU::PDUType]: the link-layer framings [send] asks about, and all the
    others. *)
Inductive PDUType : Type :=
| ETHERNET_II
| DOT11
| RADIOTAP
| IEEE802_3
| OTHER_PDU (n : Z).

#[global] Instance PDUType_eq_dec : EqDecision PDUType.
Proof. solve_decision. Defined.

(** ** Exceptions *)

(** The exceptions the file throws, and [foreign_exception] for anything
    thrown by a collaborator that is not a [std::runtime_error].  The
    message ([strerror(errno)], [pcap_geterr]) is not modelled. *)
Inductive exn : Type :=
| socket_open_error
| socket_write_error
| socket_close_error
| invalid_socket_type
| runtime_error
| foreign_exception.

#[global] Instance exn_eq_dec : EqDecision exn.
Proof. solve_decision. Defined.

(** Modelled from the spec: [exceptions.h] is not part of the sources at
    hand.  The handler [catch (runtime_error&)] of [send_recv] catches
    [std::runtime_error] and what derives from it; section 7 of the spec
    lists the open, write, close and invalid-channel errors as the errors the
    core raises, and [send_recv] as swallowing a transmit failure. *)
Definition is_runtime_error (e : exn) : bool :=
  match e with
  | foreign_exception => false
  | _ => true
  end.

(** ** The operating system

    Every call made is appended to [trace]; what the call returns is read
    from the oracles at the position the call takes in the trace, so that a
    value of [OS] fixes one complete behaviour of the system and quantifying
    over [OS] covers them all. *)

Inductive ioctl_request : Type :=
| BIOCSETIF (name : list Z)
| BIOCIMMEDIATE
| BIOCGBLEN.

Inductive call : Type :=
| c_socket (domain type protocol : Z)
| c_setsockopt (fd : Z)
| c_close (fd : Z)
| c_open_bpf (i : Z)                       (* open("/dev/bpf<i>", O_RDWR) *)
| c_ioctl (fd : Z) (req : ioctl_request)
| c_sendto (fd : Z) (buf : list Z)
| c_write (fd : Z) (buf : list Z)
| c_pcap_create (name : list Z)
| c_pcap_set_promisc (handle : Z)
| c_pcap_activate (handle : Z)
| c_pcap_sendpacket (handle : Z) (buf : list Z)
| c_time
| c_select (nfds : Z) (fds : list Z) (timeout : timeval)
| c_recvfrom (fd : Z)
| c_read (fd : Z)
| c_gettimeofday
| c_matches_response (mem : list Z) (total_sz : Z).   (* pdu.matches_response *)

#[global] Instance ioctl_request_eq_dec : EqDecision ioctl_request.
Proof. solve_decision. Defined.

#[global] Instance call_eq_dec : EqDecision call.
Proof. solve_decision. Defined.

Record OS : Type := {
  os_ret : nat -> Z;                  (* value returned by the call *)
  os_out : nat -> Z;                  (* value stored through an out pointer *)
  os_ready : nat -> list Z;           (* descriptors select leaves set *)
  os_recv : nat -> option (list Z);   (* bytes a read delivers; None: error *)
  os_now : nat -> timeval;            (* the clock *)
  trace : list call
}.

Definition log (c : call) (os : OS) : OS :=
  {| os_ret := os_ret os; os_out := os_out os; os_ready := os_ready os;
     os_recv := os_recv os; os_now := os_now os;
     trace := trace os ++ [c] |}.

(** Position the next call takes in the trace. *)
Definition tick (os : OS) : nat := length (trace os).

(** A call returning an [int]. *)
Definition sys_int (c : call) (os : OS) : Z * OS :=
  (wrap_int (os_ret os (tick os)), log c os).

(** A call returning a pointer (0 is the null pointer). *)
Definition sys_ptr (c : call) (os : OS) : Z * OS :=
  (os_ret os (tick os), log c os).

(** Calls between two states of the system. *)
Definition calls_since (os os' : OS) : list call :=
  drop (length (trace os)) (trace os').

(** Constants of the system headers. *)
Definition AF_INET : Z := 2.
Definition AF_INET6 : Z := 10.
Definition SOCK_RAW : Z := 3.
Definition IPPROTO_ICMP : Z := 1.
Definition IPPROTO_TCP : Z := 6.
Definition IPPROTO_UDP : Z := 17.
Definition IPPROTO_RAW : Z := 255.
Definition PF_PACKET : Z := 17.
Definition ETH_P_ALL_be : Z := 768.          (* htons(ETH_P_ALL) *)

(** ** The sender object *)

Definition INVALID_RAW_SOCKET : Z := -1.
Definition DEFAULT_TIMEOUT : Z := 2.

(** The data members of [PacketSender].  [ether_socket_] is an [int] on
    builds without [BSD] and a map from interface id to descriptor on builds
    with it; the two are the fields [ether_socket_] and [ether_socket_bsd_],
    of which a build uses one. *)
Record PacketSender : Type := {
  sockets_ : list Z;
  ether_socket_ : Z;
  ether_socket_bsd_ : gmap Z Z;
  pcap_handles_ : gmap Z Z;
  types_ : gmap nat Z;
  _timeout : Z;
  timeout_usec_ : Z;
  default_iface_ : NetworkInterface;
  buffer_size_ : Z
}.

Definition set_sockets_ (v : list Z) (s : PacketSender) : PacketSender :=
  {| sockets_ := v; ether_socket_ := ether_socket_ s;
     ether_socket_bsd_ := ether_socket_bsd_ s; pcap_handles_ := pcap_handles_ s;
     types_ := types_ s; _timeout := _timeout s; timeout_usec_ := timeout_usec_ s;
     default_iface_ := default_iface_ s; buffer_size_ := buffer_size_ s |}.

Definition set_ether_socket_ (v : Z) (s : PacketSender) : PacketSender :=
  {| sockets_ := sockets_ s; ether_socket_ := v;
     ether_socket_bsd_ := ether_socket_bsd_ s; pcap_handles_ := pcap_handles_ s;
     types_ := types_ s; _timeout := _timeout s; timeout_usec_ := timeout_usec_ s;
     default_iface_ := default_iface_ s; buffer_size_ := buffer_size_ s |}.

Definition set_ether_socket_bsd_ (v : gmap Z Z) (s : PacketSender) : PacketSender :=
  {| sockets_ := sockets_ s; ether_socket_ := ether_socket_ s;
     ether_socket_bsd_ := v; pcap_handles_ := pcap_handles_ s;
     types_ := types_ s; _timeout := _timeout s; timeout_usec_ := timeout_usec_ s;
     default_iface_ := default_iface_ s; buffer_size_ := buffer_size_ s |}.

Definition set_pcap_handles_ (v : gmap Z Z) (s : PacketSender) : PacketSender :=
  {| sockets_ := sockets_ s; ether_socket_ := ether_socket_ s;
     ether_socket_bsd_ := ether_socket_bsd_ s; pcap_handles_ := v;
     types_ := types_ s; _timeout := _timeout s; timeout_usec_ := timeout_usec_ s;
     default_iface_ := default_iface_ s; buffer_size_ := buffer_size_ s |}.

Definition set_buffer_size_ (v : Z) (s : PacketSender) : PacketSender :=
  {| sockets_ := sockets_ s; ether_socket_ := ether_socket_ s;
     ether_socket_bsd_ := ether_socket_bsd_ s; pcap_handles_ := pcap_handles_ s;
     types_ := types_ s; _timeout := _timeout s; timeout_usec_ := timeout_usec_ s;
     default_iface_ := default_iface_ s; buffer_size_ := v |}.

(** [PacketSender::PacketSender(iface, recv_timeout, usec)]; both timeouts
    are [uint32_t].  The constructor leaves [buffer_size_] unset; it is given
    a value by [open_l2_socket] on BSD. *)
Definition PacketSender_new (iface : NetworkInterface) (recv_timeout usec : Z)
  : PacketSender :=
  {| sockets_ := replicate (type_index SOCKETS_END) INVALID_RAW_SOCKET;
     ether_socket_ := INVALID_RAW_SOCKET;
     ether_socket_bsd_ := ∅;
     pcap_handles_ := ∅;
     types_ := <[type_index ICMP_SOCKET := IPPROTO_ICMP]>
               (<[type_index IPV6_SOCKET := IPPROTO_RAW]>
               (<[type_index IP_RAW_SOCKET := IPPROTO_RAW]>
               (<[type_index IP_UDP_SOCKET := IPPROTO_UDP]>
               (<[type_index IP_TCP_SOCKET := IPPROTO_TCP]> ∅))));
     _timeout := to_uint32 recv_timeout;
     timeout_usec_ := to_uint32 usec;
     default_iface_ := iface;
     buffer_size_ := 0 |}.

(** [sockets_[type]]; an index past the end of the vector reads
    [INVALID_RAW_SOCKET] (the source does not go there: [find_type] and the
    test against [SOCKETS_END] come first). *)
Definition socket_at (s : PacketSender) (type : SocketType) : Z :=
  default INVALID_RAW_SOCKET (sockets_ s !! type_index type).

(** [PacketSender::find_type]. *)
Definition find_type (s : PacketSender) (type : SocketType) : Z :=
  match types_ s !! type_index type with
  | None => -1
  | Some v => v
  end.

(** ** Computations that change the sender and the system, and may throw *)

Inductive result (A : Type) : Type :=
| Ok (a : A)
| Throw (e : exn)
| Diverge.                 (* a loop of the source did not end *)

Arguments Ok {A} a.
Arguments Throw {A} e.
Arguments Diverge {A}.

Definition M (A : Type) : Type :=
  PacketSender -> OS -> result A * PacketSender * OS.

Definition ret {A} (a : A) : M A := fun s os => (Ok a, s, os).

Definition bind {A B} (m : M A) (k : A -> M B) : M B :=
  fun s os =>
    match m s os with
    | (Ok a, s', os') => k a s' os'
    | (Throw e, s', os') => (Throw e, s', os')
    | (Diverge, s', os') => (Diverge, s', os')
    end.

Definition throw {A} (e : exn) : M A := fun s os => (Throw e, s, os).
Definition diverge {A} : M A := fun s os => (Diverge, s, os).
Definition this {A} (f : PacketSender -> A) : M A := fun s os => (Ok (f s), s, os).
Definition assign (f : PacketSender -> PacketSender) : M unit :=
  fun s os => (Ok tt, f s, os).
Definition sys {A} (f : OS -> A * OS) : M A :=
  fun s os => let '(a, os') := f os in (Ok a, s, os').

Declare Scope sender_scope.
Delimit Scope sender_scope with sender.
Notation "x <- m ;; k" := (bind m (fun x => k))
  (at level 100, m at next level, right associativity) : sender_scope.
Notation "m ;;; k" := (bind m (fun _ => k))
  (at level 100, right associativity) : sender_scope.
Local Open Scope sender_scope.

Definition outcome {A} (r : result A * PacketSender * OS) : result A := r.1.1.
Definition sender_after {A} (r : result A * PacketSender * OS) : PacketSender := r.1.2.
Definition os_after {A} (r : result A * PacketSender * OS) : OS := r.2.

(** ** Channel pool: opening and closing *)

(** [PacketSender::open_l3_socket]. *)
Definition open_l3_socket (type : SocketType) : M unit :=
  socktype <- this (fun s => find_type s type) ;;
  if socktype =? -1 then throw invalid_socket_type
  else
    cur <- this (fun s => socket_at s type) ;;
    if cur =? INVALID_RAW_SOCKET then
      sockfd <- sys (sys_int (c_socket
                  (if decide (type = IPV6_SOCKET) then AF_INET6 else AF_INET)
                  SOCK_RAW socktype)) ;;
      if sockfd <? 0 then throw socket_open_error
      else
        sys (sys_int (c_setsockopt sockfd)) ;;;
        assign (fun s => set_sockets_ (<[type_index type := sockfd]> (sockets_ s)) s)
    else ret tt.

(** [PacketSender::make_pcap_handle]. *)
Definition make_pcap_handle (iface : NetworkInterface) : M Z :=
  handle <- sys (sys_ptr (c_pcap_create (iface_name iface))) ;;
  if handle =? 0 then throw runtime_error
  else
    r1 <- sys (sys_int (c_pcap_set_promisc handle)) ;;
    if r1 <? 0 then throw runtime_error
    else
      r2 <- sys (sys_int (c_pcap_activate handle)) ;;
      if r2 <? 0 then throw runtime_error
      else ret handle.

(** The probing loop of [open_l2_socket] on BSD,
    [for (int i = 0; sock == -1; i++) sock = open("/dev/bpf<i>", O_RDWR)],
    entered with [sock == -1].  The source puts no bound on it; [fuel] bounds
    the number of devices tried. *)
Fixpoint probe_bpf (fuel : nat) (i : Z) : M Z :=
  match fuel with
  | O => diverge
  | S fuel' =>
      sock <- sys (sys_int (c_open_bpf i)) ;;
      if sock =? -1 then probe_bpf fuel' (wrap_int (i + 1)) else ret sock
  end.

(** [PacketSender::open_l2_socket]: the three branches of its [#if] chain. *)
Definition open_l2_socket (b : Build) (fuel : nat) (iface : NetworkInterface)
  : M unit :=
  if pcap_sendpacket b then
    known <- this (fun s => pcap_handles_ s !! iface_id iface) ;;
    match known with
    | Some _ => ret tt
    | None =>
        handle <- make_pcap_handle iface ;;
        assign (fun s => set_pcap_handles_
                           (<[iface_id iface := handle]> (pcap_handles_ s)) s)
    end
  else if bsd b then
    sock <- probe_bpf fuel 0 ;;
    if sock =? -1 then throw socket_open_error
    else
      r1 <- sys (sys_int (c_ioctl sock (BIOCSETIF (iface_name iface)))) ;;
      if r1 <? 0 then
        sys (sys_int (c_close sock)) ;;;
        throw socket_open_error
      else
        r2 <- sys (sys_int (c_ioctl sock BIOCIMMEDIATE)) ;;
        if r2 <? 0 then throw socket_open_error
        else
          blen <- sys (fun os => (os_out os (tick os), os)) ;;
          r3 <- sys (sys_int (c_ioctl sock BIOCGBLEN)) ;;
          if r3 <? 0 then throw socket_open_error
          else
            assign (set_buffer_size_ blen) ;;;
            assign (fun s => set_ether_socket_bsd_
                               (<[iface_id iface := sock]> (ether_socket_bsd_ s)) s)
  else
    cur <- this ether_socket_ ;;
    if cur =? INVALID_RAW_SOCKET then
      fd <- sys (sys_int (c_socket PF_PACKET SOCK_RAW ETH_P_ALL_be)) ;;
      assign (set_ether_socket_ fd) ;;;
      if fd =? -1 then throw socket_open_error else ret tt
    else ret tt.

(** [PacketSender::ether_socket_initialized]. *)
Definition ether_socket_initialized (b : Build) (s : PacketSender)
    (iface : NetworkInterface) : bool :=
  if bsd b then bool_decide (is_Some (ether_socket_bsd_ s !! iface_id iface))
  else negb (ether_socket_ s =? INVALID_RAW_SOCKET).

(** [ether_socket_[id]] on the [std::map] of BSD: [operator[]] returns the
    value of the key and, for a key the map does not hold, first inserts it
    with the value 0. *)
Definition ether_socket_bsd_at (id : Z) : M Z :=
  known <- this (fun s => ether_socket_bsd_ s !! id) ;;
  match known with
  | Some sock => ret sock
  | None =>
      assign (fun s => set_ether_socket_bsd_ (<[id := 0]> (ether_socket_bsd_ s)) s) ;;;
      ret 0
  end.

(** [PacketSender::get_ether_socket]. *)
Definition get_ether_socket (b : Build) (fuel : nat) (iface : NetworkInterface)
  : M Z :=
  ready <- this (fun s => ether_socket_initialized b s iface) ;;
  (if ready then ret tt else open_l2_socket b fuel iface) ;;;
  if bsd b then ether_socket_bsd_at (iface_id iface)
  else this ether_socket_.

(** [PacketSender::close_socket]. *)
Definition close_socket (b : Build) (type : SocketType) (iface : NetworkInterface)
  : M unit :=
  if decide (type = ETHER_SOCKET) then
    if bsd b then
      it <- this (fun s => ether_socket_bsd_ s !! iface_id iface) ;;
      match it with
      | None => throw invalid_socket_type
      | Some fd =>
          r <- sys (sys_int (c_close fd)) ;;
          if r =? -1 then throw socket_close_error
          else assign (fun s => set_ether_socket_bsd_
                                  (delete (iface_id iface) (ether_socket_bsd_ s)) s)
      end
    else
      cur <- this ether_socket_ ;;
      if cur =? INVALID_RAW_SOCKET then throw invalid_socket_type
      else
        r <- sys (sys_int (c_close cur)) ;;
        if r =? -1 then throw socket_close_error
        else assign (set_ether_socket_ INVALID_RAW_SOCKET)
  else
    cur <- this (fun s => socket_at s type) ;;
    if (type_index SOCKETS_END <=? type_index type)%nat || (cur =? INVALID_RAW_SOCKET)
    then throw invalid_socket_type
    else
      r <- sys (sys_int (c_close cur)) ;;
      if r =? -1 then throw socket_close_error
      else assign (fun s => set_sockets_
                              (<[type_index type := INVALID_RAW_SOCKET]> (sockets_ s)) s).

(** ** The PDU, as the sender sees it

    The PDU classes are collaborators of this file: a PDU is the record of
    the member functions the sender calls. *)

(** [Internals::pdu_from_flag(type, ptr, size)]: the reply is identified by
    the arguments the factory is given. *)
Record Reply : Type := {
  reply_type : PDUType;
  reply_mem : list Z;       (* the memory [ptr] points to *)
  reply_size : Z
}.

#[global] Instance Reply_eq_dec : EqDecision Reply.
Proof. solve_decision. Defined.

Record PDU : Type := {
  matches_flag : PDUType -> bool;
  pdu_type : PDUType;
  serialize : list Z;
  (* matches_response(ptr, total_sz): the memory ptr points to, and the size
     as the caller passes it *)
  matches_response : list Z -> Z -> bool;
  (* pdu.send(sender, iface) *)
  pdu_send : NetworkInterface -> M unit;
  (* pdu.recv_response(sender, iface) *)
  recv_response : NetworkInterface -> M (option Reply);
  (* Modelled from the spec: the member template send<T>(pdu, iface) is
     declared in packet_sender.h, which is not part of the sources at hand;
     it is the link-layer transmit of the framing T on the given interface. *)
  send_as : PDUType -> NetworkInterface -> M unit
}.

(** ** Send dispatcher *)

(** [PacketSender::send(PDU&)]. *)
Definition send (pdu : PDU) : M unit :=
  iface <- this default_iface_ ;;
  pdu_send pdu iface.

(** [PacketSender::send(PDU&, const NetworkInterface&)]. *)
Definition send_iface (b : Build) (pdu : PDU) (iface : NetworkInterface) : M unit :=
  if matches_flag pdu ETHERNET_II then send_as pdu ETHERNET_II iface
  else if have_dot11 b && matches_flag pdu DOT11 then send_as pdu DOT11 iface
  else if have_dot11 b && matches_flag pdu RADIOTAP then send_as pdu RADIOTAP iface
  else if matches_flag pdu IEEE802_3 then send_as pdu IEEE802_3 iface
  else send pdu.

(** [try { body } catch (runtime_error&) { handler }]. *)
Definition try_catch_runtime_error {A} (body : M A) (handler : M A) : M A :=
  fun s os =>
    match body s os with
    | (Throw e, s', os') =>
        if is_runtime_error e then handler s' os' else (Throw e, s', os')
    | r => r
    end.

(** [PacketSender::send_recv(PDU&, const NetworkInterface&)].  The handler's
    [return 0] leaves the function; [recv_response] is called after the
    [try] block, outside its protection. *)
Definition send_recv_iface (pdu : PDU) (iface : NetworkInterface)
  : M (option Reply) :=
  sent <- try_catch_runtime_error (pdu_send pdu iface ;;; ret true) (ret false) ;;
  if sent : bool then recv_response pdu iface else ret None.

(** [PacketSender::send_recv(PDU&)]. *)
Definition send_recv (pdu : PDU) : M (option Reply) :=
  iface <- this default_iface_ ;;
  send_recv_iface pdu iface.

(** [PacketSender::send_l2].  [link_addr] and [len_addr] are passed through
    to [sendto] and do not influence the control flow. *)
Definition send_l2 (b : Build) (fuel : nat) (pdu : PDU) (iface : NetworkInterface)
  : M unit :=
  let buffer := serialize pdu in
  if pcap_sendpacket b then
    open_l2_socket b fuel iface ;;;
    handle <- this (fun s => default 0 (pcap_handles_ s !! iface_id iface)) ;;
    r <- sys (sys_int (c_pcap_sendpacket handle buffer)) ;;
    if negb (r =? 0) then throw runtime_error else ret tt
  else
    sock <- get_ether_socket b fuel iface ;;
    if negb (bool_decide (buffer = [])) then
      r <- sys (sys_int (if bsd b then c_write sock buffer else c_sendto sock buffer)) ;;
      if r =? -1 then throw socket_write_error else ret tt
    else ret tt.

(** [PacketSender::send_l3]. *)
Definition send_l3 (pdu : PDU) (type : SocketType) : M unit :=
  open_l3_socket type ;;;
  sock <- this (fun s => socket_at s type) ;;
  r <- sys (sys_int (c_sendto sock (serialize pdu))) ;;
  if r =? -1 then throw socket_write_error else ret tt.

(** ** Receive-match loop *)

(** The part of [<net/bpf.h>] the loop uses: the two fields of the
    [bpf_hdr] that starts at the given memory, and the rounding macro.  The
    header belongs to the system, so its layout is a parameter. *)
Record BpfAbi : Type := {
  bh_hdrlen : list Z -> Z;
  bh_caplen : list Z -> Z;
  BPF_WORDALIGN : Z -> Z
}.

(** Outcome of a loop of unknown length run with bounded fuel. *)
Inductive run (A : Type) : Type :=
| Done (a : A)
| Spin.                    (* the fuel ran out before the loop ended *)

Arguments Done {A} a.
Arguments Spin {A}.

(** The locals of [recv_match_loop] that live across iterations. *)
Record LoopState : Type := {
  timeout : timeval;
  end_time : timeval;
  buffer : list Z
}.

(** What a read leaves in the scratch buffer and returns: the bytes
    delivered, at most [cap] of them, overwrite the start of the buffer; a
    failed read returns -1 and leaves the buffer as it was. *)
Definition deliver (reply : option (list Z)) (cap : Z) (buffer : list Z)
  : Z * list Z :=
  match reply with
  | None => (-1, buffer)
  | Some data =>
      let got := take (Z.to_nat cap) data in
      (Z.of_nat (length got), got ++ drop (length got) buffer)
  end.

(** [pdu.matches_response(ptr, size)], recorded in the trace. *)
Definition test_candidate (pdu : PDU) (mem : list Z) (size : Z) (os : OS)
  : bool * OS :=
  (matches_response pdu mem size, log (c_matches_response mem size) os).

Definition pdu_from_flag (type : PDUType) (mem : list Z) (size : Z) : Reply :=
  {| reply_type := type; reply_mem := mem; reply_size := size |}.

(** The walk over the records of one BSD read,
    [while (ptr < buffer + size) { ... }]; [ptr] is the offset into the
    buffer.  [Done None] is the normal end of the [while]. *)
Fixpoint bpf_walk (abi : BpfAbi) (pdu : PDU) (fuel : nat)
    (buffer : list Z) (size ptr : Z) (os : OS) : run (option Reply) * OS :=
  match fuel with
  | O => (Spin, os)
  | S fuel' =>
      if ptr <? size then
        let bpf_header := drop (Z.to_nat ptr) buffer in
        let pkt_start := drop (Z.to_nat (bh_hdrlen abi bpf_header)) bpf_header in
        let '(hit, os1) :=
          test_candidate pdu pkt_start (bh_caplen abi bpf_header) os in
        if hit then
          (Done (Some (pdu_from_flag (pdu_type pdu) pkt_start
                         (bh_caplen abi bpf_header))), os1)
        else
          bpf_walk abi pdu fuel' buffer size
            (ptr + BPF_WORDALIGN abi
                     (to_uint32 (bh_hdrlen abi bpf_header + bh_caplen abi bpf_header)))
            os1
      else (Done None, os)
  end.

(** The body of [if (FD_ISSET( *it, &readfds))]: one read, and the test of
    the candidates it holds.  Returns the reply if a candidate is accepted
    and the new contents of the scratch buffer. *)
Definition recv_one (b : Build) (abi : BpfAbi) (pdu : PDU) (wfuel : nat)
    (cap : Z) (fd : Z) (buffer : list Z) (os : OS)
  : run (option Reply) * list Z * OS :=
  if bsd b then
    let '(size, buffer1) := deliver (os_recv os (tick os)) cap buffer in
    let '(r, os2) := bpf_walk abi pdu wfuel buffer1 size 0 (log (c_read fd) os) in
    (r, buffer1, os2)
  else
    let '(size, buffer1) := deliver (os_recv os (tick os)) cap buffer in
    let '(hit, os2) := test_candidate pdu buffer1 size (log (c_recvfrom fd) os) in
    if hit then (Done (Some (pdu_from_flag (pdu_type pdu) buffer1 size)), buffer1, os2)
    else (Done None, buffer1, os2).

(** The [for] loop over the descriptors after a successful [select]. *)
Fixpoint recv_ready (b : Build) (abi : BpfAbi) (pdu : PDU) (wfuel : nat)
    (cap : Z) (readfds : list Z) (sockets : list Z) (buffer : list Z) (os : OS)
  : run (option Reply) * list Z * OS :=
  match sockets with
  | [] => (Done None, buffer, os)
  | fd :: rest =>
      if bool_decide (fd ∈ readfds) then
        match recv_one b abi pdu wfuel cap fd buffer os with
        | (Done None, buffer1, os1) =>
            recv_ready b abi pdu wfuel cap readfds rest buffer1 os1
        | other => other
        end
      else recv_ready b abi pdu wfuel cap readfds rest buffer os
  end.

(** [max_fd] after the loop that fills [readfds]. *)
Definition max_fd (sockets : list Z) : Z := foldl Z.max 0 sockets.

(** The first half of an iteration: [select], then the reads. *)
Inductive waited : Type :=
| WaitFailed                       (* select returned -1 *)
| Found (reply : Reply)            (* a candidate was accepted *)
| NotFound (buffer : list Z)       (* nothing accepted; the buffer as left *)
| WalkSpin.                        (* the walk over a read did not end *)

Definition wait_and_read (b : Build) (abi : BpfAbi) (pdu : PDU) (wfuel : nat)
    (cap : Z) (sockets : list Z) (st : LoopState) (os : OS) : waited * OS :=
  let readfds := os_ready os (tick os) in
  let '(read, os1) :=
    sys_int (c_select (max_fd sockets + 1) sockets (timeout st)) os in
  if read =? -1 then (WaitFailed, os1)
  else if 0 <? read then
    match recv_ready b abi pdu wfuel cap readfds sockets (buffer st) os1 with
    | (Spin, _, os2) => (WalkSpin, os2)
    | (Done (Some reply), _, os2) => (Found reply, os2)
    | (Done None, buffer1, os2) => (NotFound buffer1, os2)
    end
  else (NotFound (buffer st), os1).

(** One pass through the body of [while (true)]. *)
Inductive step : Type :=
| Return (r : option Reply)
| Continue (st : LoopState)
| Hang.                    (* the walk over a read did not end *)

(** The second half: [gettimeofday], [timeval_subtract], and the new
    relative timeout. *)
Definition check_deadline (st : LoopState) (buffer1 : list Z) (os : OS)
  : step * OS :=
  let this_time := os_now os (tick os) in
  let os1 := log c_gettimeofday os in
  let '(diff, _, expired) := timeval_subtract (end_time st) this_time in
  if expired then (Return None, os1)
  else (Continue {| timeout := diff; end_time := end_time st;
                    buffer := buffer1 |}, os1).

Definition loop_body (b : Build) (abi : BpfAbi) (pdu : PDU) (wfuel : nat)
    (cap : Z) (sockets : list Z) (st : LoopState) (os : OS) : step * OS :=
  match wait_and_read b abi pdu wfuel cap sockets st os with
  | (WaitFailed, os1) => (Return None, os1)
  | (Found reply, os1) => (Return (Some reply), os1)
  | (WalkSpin, os1) => (Hang, os1)
  | (NotFound buffer1, os1) => check_deadline st buffer1 os1
  end.

(** [while (true) { ... }], entered in state [st]. *)
Fixpoint loop (b : Build) (abi : BpfAbi) (pdu : PDU) (wfuel : nat) (cap : Z)
    (sockets : list Z) (fuel : nat) (st : LoopState) (os : OS)
  : run (option Reply) * OS :=
  match fuel with
  | O => (Spin, os)
  | S fuel' =>
      match loop_body b abi pdu wfuel cap sockets st os with
      | (Return r, os') => (Done r, os')
      | (Continue st', os') => loop b abi pdu wfuel cap sockets fuel' st' os'
      | (Hang, os') => (Spin, os')
      end
  end.

(** [PacketSender::recv_match_loop].  [scratch] is what the uninitialised
    array [buffer[2048]] holds on entry; on BSD the buffer is a fresh vector
    of [buffer_size_] zero bytes. *)
Definition recv_match_loop (b : Build) (abi : BpfAbi) (s : PacketSender)
    (pdu : PDU) (wfuel fuel : nat) (scratch : list Z) (sockets : list Z) (os : OS)
  : run (option Reply) * OS :=
  let cap := if bsd b then buffer_size_ s else 2048 in
  let buffer0 := if bsd b then replicate (Z.to_nat (buffer_size_ s)) 0 else scratch in
  let now := tv_sec (os_now os (tick os)) in
  let os1 := log c_time os in
  loop b abi pdu wfuel cap sockets fuel
    {| timeout := {| tv_sec := _timeout s; tv_usec := timeout_usec_ s |};
       end_time := {| tv_sec := wrap_long (now + _timeout s);
                      tv_usec := timeout_usec_ s |};
       buffer := buffer0 |}
    os1.

(** ** Vocabulary of the specification *)

(** The system after the calls [cs] have been made. *)
Definition logs (cs : list call) (os : OS) : OS :=
  {| os_ret := os_ret os; os_out := os_out os; os_ready := os_ready os;
     os_recv := os_recv os; os_now := os_now os;
     trace := trace os ++ cs |}.

(** The constructor's invariant on the table of IP sockets: one slot per
    kind, and no protocol number for the sentinel. *)
Definition sender_inv (s : PacketSender) : Prop :=
  length (sockets_ s) = type_index SOCKETS_END /\
  types_ s !! type_index SOCKETS_END = None.

(** The channel the pool holds for a kind and an interface: what the open
    operation of the kind creates and keeps.  The sentinel [SOCKETS_END] is
    not a kind and has no channel. *)
Definition channel (b : Build) (s : PacketSender) (type : SocketType)
    (iface : NetworkInterface) : option Z :=
  if decide (type = ETHER_SOCKET) then
    if pcap_sendpacket b then pcap_handles_ s !! iface_id iface
    else if bsd b then ether_socket_bsd_ s !! iface_id iface
    else if ether_socket_ s =? INVALID_RAW_SOCKET then None
         else Some (ether_socket_ s)
  else if decide (type = SOCKETS_END) then None
  else
    if socket_at s type =? INVALID_RAW_SOCKET then None
    else Some (socket_at s type).

(** The probing of [open_l2_socket] on BSD comes to a capture device that
    opens: [k] devices answer -1 and the next one does not, within the
    devices the bound [fuel] lets the model try.  Nothing is asked on a build
    without BSD, or when the interface has its entry already. *)
Definition device_found (b : Build) (fuel : nat) (iface : NetworkInterface)
    (s : PacketSender) (os : OS) : Prop :=
  bsd b = true -> ether_socket_bsd_ s !! iface_id iface = None ->
  exists k : nat,
    (k < fuel)%nat /\ Z.of_nat k <= INT_MAX /\
    (forall j, (j < k)%nat -> wrap_int (os_ret os (tick os + j)%nat) = -1) /\
    wrap_int (os_ret os (tick os + k)%nat) <> -1.

(** Two (kind, interface) pairs name the same channel: the same kind, and
    for link-layer channels kept per interface the same interface. *)
Definition same_channel (b : Build) (type : SocketType) (iface : NetworkInterface)
    (type' : SocketType) (iface' : NetworkInterface) : Prop :=
  type = type' /\
  (type = ETHER_SOCKET -> bsd b || pcap_sendpacket b = true ->
   iface_id iface = iface_id iface').

(** The close operation as the spec words it: with a channel open (and the
    system closing it without error) [close_socket] closes that channel,
    removes it from the pool and leaves every other channel alone; with no
    channel open it fails with [invalid_socket_type], the pool unchanged and
    no call made. *)
Definition close_contract (b : Build) (type : SocketType)
    (iface : NetworkInterface) (s : PacketSender) (os : OS) : Prop :=
  match channel b s type iface with
  | Some fd =>
      wrap_int (os_ret os (tick os)) <> -1 ->
      outcome (close_socket b type iface s os) = Ok tt /\
      os_after (close_socket b type iface s os) = log (c_close fd) os /\
      channel b (sender_after (close_socket b type iface s os)) type iface = None /\
      forall type' iface', ~ same_channel b type iface type' iface' ->
        channel b (sender_after (close_socket b type iface s os)) type' iface'
        = channel b s type' iface'
  | None =>
      close_socket b type iface s os = (Throw invalid_socket_type, s, os)
  end.

(** An open operation run a second time, from whatever state of the system:
    it succeeds, makes no call, and leaves the pool as the first run left
    it. *)
Definition open_idempotent (open : M unit) (s : PacketSender) (os : OS) : Prop :=
  forall s1 os1, open s os = (Ok tt, s1, os1) ->
  forall os2, open s1 os2 = (Ok tt, s1, os2).

(** Every call a computation makes satisfies [P]. *)
Definition calls_satisfy {A} (P : call -> Prop) (m : M A) : Prop :=
  forall s os, exists cs, os_after (m s os) = logs cs os /\ Forall P cs.

(** Every exception a computation throws satisfies [Q]. *)
Definition throws_only {A} (Q : exn -> Prop) (m : M A) : Prop :=
  forall s os e s' os', m s os = (Throw e, s', os') -> Q e.

(** Calls that hand a frame to the system for transmission. *)
Definition is_write (c : call) : bool :=
  match c with
  | c_sendto _ _ | c_write _ _ | c_pcap_sendpacket _ _ => true
  | _ => false
  end.

Definition is_not_write (c : call) : Prop := is_write c = false.

Definition writes (cs : list call) : list call := filter (fun c => is_write c = true) cs.

(** The empty link-layer send as the spec words it: no write, no error. *)
Definition empty_send_is_silent (b : Build) (fuel : nat) (pdu : PDU)
    (iface : NetworkInterface) (s : PacketSender) (os : OS) : Prop :=
  serialize pdu = [] ->
  outcome (send_l2 b fuel pdu iface s os) = Ok tt /\
  writes (calls_since os (os_after (send_l2 b fuel pdu iface s os))) = [].

(** The errors this file raises. *)
Definition core_error (e : exn) : Prop :=
  e = socket_open_error \/ e = socket_write_error \/ e = socket_close_error \/
  e = invalid_socket_type \/ e = runtime_error.

(** A PDU of none of the link-layer framings. *)
Definition no_link_layer_flag (pdu : PDU) : Prop :=
  matches_flag pdu ETHERNET_II = false /\ matches_flag pdu DOT11 = false /\
  matches_flag pdu RADIOTAP = false /\ matches_flag pdu IEEE802_3 = false.

(** The relative timeouts a run hands to [select]. *)
Definition select_timeouts (cs : list call) : list timeval :=
  omap (fun c => match c with c_select _ _ t => Some t | _ => None end) cs.

(** Every wait is given time left: more than zero. *)
Definition waits_only_with_time_left (cs : list call) : Prop :=
  Forall (fun t => 0 < micros t) (select_timeouts cs).

(** No wait is given a negative timeout. *)
Definition never_waits_negative (cs : list call) : Prop :=
  Forall (fun t => 0 <= tv_sec t /\ 0 <= tv_usec t) (select_timeouts cs).

(** Seconds of a deadline: a clock reading plus a 32-bit timeout. *)
Definition deadline_range (t : timeval) : Prop := - 2 ^ 62 < tv_sec t < 2 ^ 62.

(** What the clock returns at every call: normalized, and in range. *)
Definition clock_sane (os : OS) : Prop :=
  forall n, normalized (os_now os n) /\ clock_range (os_now os n).

(** A candidate: the memory the matcher is pointed at, and the length it is
    told. *)
Definition span : Type := (list Z * Z)%type.

Definition accepts (pdu : PDU) (sp : span) : bool := matches_response pdu sp.1 sp.2.
Definition tested (sp : span) : call := c_matches_response sp.1 sp.2.
Definition reply_of (pdu : PDU) (sp : span) : Reply :=
  pdu_from_flag (pdu_type pdu) sp.1 sp.2.

(** The candidates tested when [spans] are offered in order: all up to and
    including the first accepted one. *)
Fixpoint until_accepted (pdu : PDU) (spans : list span) : list span :=
  match spans with
  | [] => []
  | sp :: rest => sp :: (if accepts pdu sp then [] else until_accepted pdu rest)
  end.

(** The memory [mem], of which [size] bytes were read, holds the records
    [recs], each given by its header length and its captured length: every
    record starts where the one before it ends, rounded up to the alignment,
    and the last one ends at or after the end of the data. *)
Fixpoint holds_records (abi : BpfAbi) (mem : list Z) (size : Z)
    (recs : list (Z * Z)) : Prop :=
  match recs with
  | [] => size <= 0
  | (hdrlen, caplen) :: rest =>
      0 < size /\
      bh_hdrlen abi mem = hdrlen /\ bh_caplen abi mem = caplen /\
      0 <= hdrlen /\ 0 <= caplen /\
      0 < BPF_WORDALIGN abi (to_uint32 (hdrlen + caplen)) /\
      holds_records abi
        (drop (Z.to_nat (BPF_WORDALIGN abi (to_uint32 (hdrlen + caplen)))) mem)
        (size - BPF_WORDALIGN abi (to_uint32 (hdrlen + caplen))) rest
  end.

(** The payloads of those records, in order. *)
Fixpoint payload_spans (abi : BpfAbi) (mem : list Z) (recs : list (Z * Z))
  : list span :=
  match recs with
  | [] => []
  | (hdrlen, caplen) :: rest =>
      (drop (Z.to_nat hdrlen) mem, caplen)
      :: payload_spans abi
           (drop (Z.to_nat (BPF_WORDALIGN abi (to_uint32 (hdrlen + caplen)))) mem)
           rest
  end.

(** ** Concrete inputs *)

Definition eth0 : NetworkInterface := {| iface_id := 2; iface_name := [101; 116; 104; 48] |}.
Definition wlan0 : NetworkInterface := {| iface_id := 3; iface_name := [119; 108; 48] |}.

Definition sender0 : PacketSender := PacketSender_new eth0 2 0.

(** A system that answers the [n]-th call from the [n]-th entry of each
    list. *)
Definition scripted_os (rets : list Z) (outs : list Z) (readys : list (list Z))
    (recvs : list (option (list Z))) (nows : list timeval) : OS :=
  {| os_ret := fun n => nth n rets 0;
     os_out := fun n => nth n outs 0;
     os_ready := fun n => nth n readys [];
     os_recv := fun n => nth n recvs None;
     os_now := fun n => nth n nows (Timeval 0 0);
     trace := [] |}.

(** A PDU given by its serialization, its matcher and its send hook. *)
Definition make_pdu (flags : list PDUType) (bytes : list Z)
    (matcher : list Z -> Z -> bool) (hook : NetworkInterface -> M unit) : PDU :=
  {| matches_flag := fun f => bool_decide (f ∈ flags);
     pdu_type := OTHER_PDU 0;
     serialize := bytes;
     matches_response := matcher;
     pdu_send := hook;
     recv_response := fun _ => ret None;
     send_as := fun _ iface => hook iface |}.

(** An Ethernet PDU that serializes to nothing. *)
Definition empty_pdu : PDU :=
  make_pdu [ETHERNET_II] [] (fun _ _ => false) (fun _ => ret tt).

(** A PDU whose matcher accepts whatever it is shown and one whose matcher
    accepts nothing. *)
Definition credulous_pdu : PDU :=
  make_pdu [] [69; 0] (fun _ _ => true) (fun _ => ret tt).
Definition deaf_pdu : PDU :=
  make_pdu [] [69; 0] (fun _ _ => false) (fun _ => ret tt).

(** A PDU whose send hook fails with a write error. *)
Definition unsendable_pdu : PDU :=
  make_pdu [] [69; 0] (fun _ _ => false) (fun _ => throw socket_write_error).

(** A PDU that accepts the payloads starting with the byte 187. *)
Definition picky_pdu : PDU :=
  make_pdu [ETHERNET_II] [1; 2; 3]
    (fun mem size => bool_decide (0 < size /\ mem !! 0%nat = Some 187))
    (fun _ => ret tt).

(** A system whose clock shows the deadline itself at the first look: the
    call starts at second 100 with the two-second timeout of [sender0], no
    descriptor is ever ready, and [gettimeofday] answers 102 s, 0 us, then
    102 s, 1 us. *)
Definition on_time_os : OS :=
  scripted_os [0; 0; 0; 0; 0] [] [] []
    [Timeval 100 0; Timeval 0 0; Timeval 102 0; Timeval 0 0; Timeval 102 1].

(** Little-endian reading of [n] bytes at offset [off]; bytes past the end
    of the memory read as 0. *)
Fixpoint le_bytes (n : nat) (mem : list Z) (off : nat) : Z :=
  match n with
  | O => 0
  | S n' => default 0 (mem !! off) + 256 * le_bytes n' mem (S off)
  end.

(** [struct bpf_hdr] as FreeBSD lays it out on a 64-bit system: a 16-byte
    timestamp, [bh_caplen] at 16, [bh_datalen] at 20, [bh_hdrlen] at 24, and
    alignment to [sizeof(long)]. *)
Definition freebsd_abi : BpfAbi :=
  {| bh_hdrlen := fun mem => le_bytes 2 mem 24;
     bh_caplen := fun mem => le_bytes 4 mem 16;
     BPF_WORDALIGN := fun x => Z.land (x + 7) (Z.lnot 7) |}.

(** The four bytes of a [uint32_t], least significant first. *)
Definition le32 (v : Z) : list Z :=
  [v mod 256; v / 256 mod 256; v / 65536 mod 256; v / 16777216 mod 256].

(** One record as the capture device writes it: a 26-byte header (the
    timestamp, [bh_caplen], [bh_datalen], [bh_hdrlen]), the payload, and the
    padding to the next multiple of 8. *)
Definition bpf_record (payload : list Z) : list Z :=
  let caplen := Z.of_nat (length payload) in
  replicate 16 0 ++ le32 caplen ++ le32 caplen ++ [26; 0]
  ++ payload
  ++ replicate (Z.to_nat (Z.land (26 + caplen + 7) (Z.lnot 7) - (26 + caplen))) 0.

(** What one read of the capture device delivers for the frames
    [payloads], and the header and captured lengths of its records. *)
Definition bpf_batch (payloads : list (list Z)) : list Z :=
  concat (map bpf_record payloads).

Definition batch_recs (payloads : list (list Z)) : list (Z * Z) :=
  map (fun payload => (26, Z.of_nat (length payload))) payloads.

(** A frame short enough for its record to be counted in 32 bits. *)
Definition fits (payload : list Z) : Prop :=
  Z.of_nat (length payload) < 2 ^ 32 - 64.

Definition three_frames : list Z :=
  bpf_batch [[170; 1; 2]; [187; 3; 4; 5; 6; 7; 8]; [187; 9]].

(** A capture on BSD: [select] reports descriptor 5 ready and the read
    delivers [three_frames]. *)
Definition capture_os : OS :=
  scripted_os [1] [] [[5]] [None; Some three_frames] [].

Definition capture_state : LoopState :=
  {| timeout := Timeval 2 0; end_time := Timeval 102 0;
     buffer := replicate 4096 0 |}.

(** Header length and captured length of the records of [three_frames]. *)
Definition capture_recs : list (Z * Z) :=
  batch_recs [[170; 1; 2]; [187; 3; 4; 5; 6; 7; 8]; [187; 9]].

(** A failed read off BSD: [select] reports descriptor 5 ready, [recvfrom]
    returns -1, and the scratch buffer holds what an earlier use left. *)
Definition failed_read_os : OS := scripted_os [1] [] [[5]] [None; None] [].

Definition stale_state : LoopState :=
  {| timeout := Timeval 2 0; end_time := Timeval 102 0;
     buffer := [69; 0; 0; 20] |}.

(** The state the loop of [sender0] is entered in at second 100. *)
Definition entry_state : LoopState :=
  {| timeout := Timeval 2 0; end_time := Timeval 102 0; buffer := [] |}.

From stdpp Require Import sorting.

Local Open Scope Z_scope.

(** ** The rest of the sender: interface accessors, receive entry points,
    teardown *)

Definition set_default_iface_ (v : NetworkInterface) (s : PacketSender)
  : PacketSender :=
  {| sockets_ := sockets_ s; ether_socket_ := ether_socket_ s;
     ether_socket_bsd_ := ether_socket_bsd_ s; pcap_handles_ := pcap_handles_ s;
     types_ := types_ s; _timeout := _timeout s; timeout_usec_ := timeout_usec_ s;
     default_iface_ := v; buffer_size_ := buffer_size_ s |}.

(** [PacketSender::default_interface(const NetworkInterface&)], the setter. *)
Definition set_default_interface (iface : NetworkInterface) : M unit :=
  assign (set_default_iface_ iface).

(** [PacketSender::default_interface() const], the getter. *)
Definition default_interface : M NetworkInterface := this default_iface_.

(** A loop of the receive path run inside a member function: running out of
    fuel is divergence. *)
Definition lift_run {A} (f : OS -> run A * OS) : M A :=
  fun s os =>
    match f os with
    | (Done a, os') => (Ok a, s, os')
    | (Spin, os') => (Diverge, s, os')
    end.

(** [PacketSender::recv_l2].  [scratch] is what the loop's uninitialised
    buffer holds; [fuel], [wfuel] and [lfuel] bound the device probing, the
    walk over a read and the iterations of the loop. *)
Definition recv_l2 (b : Build) (abi : BpfAbi) (fuel wfuel lfuel : nat)
    (scratch : list Z) (pdu : PDU) (iface : NetworkInterface)
  : M (option Reply) :=
  sock <- get_ether_socket b fuel iface ;;
  s <- this (fun s => s) ;;
  lift_run (recv_match_loop b abi s pdu wfuel lfuel scratch [sock]).

(** [PacketSender::recv_l3].  The refusal of TCP and UDP is under
    [#ifdef BSD] alone, which is the parameter [BSD_macro]; it comes after
    the first [open_l3_socket]. *)
Definition recv_l3 (b : Build) (BSD_macro : bool) (abi : BpfAbi)
    (wfuel lfuel : nat) (scratch : list Z) (pdu : PDU) (type : SocketType)
  : M (option Reply) :=
  open_l3_socket type ;;;
  first <- this (fun s => socket_at s type) ;;
  if bool_decide (type = IP_TCP_SOCKET \/ type = IP_UDP_SOCKET) then
    if BSD_macro then throw runtime_error
    else
      open_l3_socket ICMP_SOCKET ;;;
      icmp <- this (fun s => socket_at s ICMP_SOCKET) ;;
      s <- this (fun s => s) ;;
      lift_run (recv_match_loop b abi s pdu wfuel lfuel scratch [first; icmp])
  else
    s <- this (fun s => s) ;;
    lift_run (recv_match_loop b abi s pdu wfuel lfuel scratch [first]).

(** The calls of the destructor.  It looks at no return value, so what it
    does is the list of the calls it makes, in order. *)
Inductive teardown_call : Type :=
| t_close (fd : Z)                 (* ::close(fd) *)
| t_pcap_close (handle : Z).       (* pcap_close(handle) *)

#[global] Instance teardown_call_eq_dec : EqDecision teardown_call.
Proof. solve_decision. Defined.

(** The entries of a [std::map] in the order its iterator visits them:
    by ascending key. *)
Definition key_le (a b : Z * Z) : Prop := a.1 <= b.1.

#[global] Instance key_le_dec (a b : Z * Z) : Decision (key_le a b).
Proof. unfold key_le. apply _. Defined.

Definition entries (m : gmap Z Z) : list (Z * Z) :=
  merge_sort key_le (map_to_list m).

(** [PacketSender::~PacketSender]. *)
Definition PacketSender_destructor (b : Build) (s : PacketSender)
  : list teardown_call :=
  map t_close (filter (fun fd => fd <> INVALID_RAW_SOCKET) (sockets_ s))
  ++ (if bsd b then map (fun kv => t_close kv.2) (entries (ether_socket_bsd_ s))
      else if ether_socket_ s =? INVALID_RAW_SOCKET then []
           else [t_close (ether_socket_ s)])
  ++ (if pcap_sendpacket b
      then map (fun kv => t_pcap_close kv.2) (entries (pcap_handles_ s))
      else []).

(** ** Vocabulary of the further properties *)

(** What no operation on channels changes: the protocol table, the
    timeouts, the default interface, and the size of the socket table. *)
Definition config_kept (s s' : PacketSender) : Prop :=
  types_ s' = types_ s /\ _timeout s' = _timeout s /\
  timeout_usec_ s' = timeout_usec_ s /\ default_iface_ s' = default_iface_ s /\
  length (sockets_ s') = length (sockets_ s).

(** Whatever a computation does, its final sender is related to its initial
    one by [R]. *)
Definition sender_related {A} (R : PacketSender -> PacketSender -> Prop)
    (m : M A) : Prop :=
  forall s os, R s (sender_after (m s os)).

(** A call that reads a descriptor, and the descriptor it reads. *)
Definition read_of (c : call) : option Z :=
  match c with
  | c_recvfrom fd | c_read fd => Some fd
  | _ => None
  end.

Definition reads (cs : list call) : list Z := omap read_of cs.

(** The configured timeout, in microseconds. *)
Definition configured_micros (s : PacketSender) : Z :=
  _timeout s * 1000000 + timeout_usec_ s.

(** The teardown call that releases the channel of a kind. *)
Definition release_of (b : Build) (type : SocketType) (handle : Z)
  : teardown_call :=
  if decide (type = ETHER_SOCKET) then
    if pcap_sendpacket b then t_pcap_close handle else t_close handle
  else t_close handle.

(** The devices [/dev/bpf0] ... [/dev/bpf<k-1>], asked for in order. *)
Definition bpf_probes (k : nat) : list call :=
  map (fun i => c_open_bpf (Z.of_nat i)) (seq 0 k).

(** A call of the receive loop, once it has read the clock with [time], run
    on the descriptors [sockets]: [gettimeofday], a wait on exactly those
    descriptors, a read of one of them by the build's read call, or the
    matcher.  A further call of [time] is none of them. *)
Definition receive_call_on (b : Build) (sockets : list Z) (c : call) : Prop :=
  match c with
  | c_gettimeofday | c_matches_response _ _ => True
  | c_select nfds fds _ => nfds = max_fd sockets + 1 /\ fds = sockets
  | c_recvfrom fd => bsd b = false /\ fd ∈ sockets
  | c_read fd => bsd b = true /\ fd ∈ sockets
  | _ => False
  end.

(** Every candidate the matcher was shown in [cs] was rejected. *)
Definition all_rejected (pdu : PDU) (cs : list call) : Prop :=
  Forall (fun c => match c with
                   | c_matches_response mem size =>
                       matches_response pdu mem size = false
                   | _ => True
                   end) cs.

(** What the tests of a run say of its result.  A reply comes from the last
    call of the run, which is the test of the one accepted candidate, every
    test before it being a rejection; without a reply every test was a
    rejection. *)
Definition verdict (pdu : PDU) (cs : list call) (r : option Reply) : Prop :=
  match r with
  | Some reply =>
      exists cs' sp, cs = cs' ++ [tested sp] /\ all_rejected pdu cs' /\
                     accepts pdu sp = true /\ reply = reply_of pdu sp
  | None => all_rejected pdu cs
  end.

(** The reply of a bounded run, if it ended with one. *)
Definition run_reply (r : run (option Reply)) : option Reply :=
  match r with
  | Done o => o
  | Spin => None
  end.

(** The reply an iteration's reads found, if any. *)
Definition found_reply (w : waited) : option Reply :=
  match w with
  | Found reply => Some reply
  | _ => None
  end.

(** The reads of [cs] are the descriptors of [ready] up to one of them and
    no further. *)
Definition reads_stop_within (ready : list Z) (cs : list call) : Prop :=
  exists before fd later,
    ready = before ++ fd :: later /\ reads cs = before ++ [fd].

(** A timeout of at least zero and at most the configured one. *)
Definition within_configured (s : PacketSender) (t : timeval) : Prop :=
  0 <= micros t <= configured_micros s.

(** No reading of the clock is before the start of the second [t0]. *)
Definition clock_not_before (os : OS) (t0 : Z) : Prop :=
  forall n, t0 * 1000000 <= micros (os_now os n).

(** ** Further concrete inputs *)

(** A system where nothing is ever ready and whose clock starts at second
    100 and advances one second per call for three calls. *)
Definition ticking_os : OS :=
  {| os_ret := fun _ => 0; os_out := fun _ => 0; os_ready := fun _ => [];
     os_recv := fun _ => None;
     os_now := fun n => Timeval (100 + Z.of_nat (Nat.min n 3)) 0;
     trace := [] |}.

(** A sender with a timeout of half a second. *)
Definition half_second_sender : PacketSender := PacketSender_new eth0 0 500000.

(** A system where the call starts 600 ms into second 100 and the clock is
    looked at again 10 us later; nothing is ready. *)
Definition mid_second_os : OS :=
  scripted_os [0; 0; 0] [] [] []
    [Timeval 100 600000; Timeval 0 0; Timeval 100 600010].

(** The calls that open, configure and close channels. *)
Definition is_setup_call (c : call) : Prop :=
  match c with
  | c_socket _ _ _ | c_setsockopt _ | c_close _ | c_open_bpf _ | c_ioctl _ _
  | c_pcap_create _ | c_pcap_set_promisc _ | c_pcap_activate _ => True
  | _ => False
  end.


(** A PDU that is sent without error and whose reception is refused with a
    [runtime_error]. *)
Definition refused_reply_pdu : PDU :=
  {| matches_flag := fun _ => false;
     pdu_type := OTHER_PDU 0;
     serialize := [69; 0];
     matches_response := fun _ _ => false;
     pdu_send := fun _ => ret tt;
     recv_response := fun _ => throw runtime_error;
     send_as := fun _ _ => ret tt |}.

(** The step the walk over a BSD read takes from the record at offset
    [ptr]. *)
Definition record_advance (abi : BpfAbi) (buffer : list Z) (ptr : Z) : Z :=
  let bpf_header := drop (Z.to_nat ptr) buffer in
  BPF_WORDALIGN abi (to_uint32 (bh_hdrlen abi bpf_header + bh_caplen abi bpf_header)).

(** The payload the walk shows to the matcher for the record at [ptr]. *)
Definition record_span (abi : BpfAbi) (buffer : list Z) (ptr : Z) : span :=
  let bpf_header := drop (Z.to_nat ptr) buffer in
  (drop (Z.to_nat (bh_hdrlen abi bpf_header)) bpf_header, bh_caplen abi bpf_header).

(** A system where descriptor 5 is ready and its read delivers twenty zero
    bytes: a record whose header announces no length at all. *)
Definition zero_record_os : OS :=
  scripted_os [1] [] [[5]] [None; Some (replicate 20 0)] [].

(** The [nfds] and the descriptor list of every [select] of a run. *)
Definition select_calls (cs : list call) : list (Z * list Z) :=
  omap (fun c => match c with c_select nfds fds _ => Some (nfds, fds) | _ => None end)
       cs.

(** What [select] asks of its first argument: more than every descriptor of
    the set, and no more than needed. *)
Definition nfds_fits (sockets : list Z) (call : Z * list Z) : Prop :=
  call.2 = sockets /\ 1 <= call.1 /\ Forall (fun fd => fd < call.1) call.2 /\
  (call.1 = 1 \/ call.1 - 1 ∈ call.2).

(** A BSD build with the pcap transport. *)
Definition pcap_bsd_build : Build :=
  {| bsd := true; pcap_sendpacket := true; have_dot11 := true |}.

(** * Properties *)

(** ** Machine integers *)

Section MachineFacts.

Lemma wrap_long_small z : LONG_MIN <= z <= LONG_MAX -> wrap_long z = z.
Proof.
  unfold wrap_long, wrap_signed, LONG_MIN, LONG_MAX. intros Hz.
  rewrite Z.mod_small; lia.
Qed.

Lemma wrap_int_small z : INT_MIN <= z <= INT_MAX -> wrap_int z = z.
Proof.
  unfold wrap_int, wrap_signed, INT_MIN, INT_MAX. intros Hz.
  rewrite Z.mod_small; lia.
Qed.

Lemma wrap_int_range z : INT_MIN <= wrap_int z <= INT_MAX.
Proof.
  unfold wrap_int, wrap_signed, INT_MIN, INT_MAX.
  pose proof (Z.mod_pos_bound (z + 2 ^ (32 - 1)) (2 ^ 32)). lia.
Qed.

(** Reducing a non-negative value to [int] never makes it larger. *)
Lemma wrap_int_le z : 0 <= z -> wrap_int z <= z.
Proof.
  intros Hz. unfold wrap_int, wrap_signed.
  pose proof (Z.mod_le (z + 2 ^ (32 - 1)) (2 ^ 32)). lia.
Qed.

End MachineFacts.

Ltac long_range := unfold LONG_MIN, LONG_MAX, INT_MIN, INT_MAX; lia.

(** ** Deadline arithmetic *)

Section DeadlineArithmetic.

Lemma quot_million_small d : 0 <= d < 1000000 -> d ÷ 1000000 = 0.
Proof. intros Hd. apply Z.quot_small. lia. Qed.

Example timeval_subtract_borrow :
  timeval_subtract (Timeval 10 200000) (Timeval 7 900000)
  = (Timeval 2 300000, Timeval 8 (-100000), false).
Proof. reflexivity. Qed.

Example timeval_subtract_past :
  subtract_expired (Timeval 10 200000) (Timeval 10 200001) = true.
Proof. reflexivity. Qed.

(** The two ways through the carry, for normalized operands. *)
Lemma timeval_subtract_no_borrow x y :
  normalized x -> normalized y -> clock_range x -> clock_range y ->
  tv_usec y <= tv_usec x ->
  timeval_subtract x y
  = (Timeval (tv_sec x - tv_sec y) (tv_usec x - tv_usec y), y,
     tv_sec x <? tv_sec y).
Proof.
  unfold normalized, clock_range, timeval_subtract.
  intros Hx Hy Hcx Hcy Hle. cbv zeta.
  destruct (Z.ltb_spec (tv_usec x) (tv_usec y)) as [Hlt|_]; [lia|].
  rewrite !(wrap_long_small (tv_usec x - tv_usec y)) by long_range.
  destruct (Z.ltb_spec 1000000 (tv_usec x - tv_usec y)) as [Hgt|_]; [lia|].
  rewrite !wrap_long_small by long_range.
  reflexivity.
Qed.

Lemma timeval_subtract_borrow_one x y :
  normalized x -> normalized y -> clock_range x -> clock_range y ->
  tv_usec x < tv_usec y ->
  timeval_subtract x y
  = (Timeval (tv_sec x - (tv_sec y + 1)) (tv_usec x - tv_usec y + 1000000),
     Timeval (tv_sec y + 1) (tv_usec y - 1000000),
     tv_sec x <? tv_sec y + 1).
Proof.
  unfold normalized, clock_range, timeval_subtract.
  intros Hx Hy Hcx Hcy Hlt. cbv zeta.
  destruct (Z.ltb_spec (tv_usec x) (tv_usec y)) as [_|Hge]; [|lia].
  rewrite !(wrap_long_small (tv_usec y - tv_usec x)) by long_range.
  rewrite !quot_million_small by lia. cbn [tv_sec tv_usec].
  change (wrap_int (wrap_long (0 + 1))) with 1.
  change (wrap_int (1000000 * 1)) with 1000000.
  rewrite !(wrap_long_small (tv_usec y - 1000000)) by long_range.
  rewrite !(wrap_long_small (tv_sec y + 1)) by long_range.
  rewrite !(wrap_long_small (tv_usec x - (tv_usec y - 1000000))) by long_range.
  destruct (Z.ltb_spec 1000000 (tv_usec x - (tv_usec y - 1000000))) as [Hgt|_];
    [lia|].
  cbn [tv_sec tv_usec].
  rewrite !wrap_long_small by long_range.
  do 2 f_equal. f_equal. lia.
Qed.

(** C1.  For a deadline and a current time with microseconds in
    [0, 1_000_000) (and seconds a clock can show), [timeval_subtract] reports
    expiry exactly when the deadline is before the current time; when it
    does not, the result has non-negative seconds, microseconds in
    [0, 1_000_000), and is the exact difference deadline - now. *)
Theorem timeval_subtract_correct (deadline now : timeval) :
  normalized deadline -> normalized now ->
  clock_range deadline -> clock_range now ->
  (subtract_expired deadline now = true <-> timeval_lt deadline now) /\
  (subtract_expired deadline now = false ->
     0 <= tv_sec (subtract_result deadline now) /\
     0 <= tv_usec (subtract_result deadline now) < 1000000 /\
     micros (subtract_result deadline now) = micros deadline - micros now).
Proof.
  intros Hd Hn Hcd Hcn. unfold subtract_expired, subtract_result.
  destruct (Z.lt_ge_cases (tv_usec deadline) (tv_usec now)) as [Hlt|Hge].
  - rewrite timeval_subtract_borrow_one by assumption. cbn [fst snd].
    unfold timeval_lt, micros, normalized in *. cbn [tv_sec tv_usec].
    split.
    + rewrite Z.ltb_lt. lia.
    + rewrite Z.ltb_ge. lia.
  - rewrite timeval_subtract_no_borrow by assumption. cbn [fst snd].
    unfold timeval_lt, micros, normalized in *. cbn [tv_sec tv_usec].
    split.
    + rewrite Z.ltb_lt. lia.
    + rewrite Z.ltb_ge. lia.
Qed.

Lemma timeval_subtract_correct_witness :
  (subtract_expired (Timeval 1700000002 250000) (Timeval 1700000000 750000) = true
   <-> timeval_lt (Timeval 1700000002 250000) (Timeval 1700000000 750000)) /\
  (subtract_expired (Timeval 1700000002 250000) (Timeval 1700000000 750000) = false ->
     0 <= tv_sec (subtract_result (Timeval 1700000002 250000) (Timeval 1700000000 750000)) /\
     0 <= tv_usec (subtract_result (Timeval 1700000002 250000) (Timeval 1700000000 750000))
       < 1000000 /\
     micros (subtract_result (Timeval 1700000002 250000) (Timeval 1700000000 750000))
     = micros (Timeval 1700000002 250000) - micros (Timeval 1700000000 750000)).
Proof.
  apply (timeval_subtract_correct (Timeval 1700000002 250000) (Timeval 1700000000 750000));
    unfold normalized, clock_range; simpl; lia.
Defined.

End DeadlineArithmetic.

(** ** Send dispatcher *)

Section SendDispatcher.

Variable b : Build.
Variable pdu : PDU.

(** C10.  A PDU that matches none of the link-layer flags (Ethernet II,
    Dot11, RadioTap, IEEE 802.3) is sent by [send(pdu, iface)] through its
    own send hook, called with the sender's default interface: the [iface]
    argument plays no part. *)
Theorem send_falls_back_to_default_interface
    (iface : NetworkInterface) (s : PacketSender) (os : OS) :
  no_link_layer_flag pdu ->
  send_iface b pdu iface s os = pdu_send pdu (default_iface_ s) s os.
Proof.
  intros (He & Hd & Hr & Hi). unfold send_iface.
  rewrite He, Hd, Hr, Hi, !andb_false_r. reflexivity.
Qed.

(** C9.  When the PDU's send hook fails inside [send_recv] with one of the
    errors this file raises, [send_recv] returns "no reply" and the error
    does not reach the caller; the reception is not attempted. *)
Theorem send_recv_swallows_transmit_failure
    (iface : NetworkInterface) (s : PacketSender) (os : OS)
    (e : exn) (s' : PacketSender) (os' : OS) :
  pdu_send pdu iface s os = (Throw e, s', os') ->
  core_error e ->
  send_recv_iface pdu iface s os = (Ok None, s', os').
Proof.
  intros Hsend He.
  unfold send_recv_iface, bind, try_catch_runtime_error, ret. rewrite Hsend.
  assert (is_runtime_error e = true) as ->.
  { destruct He as [->|[->|[->|[->| ->]]]]; reflexivity. }
  reflexivity.
Qed.

End SendDispatcher.

Lemma send_falls_back_to_default_interface_witness :
  no_link_layer_flag credulous_pdu /\
  send_iface linux_build credulous_pdu wlan0 sender0 (scripted_os [] [] [] [] [])
  = pdu_send credulous_pdu (default_iface_ sender0) sender0
      (scripted_os [] [] [] [] []).
Proof.
  split.
  - repeat split.
  - apply (send_falls_back_to_default_interface linux_build credulous_pdu wlan0).
    repeat split.
Defined.

Lemma send_recv_swallows_transmit_failure_witness :
  pdu_send unsendable_pdu eth0 sender0 (scripted_os [] [] [] [] [])
  = (Throw socket_write_error, sender0, scripted_os [] [] [] [] []) /\
  core_error socket_write_error /\
  send_recv_iface unsendable_pdu eth0 sender0 (scripted_os [] [] [] [] [])
  = (Ok None, sender0, scripted_os [] [] [] [] []).
Proof.
  split; [reflexivity|]. split; [right; left; reflexivity|].
  apply (send_recv_swallows_transmit_failure unsendable_pdu eth0 sender0
           (scripted_os [] [] [] [] []) socket_write_error).
  - reflexivity.
  - right; left; reflexivity.
Defined.

(** ** Channel pool *)

Ltac run_m :=
  unfold bind, this, assign, sys, throw, ret, diverge, sys_int, sys_ptr;
  cbn beta iota zeta.

Section ChannelPool.

Lemma bind_ok {A B} (m : M A) (k : A -> M B) s os a s1 os1 :
  m s os = (Ok a, s1, os1) -> bind m k s os = k a s1 os1.
Proof. intros H. unfold bind. rewrite H. reflexivity. Qed.

Lemma bind_throw {A B} (m : M A) (k : A -> M B) s os e s1 os1 :
  m s os = (Throw e, s1, os1) -> bind m k s os = (Throw e, s1, os1).
Proof. intros H. unfold bind. rewrite H. reflexivity. Qed.

Lemma type_index_inj t t' : type_index t = type_index t' -> t = t'.
Proof. destruct t, t'; simpl; intros H; congruence. Qed.

Lemma socket_at_set_same s type v :
  (type_index type < length (sockets_ s))%nat ->
  socket_at (set_sockets_ (<[type_index type := v]> (sockets_ s)) s) type = v.
Proof.
  intros Hlt. unfold socket_at. simpl.
  rewrite list_lookup_insert_eq by assumption. reflexivity.
Qed.

Lemma socket_at_set_other s type type' v :
  type <> type' ->
  socket_at (set_sockets_ (<[type_index type := v]> (sockets_ s)) s) type'
  = socket_at s type'.
Proof.
  intros Hne. unfold socket_at. simpl.
  rewrite list_lookup_insert_ne; [reflexivity|].
  intros Heq. apply Hne, type_index_inj, Heq.
Qed.

(** A slot that holds a descriptor is a slot of the table. *)
Lemma socket_at_in_range s type :
  socket_at s type <> INVALID_RAW_SOCKET ->
  (type_index type < length (sockets_ s))%nat.
Proof.
  unfold socket_at. intros Hne.
  destruct (sockets_ s !! type_index type) eqn:Hl.
  - eapply lookup_lt_Some, Hl.
  - simpl in Hne. congruence.
Qed.

Lemma socket_at_sentinel s :
  sender_inv s -> socket_at s SOCKETS_END = INVALID_RAW_SOCKET.
Proof.
  intros [Hlen _]. unfold socket_at.
  rewrite lookup_ge_None_2; [reflexivity|]. rewrite Hlen. lia.
Qed.

(** Closing an IP-layer channel. *)
Lemma close_socket_ip b type iface s os :
  type <> ETHER_SOCKET ->
  close_contract b type iface s os.
Proof.
  intros Hip. unfold close_contract, channel, close_socket.
  destruct (decide (type = ETHER_SOCKET)) as [|_]; [contradiction|].
  destruct (decide (type = SOCKETS_END)) as [->|Hkind].
  { run_m. reflexivity. }
  assert ((type_index SOCKETS_END <=? type_index type)%nat = false) as Hend.
  { destruct type; try reflexivity; contradiction. }
  destruct (Z.eqb_spec (socket_at s type) INVALID_RAW_SOCKET) as [Hinv|Hopen].
  - run_m. rewrite Hinv, orb_true_r. reflexivity.
  - intros Hclose. pose proof (socket_at_in_range s type Hopen) as Hlt.
    run_m. rewrite Hend. simpl.
    destruct (Z.eqb_spec (socket_at s type) INVALID_RAW_SOCKET) as [|_];
      [contradiction|].
    destruct (Z.eqb_spec (wrap_int (os_ret os (tick os))) (-1)) as [|_];
      [contradiction|].
    unfold outcome, os_after, sender_after. simpl.
    split; [reflexivity|]. split; [reflexivity|]. split.
    + rewrite socket_at_set_same by assumption. reflexivity.
    + intros type' iface' Hother.
      assert (type <> type') as Hne.
      { intros ->. apply Hother. split; [reflexivity|]. intros ->. contradiction. }
      destruct (decide (type' = ETHER_SOCKET)); [reflexivity|].
      destruct (decide (type' = SOCKETS_END)); [reflexivity|].
      rewrite socket_at_set_other by assumption. reflexivity.
Qed.

(** Closing the link-layer channel where it is an OS descriptor. *)
Lemma close_socket_ether b iface s os :
  pcap_sendpacket b = false ->
  close_contract b ETHER_SOCKET iface s os.
Proof.
  intros Hpcap. unfold close_contract, channel, close_socket.
  rewrite Hpcap. destruct (decide (ETHER_SOCKET = ETHER_SOCKET)) as [_|]; [|contradiction].
  destruct (bsd b) eqn:Hbsd.
  - (* one descriptor per interface *)
    run_m. destruct (ether_socket_bsd_ s !! iface_id iface) as [fd|] eqn:Hfd;
      [|reflexivity].
    intros Hclose. run_m.
    destruct (Z.eqb_spec (wrap_int (os_ret os (tick os))) (-1)) as [|_];
      [contradiction|].
    unfold outcome, os_after, sender_after. simpl.
    split; [reflexivity|]. split; [reflexivity|]. split.
    + apply lookup_delete_eq.
    + intros type' iface' Hother.
      destruct (decide (type' = ETHER_SOCKET)) as [->|_]; [|reflexivity].
      apply lookup_delete_ne.
      intros Heq. apply Hother. split; [reflexivity|]. intros _ _. exact Heq.
  - (* one descriptor for all interfaces *)
    run_m. destruct (Z.eqb_spec (ether_socket_ s) INVALID_RAW_SOCKET) as [Hinv|Hopen];
      [reflexivity|].
    intros Hclose. run_m.
    destruct (Z.eqb_spec (wrap_int (os_ret os (tick os))) (-1)) as [|_];
      [contradiction|].
    unfold outcome, os_after, sender_after. simpl.
    split; [reflexivity|]. split; [reflexivity|]. split; [reflexivity|].
    intros type' iface' Hother.
    destruct (decide (type' = ETHER_SOCKET)) as [->|_]; [|reflexivity].
    exfalso. apply Hother. split; [reflexivity|].
    intros _ Hper. rewrite Hbsd, Hpcap in Hper. discriminate.
Qed.

(** X28.  Where the channel is an OS descriptor, [close_socket] does what
    the spec says of close.  For every IP-layer kind, and for the link-layer
    kind on the builds that keep it as a descriptor (the one raw socket, or
    one capture device per interface): with a channel of the kind (for the
    interface) open and the system closing it without error, [close_socket]
    closes exactly that descriptor, removes it from the pool and leaves the
    other channels as they were; with none open it fails with
    [invalid_socket_type], the pool unchanged and nothing closed. *)
Theorem close_socket_closes_descriptor_channel
    (b : Build) (type : SocketType) (iface : NetworkInterface)
    (s : PacketSender) (os : OS) :
  (type = ETHER_SOCKET -> pcap_sendpacket b = false) ->
  close_contract b type iface s os.
Proof.
  intros Hscope. destruct (decide (type = ETHER_SOCKET)) as [->|Hip].
  - apply close_socket_ether, Hscope. reflexivity.
  - apply close_socket_ip, Hip.
Qed.

End ChannelPool.

Lemma close_socket_closes_descriptor_channel_witness :
  (ICMP_SOCKET = ETHER_SOCKET -> pcap_sendpacket linux_build = false) /\
  close_contract linux_build ICMP_SOCKET eth0
    (sender_after (open_l3_socket ICMP_SOCKET sender0 (scripted_os [5; 0; 0] [] [] [] [])))
    (os_after (open_l3_socket ICMP_SOCKET sender0 (scripted_os [5; 0; 0] [] [] [] []))).
Proof.
  split; [reflexivity|].
  apply (close_socket_closes_descriptor_channel linux_build ICMP_SOCKET eth0).
  reflexivity.
Defined.

(** C7.  [close_socket] has no branch for the pcap transport, which
    [open_l2_socket], [send_l2] and the destructor have.  On a build with
    it, the link-layer channel [open_l2_socket] opened for [eth0] is the pcap
    handle 7; the system would close without error, and [close_socket]
    throws [invalid_socket_type] and leaves the handle in the pool: the open
    channel is neither closed nor removed, against what the spec says of
    close. *)
Theorem close_socket_leaves_pcap_handle :
  let opened := open_l2_socket pcap_build 0 eth0 sender0
                  (scripted_os [7; 0; 0; 0] [] [] [] []) in
  outcome opened = Ok tt /\
  channel pcap_build (sender_after opened) ETHER_SOCKET eth0 = Some 7 /\
  close_socket pcap_build ETHER_SOCKET eth0 (sender_after opened) (os_after opened)
  = (Throw invalid_socket_type, sender_after opened, os_after opened) /\
  ~ close_contract pcap_build ETHER_SOCKET eth0 (sender_after opened) (os_after opened).
Proof.
  cbv zeta. split; [reflexivity|]. split; [reflexivity|]. split; [reflexivity|].
  unfold close_contract.
  change (channel pcap_build _ ETHER_SOCKET eth0) with (Some 7).
  intros Hc. destruct Hc as [Hok _]; [vm_compute; discriminate|].
  vm_compute in Hok. discriminate.
Qed.

(** ** Traces *)

Section Traces.

Lemma logs_nil os : logs [] os = os.
Proof. destruct os. unfold logs. simpl. rewrite app_nil_r. reflexivity. Qed.

Lemma logs_logs cs1 cs2 os : logs cs2 (logs cs1 os) = logs (cs1 ++ cs2) os.
Proof. unfold logs. simpl. rewrite app_assoc. reflexivity. Qed.

Lemma log_logs c os : log c os = logs [c] os.
Proof. reflexivity. Qed.

Lemma calls_since_logs cs os : calls_since os (logs cs os) = cs.
Proof. unfold calls_since, logs. simpl. apply drop_app_length. Qed.

Lemma tick_logs cs os : tick (logs cs os) = (tick os + length cs)%nat.
Proof. unfold tick, logs. simpl. apply length_app. Qed.

Context {P : call -> Prop}.

Lemma calls_ret {A} (a : A) : calls_satisfy P (ret a).
Proof. intros s os. exists []. rewrite logs_nil. split; [reflexivity|constructor]. Qed.

Lemma calls_throw {A} e : calls_satisfy P (@throw A e).
Proof. intros s os. exists []. rewrite logs_nil. split; [reflexivity|constructor]. Qed.

Lemma calls_diverge {A} : calls_satisfy P (@diverge A).
Proof. intros s os. exists []. rewrite logs_nil. split; [reflexivity|constructor]. Qed.

Lemma calls_this {A} (f : PacketSender -> A) : calls_satisfy P (this f).
Proof. intros s os. exists []. rewrite logs_nil. split; [reflexivity|constructor]. Qed.

Lemma calls_assign f : calls_satisfy P (assign f).
Proof. intros s os. exists []. rewrite logs_nil. split; [reflexivity|constructor]. Qed.

Lemma calls_sys_int c : P c -> calls_satisfy P (sys (sys_int c)).
Proof.
  intros Hc s os. exists [c]. split; [reflexivity|]. repeat constructor. exact Hc.
Qed.

Lemma calls_sys_ptr c : P c -> calls_satisfy P (sys (sys_ptr c)).
Proof.
  intros Hc s os. exists [c]. split; [reflexivity|]. repeat constructor. exact Hc.
Qed.

Lemma calls_peek {A} (f : OS -> A) : calls_satisfy P (sys (fun os => (f os, os))).
Proof. intros s os. exists []. rewrite logs_nil. split; [reflexivity|constructor]. Qed.

Lemma calls_bind {A B} (m : M A) (k : A -> M B) :
  calls_satisfy P m -> (forall a, calls_satisfy P (k a)) ->
  calls_satisfy P (bind m k).
Proof.
  intros Hm Hk s os. destruct (Hm s os) as (cs1 & E1 & F1).
  unfold bind. unfold os_after in *.
  destruct (m s os) as [[[a|e|] s1] os1]; simpl in *.
  - destruct (Hk a s1 os1) as (cs2 & E2 & F2). exists (cs1 ++ cs2).
    unfold os_after in E2. rewrite E2, E1, logs_logs.
    split; [reflexivity|]. apply Forall_app; split; assumption.
  - exists cs1. split; assumption.
  - exists cs1. split; assumption.
Qed.

End Traces.

Ltac calls_step :=
  first
    [ apply calls_ret | apply calls_throw | apply calls_diverge
    | apply calls_this | apply calls_assign | apply calls_peek
    | apply calls_sys_int; simpl; try reflexivity; try discriminate
    | apply calls_sys_ptr; simpl; try reflexivity; try discriminate
    | apply calls_bind; [|intros ?]
    | match goal with |- calls_satisfy _ (if ?c then _ else _) => destruct c end
    | match goal with |- calls_satisfy _ (match ?c with _ => _ end) => destruct c end ].

(** ** Channel pool: opening *)

Section OpenChannels.

Lemma probe_bpf_no_write fuel i : calls_satisfy is_not_write (probe_bpf fuel i).
Proof.
  revert i. induction fuel as [|fuel IH]; intros i; simpl.
  - apply calls_diverge.
  - apply calls_bind; [apply calls_sys_int; reflexivity|].
    intros sock. destruct (sock =? -1); [apply IH|apply calls_ret].
Qed.

Lemma make_pcap_handle_no_write iface :
  calls_satisfy is_not_write (make_pcap_handle iface).
Proof. unfold make_pcap_handle. repeat calls_step. Qed.

Lemma open_l2_socket_no_write b fuel iface :
  calls_satisfy is_not_write (open_l2_socket b fuel iface).
Proof.
  unfold open_l2_socket. destruct (pcap_sendpacket b); [|destruct (bsd b)].
  - apply calls_bind; [apply calls_this|]. intros [h|];
      [apply calls_ret|].
    apply calls_bind; [apply make_pcap_handle_no_write|]. intros; apply calls_assign.
  - apply calls_bind; [apply probe_bpf_no_write|]. intros sock.
    repeat calls_step.
  - repeat calls_step.
Qed.

Lemma get_ether_socket_no_write b fuel iface :
  calls_satisfy is_not_write (get_ether_socket b fuel iface).
Proof.
  unfold get_ether_socket.
  apply calls_bind; [apply calls_this|]. intros ready.
  apply calls_bind.
  - destruct ready; [apply calls_ret|apply open_l2_socket_no_write].
  - intros _. destruct (bsd b); [|apply calls_this].
    unfold ether_socket_bsd_at. repeat calls_step.
Qed.

(** What the open operations can throw. *)
Lemma throws_ret {A} Q (a : A) : throws_only Q (ret a).
Proof. intros s os e s' os' H. discriminate H. Qed.

Lemma throws_this {A} Q (f : PacketSender -> A) : throws_only Q (this f).
Proof. intros s os e s' os' H. discriminate H. Qed.

Lemma throws_assign Q f : throws_only Q (assign f).
Proof. intros s os e s' os' H. discriminate H. Qed.

Lemma throws_diverge {A} Q : throws_only Q (@diverge A).
Proof. intros s os e s' os' H. discriminate H. Qed.

Lemma throws_sys {A} Q (f : OS -> A * OS) : throws_only Q (sys f).
Proof.
  intros s os e s' os' H. unfold sys in H. destruct (f os). discriminate H.
Qed.

Lemma throws_throw {A} (Q : exn -> Prop) e : Q e -> throws_only Q (@throw A e).
Proof. intros He s os e' s' os' [= <- _ _]. exact He. Qed.

Lemma throws_bind {A B} Q (m : M A) (k : A -> M B) :
  throws_only Q m -> (forall a, throws_only Q (k a)) -> throws_only Q (bind m k).
Proof.
  intros Hm Hk s os e s' os'. unfold bind.
  destruct (m s os) as [[[a|e0|] s1] os1] eqn:Hrun.
  - apply Hk.
  - intros [= <- _ _]. eapply Hm, Hrun.
  - discriminate.
Qed.

Ltac throws_step :=
  first
    [ apply throws_ret | apply throws_this | apply throws_assign
    | apply throws_diverge | apply throws_sys
    | apply throws_throw; reflexivity
    | apply throws_bind; [|intros ?]
    | match goal with |- throws_only _ (if ?c then _ else _) => destruct c end
    | match goal with |- throws_only _ (match ?c with _ => _ end) => destruct c end ].

Lemma probe_bpf_throws_nothing Q fuel i : throws_only Q (probe_bpf fuel i).
Proof.
  revert i. induction fuel as [|fuel IH]; intros i; simpl.
  - apply throws_diverge.
  - apply throws_bind; [apply throws_sys|].
    intros sock. destruct (sock =? -1); [apply IH|apply throws_ret].
Qed.

Lemma open_l2_socket_throws b fuel iface :
  pcap_sendpacket b = false ->
  throws_only (fun e => e = socket_open_error) (open_l2_socket b fuel iface).
Proof.
  intros Hpcap. unfold open_l2_socket. rewrite Hpcap. destruct (bsd b).
  - apply throws_bind; [apply probe_bpf_throws_nothing|]. intros sock.
    repeat throws_step.
  - repeat throws_step.
Qed.

Lemma get_ether_socket_throws b fuel iface :
  pcap_sendpacket b = false ->
  throws_only (fun e => e = socket_open_error) (get_ether_socket b fuel iface).
Proof.
  intros Hpcap. unfold get_ether_socket.
  apply throws_bind; [apply throws_this|]. intros ready.
  apply throws_bind.
  - destruct ready; [apply throws_ret|apply open_l2_socket_throws, Hpcap].
  - intros _. destruct (bsd b); [|apply throws_this].
    unfold ether_socket_bsd_at. repeat throws_step.
Qed.

Lemma writes_none cs : Forall is_not_write cs -> writes cs = [].
Proof.
  unfold writes. induction 1 as [|c cs Hc _ IH]; [reflexivity|].
  rewrite filter_cons_False; [exact IH|].
  unfold is_not_write in Hc. rewrite Hc. discriminate.
Qed.

Lemma find_type_set_sockets s v type :
  find_type (set_sockets_ v s) type = find_type s type.
Proof. reflexivity. Qed.

(** Sibling paths of the BSD branch of [open_l2_socket]: each looks for the
    channel first and opens nothing when it is there. *)
Lemma open_l3_socket_idempotent type s os :
  sender_inv s -> open_idempotent (open_l3_socket type) s os.
Proof.
  intros [Hlen Hend] s1 os1. unfold open_l3_socket. run_m.
  destruct (Z.eqb_spec (find_type s type) (-1)) as [|Hknown]; [discriminate|].
  assert (type_index type < length (sockets_ s))%nat as Hlt.
  { rewrite Hlen. destruct type; simpl; try lia.
    exfalso. apply Hknown. unfold find_type. rewrite Hend. reflexivity. }
  destruct (Z.eqb_spec (socket_at s type) INVALID_RAW_SOCKET) as [Hclosed|Hopen].
  - destruct (Z.ltb_spec (wrap_int (os_ret os (tick os))) 0) as [|Hfd];
      [discriminate|].
    intros [= <- <-] os2. rewrite find_type_set_sockets.
    destruct (Z.eqb_spec (find_type s type) (-1)) as [|_]; [contradiction|].
    rewrite socket_at_set_same by assumption.
    destruct (Z.eqb_spec (wrap_int (os_ret os (tick os))) INVALID_RAW_SOCKET) as [Hbad|_];
      [unfold INVALID_RAW_SOCKET in Hbad; lia|].
    reflexivity.
  - intros [= <- <-] os2.
    destruct (Z.eqb_spec (find_type s type) (-1)) as [|_]; [contradiction|].
    destruct (Z.eqb_spec (socket_at s type) INVALID_RAW_SOCKET) as [|_];
      [contradiction|].
    reflexivity.
Qed.

Lemma open_l2_socket_raw_idempotent b fuel iface s os :
  pcap_sendpacket b = false -> bsd b = false ->
  open_idempotent (open_l2_socket b fuel iface) s os.
Proof.
  intros Hpcap Hbsd s1 os1. unfold open_l2_socket. rewrite Hpcap, Hbsd. run_m.
  destruct (Z.eqb_spec (ether_socket_ s) INVALID_RAW_SOCKET) as [Hclosed|Hopen].
  - destruct (Z.eqb_spec (wrap_int (os_ret os (tick os))) (-1)) as [|Hfd];
      [discriminate|].
    intros [= <- <-] os2. simpl.
    destruct (Z.eqb_spec (wrap_int (os_ret os (tick os))) INVALID_RAW_SOCKET) as [|_];
      [contradiction|].
    reflexivity.
  - intros [= <- <-] os2.
    destruct (Z.eqb_spec (ether_socket_ s) INVALID_RAW_SOCKET) as [|_];
      [contradiction|].
    reflexivity.
Qed.

Lemma open_l2_socket_pcap_idempotent b fuel iface s os :
  pcap_sendpacket b = true ->
  open_idempotent (open_l2_socket b fuel iface) s os.
Proof.
  intros Hpcap s1 os1. unfold open_l2_socket. rewrite Hpcap.
  unfold bind at 1. unfold this at 1.
  destruct (pcap_handles_ s !! iface_id iface) as [h|] eqn:Hh.
  - intros [= <- <-] os2. unfold bind, this. rewrite Hh. reflexivity.
  - unfold bind, assign.
    destruct (make_pcap_handle iface s os) as [[[h|e|] s'] os'] eqn:Hmk;
      try discriminate.
    intros [= <- <-] os2. unfold this. simpl.
    rewrite lookup_insert_eq. reflexivity.
Qed.

(** C6 at its failing input.  On a BSD build [open_l2_socket] does not look
    for the channel: called twice for [eth0], it opens the device
    [/dev/bpf0] (descriptor 3) the first time and the device [/dev/bpf1]
    (descriptor 4) the second time, the pool then holds descriptor 4 alone,
    and descriptor 3 is never closed. *)
Theorem open_l2_socket_bsd_opens_again :
  let os0 := scripted_os [3; 0; 0; 0; -1; 4; 0; 0; 0]
               [0; 0; 0; 4096; 0; 0; 0; 0; 4096] [] [] [] in
  let first := open_l2_socket bsd_build 4 eth0 sender0 os0 in
  let second := open_l2_socket bsd_build 4 eth0 (sender_after first) (os_after first) in
  outcome first = Ok tt /\
  channel bsd_build (sender_after first) ETHER_SOCKET eth0 = Some 3 /\
  outcome second = Ok tt /\
  channel bsd_build (sender_after second) ETHER_SOCKET eth0 = Some 4 /\
  calls_since (os_after first) (os_after second)
  = [c_open_bpf 0; c_open_bpf 1; c_ioctl 4 (BIOCSETIF (iface_name eth0));
     c_ioctl 4 BIOCIMMEDIATE; c_ioctl 4 BIOCGBLEN] /\
  (c_close 3 ∉ trace (os_after second)) /\
  ~ open_idempotent (open_l2_socket bsd_build 4 eth0) sender0 os0.
Proof.
  cbv zeta. repeat (split; [vm_compute; reflexivity|]). split.
  - vm_compute. intros Hin. repeat (apply elem_of_cons in Hin as [Hin|Hin]; [discriminate|]).
    inversion Hin.
  - intros Hidem.
    specialize (Hidem _ _ eq_refl
      (os_after (open_l2_socket bsd_build 4 eth0 sender0
         (scripted_os [3; 0; 0; 0; -1; 4; 0; 0; 0]
            [0; 0; 0; 4096; 0; 0; 0; 0; 4096] [] [] [])))).
    apply (f_equal (fun r => trace (os_after r))) in Hidem.
    vm_compute in Hidem. discriminate.
Qed.

End OpenChannels.

(** ** Obtaining the link-layer channel *)

Section ObtainChannel.

Lemma log_log c1 c2 os : log c2 (log c1 os) = logs [c1; c2] os.
Proof. unfold logs, log. simpl. rewrite <- app_assoc. reflexivity. Qed.

Lemma log_log_log c1 c2 c3 os :
  log c3 (log c2 (log c1 os)) = logs [c1; c2; c3] os.
Proof. unfold logs, log. simpl. rewrite <- !app_assoc. reflexivity. Qed.

Lemma tick_log c os : tick (log c os) = S (tick os).
Proof. unfold tick, log. cbn [trace]. rewrite length_app. simpl. lia. Qed.

Lemma logs_cons c cs os : logs (c :: cs) os = logs cs (log c os).
Proof. rewrite log_logs, logs_logs. reflexivity. Qed.

Lemma os_ret_logs cs os : os_ret (logs cs os) = os_ret os.
Proof. reflexivity. Qed.

Lemma os_out_logs cs os : os_out (logs cs os) = os_out os.
Proof. reflexivity. Qed.

Lemma probe_bpf_sender fuel i s os :
  sender_after (probe_bpf fuel i s os) = s.
Proof.
  revert i os. induction fuel as [|fuel IH]; intros i os; [reflexivity|].
  simpl. run_m. destruct (wrap_int (os_ret os (tick os)) =? -1);
    [apply IH|reflexivity].
Qed.

(** The probing loop started at device [i], with [k] busy devices ahead of
    the first free one. *)
Lemma probe_bpf_from (k : nat) :
  forall (fuel : nat) (i : Z) (s : PacketSender) (os : OS),
    (k < fuel)%nat -> 0 <= i -> i + Z.of_nat k <= INT_MAX ->
    (forall j, (j < k)%nat -> wrap_int (os_ret os (tick os + j)%nat) = -1) ->
    wrap_int (os_ret os (tick os + k)%nat) <> -1 ->
    probe_bpf fuel i s os
    = (Ok (wrap_int (os_ret os (tick os + k)%nat)), s,
       logs (map (fun j => c_open_bpf (i + Z.of_nat j)) (seq 0 (S k))) os).
Proof.
  induction k as [|k IH]; intros fuel i s os Hfuel Hi Hmax Hbusy Hfree.
  - destruct fuel as [|fuel]; [lia|]. simpl. run_m.
    rewrite Nat.add_0_r in Hfree |- *.
    destruct (Z.eqb_spec (wrap_int (os_ret os (tick os))) (-1)) as [|_];
      [contradiction|].
    rewrite Z.add_0_r, log_logs. reflexivity.
  - destruct fuel as [|fuel]; [lia|].
    change (probe_bpf (S fuel) i s os)
      with ((sock <- sys (sys_int (c_open_bpf i)) ;;
             if sock =? -1 then probe_bpf fuel (wrap_int (i + 1)) else ret sock)%sender
              s os).
    run_m. pose proof (Hbusy 0%nat ltac:(lia)) as H0.
    rewrite Nat.add_0_r in H0. rewrite H0. cbn [Z.eqb Pos.eqb].
    change (-1 =? -1) with true. cbv iota.
    rewrite wrap_int_small by (unfold INT_MIN, INT_MAX in *; lia).
    rewrite (IH fuel (i + 1) s (log (c_open_bpf i) os)); try lia.
    + rewrite tick_log. cbn [os_ret log].
      replace (S (tick os) + k)%nat with (tick os + S k)%nat by lia.
      rewrite <- logs_cons. do 2 f_equal.
      change (seq 0 (S (S k))) with (0%nat :: seq 1 (S k)).
      cbn [map]. f_equal; [f_equal; lia|].
      rewrite <- seq_shift, map_map. apply map_ext. intros j. f_equal. lia.
    + intros j Hj. rewrite tick_log. cbn [os_ret log].
      replace (S (tick os) + j)%nat with (tick os + S j)%nat by lia.
      apply Hbusy. lia.
    + rewrite tick_log. cbn [os_ret log].
      replace (S (tick os) + k)%nat with (tick os + S k)%nat by lia. exact Hfree.
Qed.

(** [open_l2_socket] on BSD, once the probing has found a device. *)
Lemma open_l2_socket_bsd_after_probe b fuel iface s os sock s' os' :
  pcap_sendpacket b = false -> bsd b = true ->
  probe_bpf fuel 0 s os = (Ok sock, s', os') -> sock <> -1 ->
  open_l2_socket b fuel iface s os
  = if wrap_int (os_ret os' (tick os')) <? 0 then
      (Throw socket_open_error, s',
       logs [c_ioctl sock (BIOCSETIF (iface_name iface)); c_close sock] os')
    else if wrap_int (os_ret os' (S (tick os'))) <? 0 then
      (Throw socket_open_error, s',
       logs [c_ioctl sock (BIOCSETIF (iface_name iface));
             c_ioctl sock BIOCIMMEDIATE] os')
    else if wrap_int (os_ret os' (S (S (tick os')))) <? 0 then
      (Throw socket_open_error, s',
       logs [c_ioctl sock (BIOCSETIF (iface_name iface));
             c_ioctl sock BIOCIMMEDIATE; c_ioctl sock BIOCGBLEN] os')
    else
      (Ok tt,
       set_ether_socket_bsd_
         (<[iface_id iface := sock]> (ether_socket_bsd_ s'))
         (set_buffer_size_ (os_out os' (S (S (tick os')))) s'),
       logs [c_ioctl sock (BIOCSETIF (iface_name iface));
             c_ioctl sock BIOCIMMEDIATE; c_ioctl sock BIOCGBLEN] os').
Proof.
  intros Hpcap Hbsd Hprobe Hsock. unfold open_l2_socket. rewrite Hpcap, Hbsd.
  rewrite (bind_ok _ _ _ _ _ _ _ Hprobe).
  destruct (Z.eqb_spec sock (-1)) as [|_]; [contradiction|].
  run_m. destruct (wrap_int (os_ret os' (tick os')) <? 0).
  { rewrite log_log. reflexivity. }
  rewrite !tick_log. cbn [os_ret os_out log].
  destruct (wrap_int (os_ret os' (S (tick os'))) <? 0).
  { rewrite log_log. reflexivity. }
  rewrite !tick_log. cbn [os_ret os_out log].
  destruct (wrap_int (os_ret os' (S (S (tick os')))) <? 0);
    rewrite log_log_log; reflexivity.
Qed.

(** [ether_socket_[id]] for a key the map holds. *)
Lemma ether_socket_bsd_at_known id s os sock :
  ether_socket_bsd_ s !! id = Some sock ->
  ether_socket_bsd_at id s os = (Ok sock, s, os).
Proof. intros H. unfold ether_socket_bsd_at. run_m. rewrite H. reflexivity. Qed.

Lemma ether_socket_bsd_at_returns id s os :
  outcome (ether_socket_bsd_at id s os) <> Diverge.
Proof.
  unfold ether_socket_bsd_at. run_m.
  destruct (ether_socket_bsd_ s !! id); discriminate.
Qed.

(** [get_ether_socket], by what [ether_socket_initialized] answers. *)
Lemma get_ether_socket_initialized b fuel iface s os :
  ether_socket_initialized b s iface = true ->
  get_ether_socket b fuel iface s os
  = (if bsd b then ether_socket_bsd_at (iface_id iface) else this ether_socket_) s os.
Proof. intros H. unfold get_ether_socket. run_m. rewrite H. reflexivity. Qed.

Lemma get_ether_socket_opening b fuel iface s os :
  ether_socket_initialized b s iface = false ->
  get_ether_socket b fuel iface s os
  = match open_l2_socket b fuel iface s os with
    | (Ok _, s1, os1) =>
        (if bsd b then ether_socket_bsd_at (iface_id iface) else this ether_socket_)
          s1 os1
    | (Throw e, s1, os1) => (Throw e, s1, os1)
    | (Diverge, s1, os1) => (Diverge, s1, os1)
    end.
Proof.
  intros H. unfold get_ether_socket. unfold bind at 1, this at 1. rewrite H.
  unfold bind at 1.
  destruct (open_l2_socket b fuel iface s os) as [[[[]|e|] s1] os1]; reflexivity.
Qed.

(** A successful [open_l2_socket] on BSD leaves the interface with an entry
    in the map. *)
Lemma open_l2_socket_bsd_ok b fuel iface s os s1 os1 :
  pcap_sendpacket b = false -> bsd b = true ->
  open_l2_socket b fuel iface s os = (Ok tt, s1, os1) ->
  is_Some (ether_socket_bsd_ s1 !! iface_id iface).
Proof.
  intros Hpcap Hbsd Hopen.
  destruct (probe_bpf fuel 0 s os) as [[[sock|e|] s'] os'] eqn:Hprobe.
  - destruct (Z.eq_dec sock (-1)) as [->|Hsock].
    { unfold open_l2_socket in Hopen. rewrite Hpcap, Hbsd in Hopen.
      rewrite (bind_ok _ _ _ _ _ _ _ Hprobe) in Hopen. discriminate Hopen. }
    rewrite (open_l2_socket_bsd_after_probe b fuel iface s os sock s' os'
               Hpcap Hbsd Hprobe Hsock) in Hopen.
    repeat match type of Hopen with
           | (if ?c then _ else _) = _ => destruct c; try discriminate
           end.
    injection Hopen as <- _. cbn. rewrite lookup_insert_eq. eauto.
  - unfold open_l2_socket in Hopen. rewrite Hpcap, Hbsd in Hopen.
    unfold bind at 1 in Hopen. rewrite Hprobe in Hopen. discriminate Hopen.
  - unfold open_l2_socket in Hopen. rewrite Hpcap, Hbsd in Hopen.
    unfold bind at 1 in Hopen. rewrite Hprobe in Hopen. discriminate Hopen.
Qed.

(** After a successful [get_ether_socket] the descriptor returned is the
    pool's link-layer channel for the interface. *)
Lemma get_ether_socket_channel b fuel iface s os sock s1 os1 :
  pcap_sendpacket b = false ->
  get_ether_socket b fuel iface s os = (Ok sock, s1, os1) ->
  channel b s1 ETHER_SOCKET iface = Some sock.
Proof.
  intros Hpcap. unfold channel. rewrite Hpcap.
  destruct (decide (ETHER_SOCKET = ETHER_SOCKET)) as [_|]; [|contradiction].
  destruct (ether_socket_initialized b s iface) eqn:Hready.
  - rewrite (get_ether_socket_initialized b fuel iface s os Hready).
    unfold ether_socket_initialized in Hready. destruct (bsd b).
    + apply bool_decide_eq_true_1 in Hready as [v Hv].
      rewrite (ether_socket_bsd_at_known _ s os v Hv). intros [= <- <- _]. exact Hv.
    + unfold this. intros [= <- <- _]. apply negb_true_iff in Hready.
      rewrite Hready. reflexivity.
  - rewrite (get_ether_socket_opening b fuel iface s os Hready).
    destruct (open_l2_socket b fuel iface s os) as [[[[]|e|] s2] os2] eqn:Hopen;
      try discriminate.
    destruct (bsd b) eqn:Hbsd.
    + destruct (open_l2_socket_bsd_ok b fuel iface s os s2 os2 Hpcap Hbsd Hopen)
        as [v Hv].
      rewrite (ether_socket_bsd_at_known _ s2 os2 v Hv). intros [= <- <- _]. exact Hv.
    + unfold this. intros [= <- <- _].
      unfold ether_socket_initialized in Hready. rewrite Hbsd in Hready.
      apply negb_false_iff, Z.eqb_eq in Hready.
      revert Hopen. unfold open_l2_socket. rewrite Hpcap, Hbsd. run_m.
      rewrite Hready. change (INVALID_RAW_SOCKET =? INVALID_RAW_SOCKET) with true.
      cbv beta iota zeta.
      destruct (Z.eqb_spec (wrap_int (os_ret os (tick os))) (-1)) as [|Hfd];
        [discriminate|].
      intros [= <- _]. cbn.
      destruct (Z.eqb_spec (wrap_int (os_ret os (tick os))) INVALID_RAW_SOCKET) as [|_];
        [contradiction|reflexivity].
Qed.

(** With the channel in the pool, [get_ether_socket] hands it out and does
    nothing else. *)
Lemma get_ether_socket_ready b fuel iface s os sock :
  pcap_sendpacket b = false ->
  channel b s ETHER_SOCKET iface = Some sock ->
  get_ether_socket b fuel iface s os = (Ok sock, s, os).
Proof.
  intros Hpcap. unfold channel. rewrite Hpcap.
  destruct (decide (ETHER_SOCKET = ETHER_SOCKET)) as [_|]; [|contradiction].
  destruct (bsd b) eqn:Hbsd.
  - intros Hv. rewrite get_ether_socket_initialized.
    + rewrite Hbsd. apply ether_socket_bsd_at_known, Hv.
    + unfold ether_socket_initialized. rewrite Hbsd.
      apply bool_decide_eq_true_2. eauto.
  - destruct (Z.eqb_spec (ether_socket_ s) INVALID_RAW_SOCKET) as [|Hopen];
      [discriminate|]. intros [= <-]. rewrite get_ether_socket_initialized.
    + rewrite Hbsd. reflexivity.
    + unfold ether_socket_initialized. rewrite Hbsd.
      apply negb_true_iff, Z.eqb_neq, Hopen.
Qed.

(** [get_ether_socket] returns, with the channel or with an error, on the
    build with the one raw socket always and on BSD when the probing comes
    to a device that opens. *)
Lemma get_ether_socket_returns b fuel iface s os :
  pcap_sendpacket b = false -> device_found b fuel iface s os ->
  outcome (get_ether_socket b fuel iface s os) <> Diverge.
Proof.
  intros Hpcap Hfound.
  destruct (ether_socket_initialized b s iface) eqn:Hready.
  - rewrite (get_ether_socket_initialized b fuel iface s os Hready).
    destruct (bsd b); [apply ether_socket_bsd_at_returns|discriminate].
  - rewrite (get_ether_socket_opening b fuel iface s os Hready).
    destruct (bsd b) eqn:Hbsd.
    + unfold ether_socket_initialized in Hready. rewrite Hbsd in Hready.
      assert (ether_socket_bsd_ s !! iface_id iface = None) as Hnone.
      { destruct (ether_socket_bsd_ s !! iface_id iface) eqn:Hv; [|reflexivity].
        rewrite bool_decide_eq_true_2 in Hready by eauto. discriminate. }
      destruct (Hfound Hbsd Hnone) as (k & Hk & Hmax & Hbusy & Hfree).
      pose proof (probe_bpf_from k fuel 0 s os Hk ltac:(lia) ltac:(lia) Hbusy Hfree)
        as Hprobe.
      rewrite (open_l2_socket_bsd_after_probe b fuel iface s os _ s _
                 Hpcap Hbsd Hprobe Hfree).
      repeat match goal with
             | |- context [if ?c then _ else _] => destruct c
             end; try discriminate.
      apply ether_socket_bsd_at_returns.
    + unfold open_l2_socket. rewrite Hpcap, Hbsd. run_m.
      destruct (ether_socket_ s =? INVALID_RAW_SOCKET); [|discriminate].
      destruct (wrap_int (os_ret os (tick os)) =? -1); discriminate.
Qed.

End ObtainChannel.

(** ** Link-layer send *)

Section LinkLayerSend.

Variable b : Build.
Variable fuel : nat.
Variable pdu : PDU.
Variable iface : NetworkInterface.

(** C8, as the code has it.  On a build that sends through an OS descriptor
    (no pcap transport), [send_l2] first obtains the link-layer channel,
    opening it on demand.  Whenever that raises an error, the error is a
    [socket_open_error] and is the outcome of the send, whatever the
    serialization, and no write is made; on the build with the one raw
    socket a refused [socket] is such an error.  The send returns, normally
    or with an error, on that build always and on BSD when the probing comes
    to a capture device that opens.  Once the channel is there, an empty
    serialization ends the call, with no write made and no error raised, and
    a non-empty one is written with a single call ([write] on the capture
    device, [sendto] on the raw socket), whose failure raises
    [socket_write_error]. *)
Theorem send_l2_writes_only_frames (s : PacketSender) (os : OS) :
  pcap_sendpacket b = false ->
  (forall sock s1 os1,
     get_ether_socket b fuel iface s os = (Ok sock, s1, os1) ->
     (serialize pdu = [] ->
        send_l2 b fuel pdu iface s os = (Ok tt, s1, os1) /\
        writes (calls_since os os1) = []) /\
     (serialize pdu <> [] ->
        os_after (send_l2 b fuel pdu iface s os)
        = log (if bsd b then c_write sock (serialize pdu)
               else c_sendto sock (serialize pdu)) os1 /\
        (wrap_int (os_ret os1 (tick os1)) = -1 ->
           outcome (send_l2 b fuel pdu iface s os) = Throw socket_write_error) /\
        (wrap_int (os_ret os1 (tick os1)) <> -1 ->
           outcome (send_l2 b fuel pdu iface s os) = Ok tt))) /\
  (forall e s1 os1,
     get_ether_socket b fuel iface s os = (Throw e, s1, os1) ->
     e = socket_open_error /\
     send_l2 b fuel pdu iface s os = (Throw socket_open_error, s1, os1) /\
     writes (calls_since os os1) = []) /\
  (bsd b = false -> ether_socket_ s = INVALID_RAW_SOCKET ->
   wrap_int (os_ret os (tick os)) = -1 ->
   send_l2 b fuel pdu iface s os
   = (Throw socket_open_error, s,
      log (c_socket PF_PACKET SOCK_RAW ETH_P_ALL_be) os)) /\
  (device_found b fuel iface s os ->
   outcome (get_ether_socket b fuel iface s os) <> Diverge /\
   outcome (send_l2 b fuel pdu iface s os) <> Diverge).
Proof.
  intros Hpcap.
  assert (forall r s1 os1, get_ether_socket b fuel iface s os = (r, s1, os1) ->
                           writes (calls_since os os1) = []) as Hquiet.
  { intros r s1 os1 Hsock.
    destruct (get_ether_socket_no_write b fuel iface s os) as (cs & Hcs & Hno).
    rewrite Hsock in Hcs. unfold os_after in Hcs. simpl in Hcs. subst os1.
    rewrite calls_since_logs. apply writes_none, Hno. }
  split; [|split; [|split]].
  - intros sock s1 os1 Hsock. unfold send_l2. rewrite Hpcap.
    rewrite (bind_ok _ _ _ _ _ _ _ Hsock). split.
    + intros Hempty. rewrite Hempty. split; [reflexivity|].
      eapply Hquiet, Hsock.
    + intros Hfull.
      rewrite bool_decide_eq_false_2 by assumption. simpl. run_m.
      unfold outcome, os_after.
      destruct (Z.eqb_spec (wrap_int (os_ret os1 (tick os1))) (-1)) as [Hfail|Hok];
        simpl; (split; [reflexivity|]); split; intros ?;
        first [reflexivity | contradiction].
  - intros e s1 os1 Hsock.
    pose proof (get_ether_socket_throws b fuel iface Hpcap _ _ _ _ _ Hsock) as ->.
    split; [reflexivity|]. split; [|eapply Hquiet, Hsock].
    unfold send_l2. rewrite Hpcap. apply bind_throw, Hsock.
  - intros Hbsd Hclosed Hfail.
    assert (get_ether_socket b fuel iface s os
            = (Throw socket_open_error, s,
               log (c_socket PF_PACKET SOCK_RAW ETH_P_ALL_be) os)) as Hsock.
    { rewrite get_ether_socket_opening
        by (unfold ether_socket_initialized; rewrite Hbsd, Hclosed; reflexivity).
      unfold open_l2_socket. rewrite Hpcap, Hbsd. run_m.
      rewrite Hclosed. change (INVALID_RAW_SOCKET =? INVALID_RAW_SOCKET) with true.
      cbv beta iota zeta. rewrite Hfail. change (-1 =? -1) with true. cbv iota.
      destruct s; cbn in *; subst; reflexivity. }
    unfold send_l2. rewrite Hpcap. apply bind_throw, Hsock.
  - intros Hfound.
    pose proof (get_ether_socket_returns b fuel iface s os Hpcap Hfound) as Hret.
    split; [exact Hret|].
    unfold send_l2. rewrite Hpcap. unfold bind at 1.
    destruct (get_ether_socket b fuel iface s os) as [[[sock|e|] s1] os1];
      [|discriminate|exfalso; apply Hret; reflexivity].
    destruct (negb (bool_decide (serialize pdu = []))); [|discriminate].
    run_m. destruct (wrap_int (os_ret os1 (tick os1)) =? -1); discriminate.
Qed.

End LinkLayerSend.

Lemma send_l2_writes_only_frames_witness :
  pcap_sendpacket linux_build = false /\
  get_ether_socket linux_build 0 eth0 sender0 (scripted_os [6] [] [] [] [])
  = (Ok 6, set_ether_socket_ 6 sender0,
     log (c_socket PF_PACKET SOCK_RAW ETH_P_ALL_be) (scripted_os [6] [] [] [] [])) /\
  send_l2 linux_build 0 empty_pdu eth0 sender0 (scripted_os [6] [] [] [] [])
  = (Ok tt, set_ether_socket_ 6 sender0,
     log (c_socket PF_PACKET SOCK_RAW ETH_P_ALL_be) (scripted_os [6] [] [] [] [])) /\
  device_found bsd_build 3 eth0 sender0 (scripted_os [-1; 3; 0; -1] [] [] [] []) /\
  outcome (send_l2 bsd_build 3 empty_pdu eth0 sender0
             (scripted_os [-1; 3; 0; -1] [] [] [] [])) <> Diverge.
Proof.
  split; [reflexivity|]. split; [reflexivity|]. split.
  - apply (proj1 (send_l2_writes_only_frames linux_build 0 empty_pdu eth0 sender0
                    (scripted_os [6] [] [] [] []) eq_refl) 6);
      reflexivity.
  - assert (device_found bsd_build 3 eth0 sender0
              (scripted_os [-1; 3; 0; -1] [] [] [] [])) as Hfound.
    { intros _ _. exists 1%nat. split; [lia|]. split; [vm_compute; discriminate|].
      split; [|vm_compute; discriminate].
      intros j Hj. destruct j as [|j]; [reflexivity|lia]. }
    split; [exact Hfound|].
    apply (proj2 (proj2 (proj2 (send_l2_writes_only_frames bsd_build 3 empty_pdu eth0
                                  sender0 (scripted_os [-1; 3; 0; -1] [] [] [] [])
                                  eq_refl))) Hfound).
Defined.

(** C8, as stated, fails in two places.  On the default build the channel is
    opened before the serialization is looked at, so with no channel open yet
    and the system refusing the socket an empty PDU raises
    [socket_open_error].  On a build with the pcap transport the frame is
    handed to [pcap_sendpacket] whatever its length. *)
Lemma send_l2_empty_is_not_silent :
  send_l2 linux_build 0 empty_pdu eth0 sender0 (scripted_os [-1] [] [] [] [])
  = (Throw socket_open_error, sender0,
     log (c_socket PF_PACKET SOCK_RAW ETH_P_ALL_be) (scripted_os [-1] [] [] [] [])) /\
  ~ empty_send_is_silent linux_build 0 empty_pdu eth0 sender0
      (scripted_os [-1] [] [] [] []) /\
  writes (trace (os_after (send_l2 pcap_build 0 empty_pdu eth0 sender0
                             (scripted_os [7; 0; 0; 0] [] [] [] []))))
  = [c_pcap_sendpacket 7 []] /\
  ~ empty_send_is_silent pcap_build 0 empty_pdu eth0 sender0
      (scripted_os [7; 0; 0; 0] [] [] [] []).
Proof.
  split; [reflexivity|]. split.
  - intros Hsilent. destruct (Hsilent eq_refl) as [Hok _].
    vm_compute in Hok. discriminate.
  - split; [reflexivity|].
    intros Hsilent. destruct (Hsilent eq_refl) as [_ Hw].
    vm_compute in Hw. discriminate.
Qed.

(** ** Receive-match loop: the calls of one iteration *)

Section LoopCalls.

Variable b : Build.
Variable abi : BpfAbi.
Variable pdu : PDU.
Variable wfuel : nat.
Variable cap : Z.

Lemma select_timeouts_app cs1 cs2 :
  select_timeouts (cs1 ++ cs2) = select_timeouts cs1 ++ select_timeouts cs2.
Proof. apply omap_app. Qed.

Lemma clock_sane_logs cs os : clock_sane os -> clock_sane (logs cs os).
Proof. intros H. exact H. Qed.

Lemma bpf_walk_calls fuel buf size ptr os :
  exists cs, (bpf_walk abi pdu fuel buf size ptr os).2 = logs cs os /\
             select_timeouts cs = [].
Proof.
  revert ptr os. induction fuel as [|fuel IH]; intros ptr os; simpl.
  - exists []. rewrite logs_nil. split; reflexivity.
  - destruct (ptr <? size).
    + unfold test_candidate.
      destruct (matches_response pdu _ _).
      * eexists [_]. split; reflexivity.
      * match goal with |- context [bpf_walk _ _ _ _ _ ?p ?o] =>
          destruct (IH p o) as (cs & E & Hs) end.
        rewrite E, log_logs, logs_logs. eexists. split; [reflexivity|].
        rewrite select_timeouts_app, Hs. reflexivity.
    + exists []. rewrite logs_nil. split; reflexivity.
Qed.

Lemma recv_one_calls fd buf os :
  exists cs, (recv_one b abi pdu wfuel cap fd buf os).2 = logs cs os /\
             select_timeouts cs = [].
Proof.
  unfold recv_one. destruct (bsd b).
  - destruct (deliver _ cap buf) as [size buf1].
    destruct (bpf_walk_calls wfuel buf1 size 0 (log (c_read fd) os)) as (cs & E & Hs).
    destruct (bpf_walk _ _ _ _ _ _ _) as [r os2]. simpl in *. subst os2.
    rewrite log_logs, logs_logs. eexists. split; [reflexivity|].
    rewrite select_timeouts_app, Hs. reflexivity.
  - destruct (deliver _ cap buf) as [size buf1]. unfold test_candidate.
    destruct (matches_response pdu buf1 size); simpl;
      rewrite !log_logs, logs_logs; eexists; split; reflexivity.
Qed.

Lemma recv_ready_calls readfds sockets buf os :
  exists cs, (recv_ready b abi pdu wfuel cap readfds sockets buf os).2 = logs cs os /\
             select_timeouts cs = [].
Proof.
  revert buf os. induction sockets as [|fd rest IH]; intros buf os; simpl.
  - exists []. rewrite logs_nil. split; reflexivity.
  - destruct (bool_decide (fd ∈ readfds)); [|apply IH].
    destruct (recv_one_calls fd buf os) as (cs & E & Hs).
    destruct (recv_one b abi pdu wfuel cap fd buf os) as [[r buf1] os1].
    simpl in E. subst os1.
    destruct r as [[reply|]|].
    + exists cs. split; [reflexivity|assumption].
    + destruct (IH buf1 (logs cs os)) as (cs' & E' & Hs').
      rewrite E', logs_logs. eexists. split; [reflexivity|].
      rewrite select_timeouts_app, Hs, Hs'. reflexivity.
    + exists cs. split; [reflexivity|assumption].
Qed.

(** An iteration waits once, at its start, with the relative timeout of the
    loop state. *)
Lemma wait_and_read_calls sockets st os :
  exists cs,
    (wait_and_read b abi pdu wfuel cap sockets st os).2
    = logs (c_select (max_fd sockets + 1) sockets (timeout st) :: cs) os /\
    select_timeouts cs = [].
Proof.
  unfold wait_and_read, sys_int.
  destruct (wrap_int (os_ret os (tick os)) =? -1).
  { exists []. split; reflexivity. }
  destruct (0 <? wrap_int (os_ret os (tick os))).
  - match goal with |- context [recv_ready _ _ _ _ _ ?r ?s ?bf ?o] =>
      destruct (recv_ready_calls r s bf o) as (cs & E & Hs);
      destruct (recv_ready b abi pdu wfuel cap r s bf o) as [[res buf1] os2] end.
    simpl in E. subst os2. rewrite log_logs, logs_logs.
    exists cs. destruct res as [[reply|]|]; split; solve [reflexivity|assumption].
  - exists []. split; reflexivity.
Qed.

End LoopCalls.

(** ** Deadline arithmetic inside the loop *)

Section Remaining.

(** Expiry is the deadline being before the current time. *)
Lemma subtract_expired_lt x y :
  normalized x -> normalized y -> clock_range x -> clock_range y ->
  subtract_expired x y = true <-> timeval_lt x y.
Proof.
  intros Hx Hy Hcx Hcy. unfold subtract_expired.
  destruct (Z.lt_ge_cases (tv_usec x) (tv_usec y)) as [Hlt|Hge].
  - rewrite timeval_subtract_borrow_one by assumption. cbn [snd].
    unfold timeval_lt. rewrite Z.ltb_lt. lia.
  - rewrite timeval_subtract_no_borrow by assumption. cbn [snd].
    unfold timeval_lt. rewrite Z.ltb_lt. lia.
Qed.

(** A deadline that is exactly now is not expired, and zero time remains. *)
Lemma timeval_subtract_on_time x :
  normalized x -> clock_range x ->
  timeval_subtract x x = (Timeval 0 0, x, false).
Proof.
  intros Hx Hcx. rewrite timeval_subtract_no_borrow by (assumption || lia).
  rewrite !Z.sub_diag, Z.ltb_irrefl. reflexivity.
Qed.

(** The microsecond field of the deadline is the configured [uint32_t] and
    need not be normalized; the re-normalizing branch and the [int] product in
    it still leave a result without a negative field whenever expiry is not
    reported. *)
Lemma timeval_subtract_remaining x y :
  deadline_range x -> 0 <= tv_usec x <= UINT32_MAX ->
  normalized y -> clock_range y ->
  subtract_expired x y = false ->
  0 <= tv_sec (subtract_result x y) /\ 0 <= tv_usec (subtract_result x y).
Proof.
  unfold deadline_range, UINT32_MAX, normalized, clock_range.
  unfold subtract_expired, subtract_result, timeval_subtract.
  intros Hdx Hux Hy Hcy. cbv zeta.
  destruct (Z.ltb_spec (tv_usec x) (tv_usec y)) as [Hlt|Hge].
  - (* carry of one second *)
    rewrite !(wrap_long_small (tv_usec y - tv_usec x)) by long_range.
    rewrite !quot_million_small by lia. cbn [tv_sec tv_usec].
    change (wrap_int (wrap_long (0 + 1))) with 1.
    change (wrap_int (1000000 * 1)) with 1000000.
    rewrite !(wrap_long_small (tv_usec y - 1000000)) by long_range.
    rewrite !(wrap_long_small (tv_sec y + 1)) by long_range.
    rewrite !(wrap_long_small (tv_usec x - (tv_usec y - 1000000))) by long_range.
    destruct (Z.ltb_spec 1000000 (tv_usec x - (tv_usec y - 1000000))) as [Hgt|_];
      [lia|].
    cbn [tv_sec tv_usec fst snd].
    rewrite !wrap_long_small by long_range.
    rewrite Z.ltb_ge. lia.
  - rewrite !(wrap_long_small (tv_usec x - tv_usec y)) by long_range.
    destruct (Z.ltb_spec 1000000 (tv_usec x - tv_usec y)) as [Hgt|Hle].
    + (* whole seconds in the microsecond field *)
      set (d := tv_usec x - tv_usec y) in *.
      assert (0 <= d ÷ 1000000 <= 4294 /\ 1000000 * (d ÷ 1000000) <= d) as [Hq Hqd].
      { pose proof (Z.quot_rem' d 1000000) as Hd.
        pose proof (Z.rem_bound_pos d 1000000 ltac:(lia) ltac:(lia)) as Hr.
        pose proof (Z.quot_pos d 1000000 ltac:(lia) ltac:(lia)). lia. }
      rewrite (wrap_int_small (d ÷ 1000000)) by long_range.
      pose proof (wrap_int_le (1000000 * (d ÷ 1000000)) ltac:(lia)) as Hm.
      pose proof (wrap_int_range (1000000 * (d ÷ 1000000))) as Hmr.
      unfold INT_MIN, INT_MAX in Hmr.
      cbn [tv_sec tv_usec fst snd].
      rewrite (wrap_long_small (tv_sec y - d ÷ 1000000)) by long_range.
      rewrite (wrap_long_small (tv_usec y + _)) by long_range.
      rewrite !wrap_long_small by long_range.
      rewrite Z.ltb_ge. subst d. lia.
    + cbn [tv_sec tv_usec fst snd].
      rewrite !wrap_long_small by long_range.
      rewrite Z.ltb_ge. lia.
Qed.

(** With a deadline whose microsecond field is any non-negative [int],
    normalized or not, the value [*y] is left with, the result and the flag
    are these. *)
Lemma timeval_subtract_exact x y :
  deadline_range x -> 0 <= tv_usec x <= INT_MAX ->
  normalized y -> clock_range y ->
  micros (subtract_result x y) = micros x - micros y /\
  0 <= tv_usec (subtract_result x y) <= 1000000 /\
  micros (timeval_subtract x y).1.2 = micros y /\
  subtract_expired x y = (tv_sec (subtract_result x y) <? 0).
Proof.
  unfold deadline_range, INT_MAX, normalized, clock_range, micros.
  unfold subtract_expired, subtract_result, timeval_subtract.
  intros Hdx Hux Hy Hcy. cbv zeta.
  destruct (Z.ltb_spec (tv_usec x) (tv_usec y)) as [Hlt|Hge].
  - rewrite !(wrap_long_small (tv_usec y - tv_usec x)) by long_range.
    rewrite !quot_million_small by lia. cbn [tv_sec tv_usec].
    change (wrap_int (wrap_long (0 + 1))) with 1.
    change (wrap_int (1000000 * 1)) with 1000000.
    rewrite !(wrap_long_small (tv_usec y - 1000000)) by long_range.
    rewrite !(wrap_long_small (tv_sec y + 1)) by long_range.
    rewrite !(wrap_long_small (tv_usec x - (tv_usec y - 1000000))) by long_range.
    destruct (Z.ltb_spec 1000000 (tv_usec x - (tv_usec y - 1000000))) as [Hgt|_];
      [lia|].
    cbn [tv_sec tv_usec fst snd].
    rewrite !wrap_long_small by long_range.
    repeat split; lia.
  - rewrite !(wrap_long_small (tv_usec x - tv_usec y)) by long_range.
    destruct (Z.ltb_spec 1000000 (tv_usec x - tv_usec y)) as [Hgt|Hle].
    + set (d := tv_usec x - tv_usec y) in *.
      assert (0 <= d ÷ 1000000 <= 2147 /\ 1000000 * (d ÷ 1000000) <= d /\
              d - 1000000 * (d ÷ 1000000) < 1000000) as (Hq & Hqd & Hr).
      { pose proof (Z.quot_rem' d 1000000) as Hd.
        pose proof (Z.rem_bound_pos d 1000000 ltac:(lia) ltac:(lia)) as Hrem.
        pose proof (Z.quot_pos d 1000000 ltac:(lia) ltac:(lia)). lia. }
      rewrite (wrap_int_small (d ÷ 1000000)) by long_range.
      rewrite (wrap_int_small (1000000 * (d ÷ 1000000))) by long_range.
      cbn [tv_sec tv_usec fst snd].
      rewrite (wrap_long_small (tv_sec y - d ÷ 1000000)) by long_range.
      rewrite (wrap_long_small (tv_usec y + _)) by long_range.
      rewrite !wrap_long_small by long_range.
      repeat split; subst d; lia.
    + cbn [tv_sec tv_usec fst snd].
      rewrite !wrap_long_small by long_range.
      repeat split; lia.
Qed.

(** Two normalized values that count the same microseconds are the same
    value. *)
Lemma micros_normalized_inj x y :
  normalized x -> normalized y -> micros x = micros y -> x = y.
Proof.
  unfold normalized, micros. intros Hx Hy H. destruct x as [xs xu], y as [ys yu].
  cbn in *. assert (xs = ys) by lia. f_equal; lia.
Qed.

End Remaining.

(** ** Receive-match loop: waiting and expiry *)

Section LoopDeadline.

Variable b : Build.
Variable abi : BpfAbi.
Variable pdu : PDU.
Variable wfuel : nat.
Variable cap : Z.
Variable sockets : list Z.

Lemma check_deadline_expired st buffer1 os :
  subtract_expired (end_time st) (os_now os (tick os)) = true ->
  check_deadline st buffer1 os = (Return None, log c_gettimeofday os).
Proof.
  unfold check_deadline, subtract_expired.
  destruct (timeval_subtract _ _) as [[diff y2] expired]. simpl.
  intros ->. reflexivity.
Qed.

Lemma check_deadline_remaining st buffer1 os :
  subtract_expired (end_time st) (os_now os (tick os)) = false ->
  check_deadline st buffer1 os
  = (Continue {| timeout := subtract_result (end_time st) (os_now os (tick os));
                 end_time := end_time st; buffer := buffer1 |},
     log c_gettimeofday os).
Proof.
  unfold check_deadline, subtract_expired, subtract_result.
  destruct (timeval_subtract _ _) as [[diff y2] expired]. simpl.
  intros ->. reflexivity.
Qed.

Lemma loop_unfold fuel st os :
  loop b abi pdu wfuel cap sockets (S fuel) st os
  = match loop_body b abi pdu wfuel cap sockets st os with
    | (Return r, os') => (Done r, os')
    | (Continue st', os') => loop b abi pdu wfuel cap sockets fuel st' os'
    | (Hang, os') => (Spin, os')
    end.
Proof. reflexivity. Qed.

(** The invariant of the loop: the relative timeout has no negative field,
    so no [select] of the run is given one. *)
Lemma loop_never_waits_negative fuel st os :
  clock_sane os ->
  deadline_range (end_time st) -> 0 <= tv_usec (end_time st) <= UINT32_MAX ->
  0 <= tv_sec (timeout st) -> 0 <= tv_usec (timeout st) ->
  exists cs, (loop b abi pdu wfuel cap sockets fuel st os).2 = logs cs os /\
             never_waits_negative cs.
Proof.
  revert st os. induction fuel as [|fuel IH]; intros st os Hclock Hend Hendu Hs Hu.
  { exists []. simpl. rewrite logs_nil. split; [reflexivity|constructor]. }
  rewrite loop_unfold. unfold loop_body.
  destruct (wait_and_read_calls b abi pdu wfuel cap sockets st os) as (cs & E & Hsel).
  assert (never_waits_negative
            (c_select (max_fd sockets + 1) sockets (timeout st) :: cs)) as Hfirst.
  { unfold never_waits_negative. simpl. rewrite Hsel. repeat constructor; assumption. }
  destruct (wait_and_read b abi pdu wfuel cap sockets st os) as [w os1].
  simpl in E. subst os1. destruct w as [|reply|buffer1|].
  - eexists. split; [reflexivity|exact Hfirst].
  - eexists. split; [reflexivity|exact Hfirst].
  - set (os1 := logs (c_select (max_fd sockets + 1) sockets (timeout st) :: cs) os) in *.
    assert (clock_sane os1) as Hclock1 by exact Hclock.
    destruct (subtract_expired (end_time st) (os_now os1 (tick os1))) eqn:Hexp.
    + rewrite check_deadline_expired by exact Hexp.
      subst os1. rewrite log_logs, logs_logs. eexists. split; [reflexivity|].
      unfold never_waits_negative in *. rewrite select_timeouts_app. simpl.
      rewrite app_nil_r. exact Hfirst.
    + rewrite check_deadline_remaining by exact Hexp.
      destruct (Hclock1 (tick os1)) as [Hnorm Hrange].
      pose proof (timeval_subtract_remaining _ _ Hend Hendu Hnorm Hrange Hexp)
        as [Hrs Hru].
      destruct (IH {| timeout := subtract_result (end_time st) (os_now os1 (tick os1));
                      end_time := end_time st; buffer := buffer1 |}
                  (log c_gettimeofday os1)) as (cs' & E' & Hrest);
        [exact Hclock1|exact Hend|exact Hendu|exact Hrs|exact Hru|].
      rewrite E'. subst os1. rewrite log_logs, !logs_logs.
      eexists. split; [reflexivity|].
      unfold never_waits_negative in *. rewrite !select_timeouts_app. simpl.
      rewrite Hsel. simpl. constructor; [split; assumption|exact Hrest].
  - eexists. split; [reflexivity|exact Hfirst].
Qed.

(** C5.  The loop has no way to fail but to return: when [select] reports an
    error it returns no reply at once, and when, after an iteration that
    accepted nothing, [timeval_subtract] reports expiry (which it does when
    the deadline is before the current time) it returns no reply as well;
    the two returns are the same value. *)
Theorem recv_loop_failures_are_no_reply (fuel : nat) (st : LoopState) (os : OS) :
  (wrap_int (os_ret os (tick os)) = -1 ->
   loop b abi pdu wfuel cap sockets (S fuel) st os
   = (Done None, log (c_select (max_fd sockets + 1) sockets (timeout st)) os)) /\
  (forall buffer1 os1,
     wait_and_read b abi pdu wfuel cap sockets st os = (NotFound buffer1, os1) ->
     (subtract_expired (end_time st) (os_now os1 (tick os1)) = true ->
      loop b abi pdu wfuel cap sockets (S fuel) st os
      = (Done None, log c_gettimeofday os1)) /\
     (normalized (end_time st) -> clock_range (end_time st) ->
      normalized (os_now os1 (tick os1)) -> clock_range (os_now os1 (tick os1)) ->
      timeval_lt (end_time st) (os_now os1 (tick os1)) ->
      loop b abi pdu wfuel cap sockets (S fuel) st os
      = (Done None, log c_gettimeofday os1))).
Proof.
  split.
  - intros Hfail. rewrite loop_unfold. unfold loop_body, wait_and_read, sys_int.
    rewrite Hfail. reflexivity.
  - intros buffer1 os1 Hwait.
    assert (subtract_expired (end_time st) (os_now os1 (tick os1)) = true ->
            loop b abi pdu wfuel cap sockets (S fuel) st os
            = (Done None, log c_gettimeofday os1)) as Hexpired.
    { intros Hexp. rewrite loop_unfold. unfold loop_body. rewrite Hwait.
      rewrite check_deadline_expired by exact Hexp. reflexivity. }
    split; [exact Hexpired|].
    intros Hnorm Hrange Hnn Hnr Hlate.
    apply Hexpired, subtract_expired_lt; assumption.
Qed.

End LoopDeadline.

(** The whole call: the configured timeout is a pair of [uint32_t]. *)
Lemma recv_match_loop_never_waits_negative b abi pdu wfuel sockets s fuel scratch os :
  clock_sane os ->
  0 <= _timeout s <= UINT32_MAX -> 0 <= timeout_usec_ s <= UINT32_MAX ->
  never_waits_negative
    (calls_since os (recv_match_loop b abi s pdu wfuel fuel scratch sockets os).2).
Proof.
  intros Hclock Ht Hu. unfold recv_match_loop. cbv zeta.
  destruct (Hclock (tick os)) as [_ Hnow]. unfold clock_range in Hnow.
  unfold UINT32_MAX in *.
  match goal with |- context [loop _ _ _ _ ?c _ _ ?st ?os'] =>
    destruct (loop_never_waits_negative b abi pdu wfuel c sockets fuel st os')
      as (cs & E & Hcs) end;
    cbn [end_time timeout tv_sec tv_usec]; try lia.
  - exact Hclock.
  - unfold deadline_range. cbn [end_time tv_sec].
    rewrite wrap_long_small by long_range. lia.
  - unfold UINT32_MAX. lia.
  - rewrite E, log_logs, logs_logs, calls_since_logs.
    unfold never_waits_negative in *. simpl. exact Hcs.
Qed.


(** C3, as the code has it.  In every iteration of every call the relative
    timeout given to [select] has no negative field.  When, after an
    iteration that accepted nothing, the deadline is before the current time
    (the remaining time is negative), the loop returns no reply and the
    iteration's one [select] stays the last; this for a deadline whose
    microsecond field, the configured one, is within [int].  When that field
    is below 1_000_000 and the current time is the deadline itself (the
    remaining time is zero) that is not expiry: the loop goes on, and the next
    [select] is given the timeout zero. *)
Theorem select_is_never_given_negative_timeout
    (b : Build) (abi : BpfAbi) (pdu : PDU) (wfuel : nat) (sockets : list Z) :
  (forall s fuel scratch os,
     clock_sane os ->
     0 <= _timeout s <= UINT32_MAX -> 0 <= timeout_usec_ s <= UINT32_MAX ->
     never_waits_negative
       (calls_since os (recv_match_loop b abi s pdu wfuel fuel scratch sockets os).2)) /\
  (forall cap st os buffer1 os1,
     wait_and_read b abi pdu wfuel cap sockets st os = (NotFound buffer1, os1) ->
     deadline_range (end_time st) -> 0 <= tv_usec (end_time st) <= INT_MAX ->
     normalized (os_now os1 (tick os1)) -> clock_range (os_now os1 (tick os1)) ->
     (micros (end_time st) < micros (os_now os1 (tick os1)) ->
      forall fuel,
        loop b abi pdu wfuel cap sockets (S fuel) st os
        = (Done None, log c_gettimeofday os1) /\
        select_timeouts (calls_since os (log c_gettimeofday os1)) = [timeout st]) /\
     (normalized (end_time st) ->
      micros (end_time st) = micros (os_now os1 (tick os1)) ->
      loop_body b abi pdu wfuel cap sockets st os
      = (Continue {| timeout := Timeval 0 0; end_time := end_time st;
                     buffer := buffer1 |},
         log c_gettimeofday os1))).
Proof.
  split.
  - intros s fuel scratch os Hclock Ht Hu.
    apply recv_match_loop_never_waits_negative; assumption.
  - intros cap st os buffer1 os1 Hwait Hrange Husec Hnn Hnr.
    destruct (wait_and_read_calls b abi pdu wfuel cap sockets st os) as (cs & E & Hsel).
    rewrite Hwait in E. simpl in E.
    split.
    + intros Hlate fuel. rewrite loop_unfold. unfold loop_body. rewrite Hwait.
      rewrite check_deadline_expired.
      * split; [reflexivity|].
        rewrite E, log_logs, logs_logs, calls_since_logs, select_timeouts_app.
        simpl. rewrite Hsel. reflexivity.
      * destruct (timeval_subtract_exact _ _ Hrange Husec Hnn Hnr)
          as (Hdiff & Hu & _ & ->).
        apply Z.ltb_lt. unfold micros in *. lia.
    + intros Hnorm Hnow.
      pose proof (micros_normalized_inj _ _ Hnorm Hnn Hnow) as Heq.
      unfold loop_body. rewrite Hwait.
      unfold check_deadline. rewrite <- Heq.
      rewrite timeval_subtract_on_time; [reflexivity|exact Hnorm|].
      rewrite Heq. exact Hnr.
Qed.

(** C3, as stated, fails: with the two-second timeout of [sender0], a call
    that starts at second 100 and finds the clock at 102 s, 0 us after its
    first wait computes a remaining time of zero, does not return, and waits
    again with the timeout zero. *)
Lemma select_is_given_zero_timeout :
  (recv_match_loop linux_build freebsd_abi sender0 deaf_pdu 0 2 [] [5] on_time_os).1
  = Done None /\
  trace (recv_match_loop linux_build freebsd_abi sender0 deaf_pdu 0 2 [] [5] on_time_os).2
  = [c_time; c_select 6 [5] (Timeval 2 0); c_gettimeofday;
     c_select 6 [5] (Timeval 0 0); c_gettimeofday] /\
  ~ waits_only_with_time_left
      (trace (recv_match_loop linux_build freebsd_abi sender0 deaf_pdu 0 2 [] [5]
                on_time_os).2).
Proof.
  split; [vm_compute; reflexivity|]. split; [vm_compute; reflexivity|].
  intros Hall.
  assert (select_timeouts
            (trace (recv_match_loop linux_build freebsd_abi sender0 deaf_pdu 0 2 []
                      [5] on_time_os).2)
          = [Timeval 2 0; Timeval 0 0]) as Hsel by (vm_compute; reflexivity).
  unfold waits_only_with_time_left in Hall. rewrite Hsel in Hall.
  inversion Hall as [|? ? _ Hrest]. inversion Hrest as [|? ? Hzero _].
  vm_compute in Hzero. discriminate.
Qed.

(** ** Receive-match loop: the candidates of a read *)

Section Candidates.

Variable b : Build.
Variable abi : BpfAbi.
Variable pdu : PDU.
Variable cap : Z.

(** A read that returns nothing, or fails, leaves the scratch buffer as it
    was. *)
Lemma deliver_nothing reply buf :
  (deliver reply cap buf).1 <= 0 -> (deliver reply cap buf).2 = buf.
Proof.
  destruct reply as [data|]; simpl; [|reflexivity].
  intros Hlen. destruct (take (Z.to_nat cap) data); [reflexivity|].
  simpl in Hlen. lia.
Qed.

Lemma until_accepted_first spans j sp :
  spans !! j = Some sp -> accepts pdu sp = true ->
  (forall i sp', (i < j)%nat -> spans !! i = Some sp' -> accepts pdu sp' = false) ->
  List.find (accepts pdu) spans = Some sp /\
  until_accepted pdu spans = take (S j) spans.
Proof.
  revert j. induction spans as [|sp0 rest IH]; intros j Hj Hacc Hbefore.
  - discriminate.
  - destruct j as [|j]; simpl in *.
    + injection Hj as ->. rewrite Hacc. rewrite take_0. split; reflexivity.
    + rewrite (Hbefore 0%nat sp0) by (lia || reflexivity).
      destruct (IH j Hj Hacc) as [Hfind Htake].
      { intros i sp' Hi Hl. apply (Hbefore (S i) sp'); [lia|exact Hl]. }
      rewrite Hfind, Htake. split; reflexivity.
Qed.

Lemma until_accepted_none spans :
  (forall sp, sp ∈ spans -> accepts pdu sp = false) ->
  List.find (accepts pdu) spans = None /\ until_accepted pdu spans = spans.
Proof.
  induction spans as [|sp0 rest IH]; intros Hnone; simpl.
  - split; reflexivity.
  - rewrite (Hnone sp0) by (left).
    destruct IH as [Hfind Hall].
    { intros sp Hsp. apply Hnone. right. exact Hsp. }
    rewrite Hfind, Hall. split; reflexivity.
Qed.

Lemma payload_spans_length mem recs :
  length (payload_spans abi mem recs) = length recs.
Proof.
  revert mem. induction recs as [|[h c] rest IH]; intros mem; simpl;
    [reflexivity|]. rewrite IH. reflexivity.
Qed.

(** The walk over a buffer that holds the records [recs] from [ptr] on tests
    their payloads in order and stops at the first accepted one. *)
Lemma bpf_walk_records recs :
  forall fuel buf size ptr os,
    0 <= ptr ->
    holds_records abi (drop (Z.to_nat ptr) buf) (size - ptr) recs ->
    (length recs < fuel)%nat ->
    bpf_walk abi pdu fuel buf size ptr os
    = (Done (reply_of pdu <$>
               List.find (accepts pdu)
                 (payload_spans abi (drop (Z.to_nat ptr) buf) recs)),
       logs (map tested
               (until_accepted pdu
                  (payload_spans abi (drop (Z.to_nat ptr) buf) recs))) os).
Proof.
  induction recs as [|[h c] rest IH]; intros fuel buf size ptr os Hptr Hrecs Hfuel.
  - destruct fuel as [|fuel]; [simpl in Hfuel; lia|]. simpl in *.
    destruct (Z.ltb_spec ptr size) as [|_]; [lia|].
    rewrite logs_nil. reflexivity.
  - destruct fuel as [|fuel]; [simpl in Hfuel; lia|].
    simpl in Hrecs. destruct Hrecs as (Hsize & Hh & Hc & Hh0 & Hc0 & Hstep & Hrest).
    cbn [bpf_walk]. destruct (Z.ltb_spec ptr size) as [_|]; [|lia].
    cbv zeta. rewrite Hh, Hc. unfold test_candidate.
    cbn [payload_spans until_accepted List.find map]. unfold accepts at 1 3.
    cbn [fst snd].
    destruct (matches_response pdu (drop (Z.to_nat h) (drop (Z.to_nat ptr) buf)) c).
    + reflexivity.
    + rewrite IH.
      * rewrite Z2Nat.inj_add by lia. rewrite <- drop_drop.
        rewrite log_logs, logs_logs. reflexivity.
      * lia.
      * rewrite Z2Nat.inj_add by lia. rewrite <- drop_drop.
        replace (size - (ptr + BPF_WORDALIGN abi (to_uint32 (h + c))))
          with (size - ptr - BPF_WORDALIGN abi (to_uint32 (h + c))) by lia.
        exact Hrest.
      * simpl in Hfuel. lia.
Qed.

(** The sibling of the [recvfrom] path: on BSD a read of zero or negative
    size offers nothing to the matcher. *)
Lemma bpf_read_of_nothing wfuel fd buf os :
  bsd b = true ->
  (deliver (os_recv os (tick os)) cap buf).1 <= 0 ->
  recv_one b abi pdu (S wfuel) cap fd buf os = (Done None, buf, log (c_read fd) os).
Proof.
  intros Hbsd Hsize. unfold recv_one. rewrite Hbsd.
  pose proof (deliver_nothing _ _ Hsize) as Hbuf.
  destruct (deliver _ cap buf) as [size buf1]. simpl in *. subst buf1.
  destruct (Z.ltb_spec 0 size) as [|_]; [lia|]. reflexivity.
Qed.

Lemma max_fd_single fd : max_fd [fd] = Z.max 0 fd.
Proof. reflexivity. Qed.

(** The body of the descriptor loop for a ready descriptor whose read left
    the records [recs] in the buffer. *)
Lemma recv_one_records wfuel fd buf os recs :
  bsd b = true ->
  holds_records abi (deliver (os_recv os (tick os)) cap buf).2
    (deliver (os_recv os (tick os)) cap buf).1 recs ->
  (length recs < wfuel)%nat ->
  recv_one b abi pdu wfuel cap fd buf os
  = (Done (reply_of pdu <$>
             List.find (accepts pdu)
               (payload_spans abi (deliver (os_recv os (tick os)) cap buf).2 recs)),
     (deliver (os_recv os (tick os)) cap buf).2,
     logs (c_read fd
           :: map tested
                (until_accepted pdu
                   (payload_spans abi (deliver (os_recv os (tick os)) cap buf).2 recs)))
       os).
Proof.
  intros Hbsd Hrecs Hfuel. unfold recv_one. rewrite Hbsd.
  destruct (deliver (os_recv os (tick os)) cap buf) as [size mem]. simpl in *.
  rewrite (bpf_walk_records recs wfuel mem size 0 (log (c_read fd) os));
    [|lia| |exact Hfuel].
  - change (drop (Z.to_nat 0) mem) with mem.
    rewrite log_logs, logs_logs. reflexivity.
  - change (drop (Z.to_nat 0) mem) with mem. rewrite Z.sub_0_r. exact Hrecs.
Qed.

(** C2.  On the BSD path, let the read of the first ready descriptor leave
    in the buffer K records, each a header and a payload padded to the
    alignment.  The candidates of that read are the K payloads, in order.  If
    the one at position j (counted from 0) is accepted and none before it is,
    the loop returns the reply built from it; the calls of the iteration are
    the [select], the one [read], and the tests of the payloads up to that
    one, and nothing follows, whatever other descriptors are ready.  If none
    is accepted, all K are tested, once each and in order, before the loop
    turns to the remaining descriptors, and with no descriptor remaining the
    iteration has found nothing. *)
Theorem bpf_batch_is_demultiplexed
    (wfuel : nat) (fd : Z) (rest : list Z) (st : LoopState) (os : OS)
    (recs : list (Z * Z)) :
  let os1 :=
    log (c_select (max_fd (fd :: rest) + 1) (fd :: rest) (timeout st)) os in
  let size := (deliver (os_recv os1 (tick os1)) cap (buffer st)).1 in
  let mem := (deliver (os_recv os1 (tick os1)) cap (buffer st)).2 in
  let spans := payload_spans abi mem recs in
  bsd b = true ->
  0 < wrap_int (os_ret os (tick os)) ->
  fd ∈ os_ready os (tick os) ->
  holds_records abi mem size recs ->
  (length recs < wfuel)%nat ->
  length spans = length recs /\
  (forall j sp,
     spans !! j = Some sp -> accepts pdu sp = true ->
     (forall i sp', (i < j)%nat -> spans !! i = Some sp' -> accepts pdu sp' = false) ->
     forall fuel,
       loop b abi pdu wfuel cap (fd :: rest) (S fuel) st os
       = (Done (Some (reply_of pdu sp)),
          logs (c_read fd :: map tested (take (S j) spans)) os1)) /\
  ((forall sp, sp ∈ spans -> accepts pdu sp = false) ->
   recv_ready b abi pdu wfuel cap (os_ready os (tick os)) (fd :: rest) (buffer st) os1
   = recv_ready b abi pdu wfuel cap (os_ready os (tick os)) rest mem
       (logs (c_read fd :: map tested spans) os1) /\
   (rest = [] ->
    wait_and_read b abi pdu wfuel cap (fd :: rest) st os
    = (NotFound mem, logs (c_read fd :: map tested spans) os1))).
Proof.
  intros os1 size mem spans Hbsd Hready Hfd Hrecs Hfuel.
  split; [apply payload_spans_length|].
  pose proof (recv_one_records wfuel fd (buffer st) os1 recs Hbsd Hrecs Hfuel) as Hone.
  fold mem in Hone. fold spans in Hone.
  assert (wait_and_read b abi pdu wfuel cap (fd :: rest) st os
          = match recv_ready b abi pdu wfuel cap (os_ready os (tick os)) (fd :: rest)
                    (buffer st) os1 with
            | (Spin, _, os2) => (WalkSpin, os2)
            | (Done (Some reply), _, os2) => (Found reply, os2)
            | (Done None, buffer1, os2) => (NotFound buffer1, os2)
            end) as Hwait.
  { unfold wait_and_read, sys_int. fold os1.
    destruct (Z.eqb_spec (wrap_int (os_ret os (tick os))) (-1)) as [|_]; [lia|].
    destruct (Z.ltb_spec 0 (wrap_int (os_ret os (tick os)))) as [_|]; [|lia].
    reflexivity. }
  split.
  - intros j sp Hj Hacc Hbefore fuel.
    destruct (until_accepted_first spans j sp Hj Hacc Hbefore) as [Hfind Htake].
    rewrite Hfind, Htake in Hone.
    cbn [loop]. unfold loop_body. rewrite Hwait.
    cbn [recv_ready]. rewrite bool_decide_eq_true_2 by exact Hfd.
    rewrite Hone. reflexivity.
  - intros Hnone. destruct (until_accepted_none spans Hnone) as [Hfind Hall].
    rewrite Hfind, Hall in Hone.
    assert (recv_ready b abi pdu wfuel cap (os_ready os (tick os)) (fd :: rest)
              (buffer st) os1
            = recv_ready b abi pdu wfuel cap (os_ready os (tick os)) rest mem
                (logs (c_read fd :: map tested spans) os1)) as Hnext.
    { cbn [recv_ready]. rewrite bool_decide_eq_true_2 by exact Hfd.
      rewrite Hone. reflexivity. }
    split; [exact Hnext|].
    intros ->. rewrite Hwait, Hnext. reflexivity.
Qed.

(** C4 at its failing input, in general form.  Off BSD nothing stands
    between [recvfrom] and the matcher: when the read of the first ready
    descriptor returns zero or -1, the matcher is shown the scratch buffer as
    the reads before left it, with that size, and if it accepts, the loop
    returns a reply built from those bytes. *)
Theorem failed_recvfrom_is_offered_to_matcher
    (wfuel : nat) (fd : Z) (rest : list Z) (fuel : nat) (st : LoopState) (os : OS) :
  let os1 :=
    log (c_select (max_fd (fd :: rest) + 1) (fd :: rest) (timeout st)) os in
  let size := (deliver (os_recv os1 (tick os1)) cap (buffer st)).1 in
  bsd b = false ->
  0 < wrap_int (os_ret os (tick os)) ->
  fd ∈ os_ready os (tick os) ->
  size <= 0 ->
  matches_response pdu (buffer st) size = true ->
  loop b abi pdu wfuel cap (fd :: rest) (S fuel) st os
  = (Done (Some (pdu_from_flag (pdu_type pdu) (buffer st) size)),
     logs [c_recvfrom fd; c_matches_response (buffer st) size] os1).
Proof.
  intros os1 size Hbsd Hready Hfd Hsize Hacc.
  cbn [loop]. unfold loop_body, wait_and_read, sys_int. fold os1.
  destruct (Z.eqb_spec (wrap_int (os_ret os (tick os))) (-1)) as [|_]; [lia|].
  destruct (Z.ltb_spec 0 (wrap_int (os_ret os (tick os)))) as [_|]; [|lia].
  cbn [recv_ready]. rewrite bool_decide_eq_true_2 by exact Hfd.
  unfold recv_one. rewrite Hbsd.
  pose proof (deliver_nothing _ _ Hsize) as Hbuf. fold size in Hacc |- *.
  destruct (deliver (os_recv os1 (tick os1)) cap (buffer st)) as [size' mem'].
  simpl in size, Hbuf. subst size mem'.
  unfold test_candidate. rewrite Hacc.
  rewrite (log_logs (c_matches_response _ _)), (log_logs (c_recvfrom fd)), logs_logs.
  reflexivity.
Qed.

End Candidates.

(** ** The record layout of the capture device *)

Section RecordLayout.

Lemma wordalign_floor x : Z.land x (Z.lnot 7) = 8 * (x / 8).
Proof.
  change 7 with (Z.ones 3). rewrite <- Z.ldiff_land, Z.ldiff_ones_r by lia.
  rewrite Z.shiftl_mul_pow2, Z.shiftr_div_pow2 by lia. change (2 ^ 3) with 8. lia.
Qed.

Lemma le32_value c :
  0 <= c < 2 ^ 32 ->
  c mod 256 + 256 * (c / 256 mod 256 + 256 * (c / 65536 mod 256
    + 256 * (c / 16777216 mod 256 + 0))) = c.
Proof.
  intros Hc.
  pose proof (Z.div_mod c 256 ltac:(lia)).
  pose proof (Z.div_mod (c / 256) 256 ltac:(lia)).
  pose proof (Z.div_mod (c / 256 / 256) 256 ltac:(lia)).
  rewrite Z.div_div in * by lia.
  change (256 * 256) with 65536 in *.
  replace (c / 16777216) with (c / 65536 / 256)
    by (rewrite Z.div_div by lia; reflexivity).
  assert (0 <= c / 65536 / 256 < 256).
  { rewrite Z.div_div by lia. split; [apply Z.div_pos; lia|].
    apply Z.div_lt_upper_bound; lia. }
  rewrite (Z.mod_small (c / 65536 / 256)) by lia.
  lia.
Qed.

Lemma bpf_record_step payload :
  Z.of_nat (length (bpf_record payload))
  = BPF_WORDALIGN freebsd_abi (26 + Z.of_nat (length payload)).
Proof.
  unfold bpf_record, freebsd_abi, le32. cbn [BPF_WORDALIGN].
  set (c := Z.of_nat (length payload)).
  rewrite !length_app, !length_replicate. cbn [length].
  rewrite wordalign_floor.
  pose proof (Z.div_mod (26 + c + 7) 8 ltac:(lia)).
  pose proof (Z.mod_pos_bound (26 + c + 7) 8 ltac:(lia)).
  fold c. lia.
Qed.

Lemma bpf_record_header payload rest :
  fits payload ->
  bh_hdrlen freebsd_abi (bpf_record payload ++ rest) = 26 /\
  bh_caplen freebsd_abi (bpf_record payload ++ rest) = Z.of_nat (length payload).
Proof.
  unfold fits. intros Hfit. unfold bpf_record, freebsd_abi, le32.
  cbn [bh_hdrlen bh_caplen]. split.
  - reflexivity.
  - cbn. apply le32_value. lia.
Qed.

Lemma bpf_record_payload payload rest :
  take (length payload) (drop 26 (bpf_record payload ++ rest)) = payload.
Proof.
  unfold bpf_record, le32. cbn. rewrite <- !app_assoc.
  apply take_app_length.
Qed.

(** What a read of the capture device delivers holds the records of its
    frames, and the payload of each record is the frame. *)
Lemma bpf_batch_holds_records payloads tail :
  Forall fits payloads ->
  holds_records freebsd_abi (bpf_batch payloads ++ tail)
    (Z.of_nat (length (bpf_batch payloads))) (batch_recs payloads) /\
  Forall2 (fun payload (sp : span) =>
             take (length payload) sp.1 = payload /\
             sp.2 = Z.of_nat (length payload))
    payloads
    (payload_spans freebsd_abi (bpf_batch payloads ++ tail) (batch_recs payloads)).
Proof.
  induction 1 as [|payload payloads Hfit _ [IHr IHs]].
  - split; [simpl; lia|constructor].
  - unfold bpf_batch in *. cbn [map concat batch_recs holds_records payload_spans].
    rewrite <- app_assoc.
    destruct (bpf_record_header payload (concat (map bpf_record payloads) ++ tail) Hfit)
      as [Hh Hc].
    assert (to_uint32 (26 + Z.of_nat (length payload)) = 26 + Z.of_nat (length payload))
      as Hu.
    { unfold to_uint32, fits in *. apply Z.mod_small. lia. }
    rewrite Hu, <- bpf_record_step, Nat2Z.id, drop_app_length.
    split.
    + split.
      { rewrite length_app. unfold bpf_record. rewrite !length_app. simpl. lia. }
      split; [exact Hh|]. split; [exact Hc|].
      split; [lia|]. split; [lia|]. split.
      { unfold bpf_record. rewrite !length_app. simpl. lia. }
      rewrite length_app.
      replace (Z.of_nat (length (bpf_record payload) + length (concat (map bpf_record payloads)))
               - Z.of_nat (length (bpf_record payload)))
        with (Z.of_nat (length (concat (map bpf_record payloads)))) by lia.
      exact IHr.
    + constructor; [|exact IHs]. cbn [fst snd]. split; [|reflexivity].
      apply bpf_record_payload.
Qed.

(** The walk over such a read tests the frames in order, up to the first
    accepted one. *)
Lemma bpf_walk_batch pdu payloads tail fuel os :
  Forall fits payloads ->
  (length payloads < fuel)%nat ->
  bpf_walk freebsd_abi pdu fuel (bpf_batch payloads ++ tail)
    (Z.of_nat (length (bpf_batch payloads))) 0 os
  = (Done (reply_of pdu <$>
             List.find (accepts pdu)
               (payload_spans freebsd_abi (bpf_batch payloads ++ tail)
                  (batch_recs payloads))),
     logs (map tested
             (until_accepted pdu
                (payload_spans freebsd_abi (bpf_batch payloads ++ tail)
                   (batch_recs payloads)))) os).
Proof.
  intros Hfit Hfuel.
  destruct (bpf_batch_holds_records payloads tail Hfit) as [Hrecs _].
  rewrite (bpf_walk_records freebsd_abi pdu (batch_recs payloads));
    [reflexivity|lia| |].
  - change (drop (Z.to_nat 0) (bpf_batch payloads ++ tail))
      with (bpf_batch payloads ++ tail).
    rewrite Z.sub_0_r. exact Hrecs.
  - unfold batch_recs. rewrite length_map. exact Hfuel.
Qed.

End RecordLayout.

(** ** The loop on concrete runs *)

Lemma clock_sane_on_time_os : clock_sane on_time_os.
Proof.
  intros n. unfold on_time_os, scripted_os, normalized, clock_range. simpl.
  do 5 (destruct n as [|n]; [simpl; lia|]).
  destruct n; simpl; lia.
Qed.

Lemma bpf_batch_is_demultiplexed_witness :
  holds_records freebsd_abi
    (deliver (os_recv (log (c_select 6 [5] (Timeval 2 0)) capture_os) 1) 4096
       (buffer capture_state)).2
    (deliver (os_recv (log (c_select 6 [5] (Timeval 2 0)) capture_os) 1) 4096
       (buffer capture_state)).1
    capture_recs /\
  loop bsd_build freebsd_abi picky_pdu 8 4096 [5] 1 capture_state capture_os
  = (Done (Some (reply_of picky_pdu
                   (drop 58 (three_frames ++ replicate 3992 0), 7))),
     logs (c_read 5
           :: map tested
                (take 2 (payload_spans freebsd_abi
                           (three_frames ++ replicate 3992 0) capture_recs)))
       (log (c_select 6 [5] (Timeval 2 0)) capture_os)).
Proof.
  assert (holds_records freebsd_abi
    (deliver (os_recv (log (c_select 6 [5] (Timeval 2 0)) capture_os) 1) 4096
       (buffer capture_state)).2
    (deliver (os_recv (log (c_select 6 [5] (Timeval 2 0)) capture_os) 1) 4096
       (buffer capture_state)).1
    capture_recs) as Hrecs.
  { vm_compute. repeat split; try reflexivity; intros H; discriminate H. }
  split; [exact Hrecs|].
  apply (proj1 (proj2 (bpf_batch_is_demultiplexed bsd_build freebsd_abi picky_pdu
                         4096 8 5 [] capture_state capture_os capture_recs
                         eq_refl eq_refl ltac:(left) Hrecs ltac:(simpl; lia)))
           1%nat (drop 58 (three_frames ++ replicate 3992 0), 7)).
  - reflexivity.
  - reflexivity.
  - intros i sp' Hi Hl. destruct i as [|i]; [|lia].
    vm_compute in Hl. injection Hl as <-. reflexivity.
Defined.

Lemma select_is_never_given_negative_timeout_witness :
  clock_sane on_time_os /\
  0 <= _timeout sender0 <= UINT32_MAX /\
  0 <= timeout_usec_ sender0 <= UINT32_MAX /\
  never_waits_negative
    (calls_since on_time_os
       (recv_match_loop linux_build freebsd_abi sender0 deaf_pdu 0 2 [] [5]
          on_time_os).2) /\
  micros (end_time entry_state) = micros (os_now on_time_os 2) /\
  loop_body linux_build freebsd_abi deaf_pdu 0 2048 [5] entry_state
    (log c_time on_time_os)
  = (Continue {| timeout := Timeval 0 0; end_time := Timeval 102 0; buffer := [] |},
     log c_gettimeofday (log (c_select 6 [5] (Timeval 2 0)) (log c_time on_time_os))).
Proof.
  split; [exact clock_sane_on_time_os|].
  split; [vm_compute; split; discriminate|].
  split; [vm_compute; split; discriminate|].
  split.
  - apply (proj1 (select_is_never_given_negative_timeout linux_build freebsd_abi
                    deaf_pdu 0 [5]) sender0 2%nat [] on_time_os
             clock_sane_on_time_os).
    + vm_compute; split; discriminate.
    + vm_compute; split; discriminate.
  - split; [reflexivity|].
    apply (proj2 (proj2 (select_is_never_given_negative_timeout linux_build
                           freebsd_abi deaf_pdu 0 [5])
                    2048 entry_state (log c_time on_time_os) []
                    (log (c_select 6 [5] (Timeval 2 0)) (log c_time on_time_os))
                    eq_refl
                    ltac:(unfold deadline_range; simpl; lia)
                    ltac:(unfold INT_MAX; simpl; lia)
                    ltac:(unfold normalized; simpl; lia)
                    ltac:(unfold clock_range; simpl; lia))).
    + unfold normalized. simpl. lia.
    + reflexivity.
Defined.

Lemma failed_recvfrom_is_offered_to_matcher_witness :
  (deliver (os_recv (log (c_select 6 [5] (Timeval 2 0)) failed_read_os) 1) 2048
     (buffer stale_state)).1 = -1 /\
  loop linux_build freebsd_abi credulous_pdu 0 2048 [5] 1 stale_state failed_read_os
  = (Done (Some (pdu_from_flag (OTHER_PDU 0) [69; 0; 0; 20] (-1))),
     logs [c_recvfrom 5; c_matches_response [69; 0; 0; 20] (-1)]
       (log (c_select 6 [5] (Timeval 2 0)) failed_read_os)).
Proof.
  split; [reflexivity|].
  apply (failed_recvfrom_is_offered_to_matcher linux_build freebsd_abi
           credulous_pdu 2048 0 5 [] 0 stale_state failed_read_os
           eq_refl eq_refl ltac:(left) ltac:(simpl; lia) eq_refl).
Defined.

Lemma recv_loop_failures_are_no_reply_witness :
  wrap_int (os_ret (scripted_os [-1] [] [] [] []) 0) = -1 /\
  loop linux_build freebsd_abi deaf_pdu 0 2048 [5] 1 entry_state
    (scripted_os [-1] [] [] [] [])
  = (Done None, log (c_select 6 [5] (Timeval 2 0)) (scripted_os [-1] [] [] [] [])).
Proof.
  split; [reflexivity|].
  apply (proj1 (recv_loop_failures_are_no_reply linux_build freebsd_abi deaf_pdu
                  0 2048 [5] 0 entry_state (scripted_os [-1] [] [] [] []))).
  reflexivity.
Defined.

(** * Further properties *)

(** ** Deadline arithmetic beyond normalized operands *)

Section DeadlineUnnormalized.

(** X1.  [timeval_subtract] with a deadline whose microsecond field is any
    non-negative [int], normalized or not (the sender takes it from its
    configuration as it is), and a normalized current time: the result is the
    exact difference; its microsecond field lies in [0, 1_000_000], the upper
    end included; the value [*y] is rewritten to denote the instant it denoted;
    the flag is raised whenever the deadline is before the current time, and
    only when it is not after it. *)
Theorem timeval_subtract_exact_difference (x y : timeval) :
  deadline_range x -> 0 <= tv_usec x <= INT_MAX ->
  normalized y -> clock_range y ->
  micros (subtract_result x y) = micros x - micros y /\
  0 <= tv_usec (subtract_result x y) <= 1000000 /\
  micros (timeval_subtract x y).1.2 = micros y /\
  (micros x < micros y -> subtract_expired x y = true) /\
  (subtract_expired x y = true -> micros x <= micros y).
Proof.
  intros Hdx Hux Hy Hcy.
  destruct (timeval_subtract_exact x y Hdx Hux Hy Hcy) as (Hdiff & Hu & Hy2 & Hexp).
  split; [exact Hdiff|]. split; [exact Hu|]. split; [exact Hy2|].
  rewrite Hexp. unfold micros in *. split.
  - intros Hlate. apply Z.ltb_lt. lia.
  - intros Hneg%Z.ltb_lt. lia.
Qed.

Lemma timeval_subtract_exact_difference_witness :
  deadline_range (Timeval 100 2500000) /\
  micros (subtract_result (Timeval 100 2500000) (Timeval 101 700000))
  = micros (Timeval 100 2500000) - micros (Timeval 101 700000) /\
  subtract_result (Timeval 100 2500000) (Timeval 101 700000) = Timeval 0 800000.
Proof.
  split; [unfold deadline_range; simpl; lia|]. split; [|reflexivity].
  apply (timeval_subtract_exact_difference (Timeval 100 2500000) (Timeval 101 700000));
    unfold deadline_range, normalized, clock_range, INT_MAX; simpl; lia.
Defined.

(** X2.  The re-normalizing branch is taken for a difference of more than
    1_000_000 microseconds, not for one of exactly 1_000_000: then the second
    is left in the microsecond field of the result, and with the deadline's
    seconds one below the current time's the flag is raised although the two
    instants are the same. *)
Theorem timeval_subtract_exactly_one_second (x y : timeval) :
  tv_usec x - tv_usec y = 1000000 ->
  normalized y -> deadline_range x -> clock_range y ->
  timeval_subtract x y
  = (Timeval (tv_sec x - tv_sec y) 1000000, y, tv_sec x <? tv_sec y) /\
  (tv_sec x = tv_sec y - 1 ->
   subtract_expired x y = true /\ micros x = micros y).
Proof.
  unfold normalized, deadline_range, clock_range. intros Hd Hy Hdx Hcy.
  assert (timeval_subtract x y
          = (Timeval (tv_sec x - tv_sec y) 1000000, y, tv_sec x <? tv_sec y)) as E.
  { unfold timeval_subtract. cbv zeta.
    destruct (Z.ltb_spec (tv_usec x) (tv_usec y)) as [|_]; [lia|].
    rewrite !(wrap_long_small (tv_usec x - tv_usec y)) by long_range.
    rewrite Hd. change (1000000 <? 1000000) with false. cbv iota.
    rewrite !wrap_long_small by long_range. rewrite Hd. reflexivity. }
  split; [exact E|].
  intros Hs. unfold subtract_expired, micros. rewrite E. cbn [snd]. split.
  - apply Z.ltb_lt. lia.
  - lia.
Qed.

Lemma timeval_subtract_exactly_one_second_witness :
  tv_usec (Timeval 101 1300000) - tv_usec (Timeval 102 300000) = 1000000 /\
  timeval_subtract (Timeval 101 1300000) (Timeval 102 300000)
  = (Timeval (-1) 1000000, Timeval 102 300000, true).
Proof.
  split; [reflexivity|].
  apply (timeval_subtract_exactly_one_second (Timeval 101 1300000) (Timeval 102 300000));
    unfold normalized, deadline_range, clock_range; simpl; lia.
Defined.

End DeadlineUnnormalized.

(** ** The sender's configuration and what the channel operations keep *)

Section Configuration.

Lemma config_kept_refl s : config_kept s s.
Proof. repeat split. Qed.

Lemma config_kept_trans s1 s2 s3 :
  config_kept s1 s2 -> config_kept s2 s3 -> config_kept s1 s3.
Proof.
  intros (A1 & A2 & A3 & A4 & A5) (B1 & B2 & B3 & B4 & B5).
  repeat split; congruence.
Qed.

Lemma config_kept_inv s s' : config_kept s s' -> sender_inv s -> sender_inv s'.
Proof.
  intros (Ht & _ & _ & _ & Hl) [Hlen Hend]. split; congruence.
Qed.

Lemma kept_ret {A} (a : A) : sender_related config_kept (ret a).
Proof. intros s os. apply config_kept_refl. Qed.

Lemma kept_throw {A} e : sender_related config_kept (@throw A e).
Proof. intros s os. apply config_kept_refl. Qed.

Lemma kept_diverge {A} : sender_related config_kept (@diverge A).
Proof. intros s os. apply config_kept_refl. Qed.

Lemma kept_this {A} (f : PacketSender -> A) : sender_related config_kept (this f).
Proof. intros s os. apply config_kept_refl. Qed.

Lemma kept_sys {A} (f : OS -> A * OS) : sender_related config_kept (sys f).
Proof. intros s os. unfold sys. destruct (f os). apply config_kept_refl. Qed.

Lemma kept_lift_run {A} (f : OS -> run A * OS) :
  sender_related config_kept (lift_run f).
Proof.
  intros s os. unfold lift_run. destruct (f os) as [[a|] os'];
    apply config_kept_refl.
Qed.

Lemma kept_assign f :
  (forall s, config_kept s (f s)) -> sender_related config_kept (assign f).
Proof. intros Hf s os. apply Hf. Qed.

Lemma kept_bind {A B} (m : M A) (k : A -> M B) :
  sender_related config_kept m -> (forall a, sender_related config_kept (k a)) ->
  sender_related config_kept (bind m k).
Proof.
  intros Hm Hk s os. specialize (Hm s os). unfold bind, sender_after in *.
  destruct (m s os) as [[[a|e|] s1] os1]; simpl in *; try exact Hm.
  eapply config_kept_trans; [exact Hm|]. apply Hk.
Qed.

Lemma kept_set_sockets i v s :
  config_kept s (set_sockets_ (<[i:=v]> (sockets_ s)) s).
Proof. repeat split. simpl. apply length_insert. Qed.

Ltac kept_step :=
  first
    [ apply kept_ret | apply kept_throw | apply kept_diverge | apply kept_this
    | apply kept_sys | apply kept_lift_run
    | apply kept_assign; intros ?; first [apply kept_set_sockets | repeat split]
    | apply kept_bind; [|intros ?]
    | match goal with |- sender_related _ (if ?c then _ else _) => destruct c end
    | match goal with |- sender_related _ (match ?c with _ => _ end) => destruct c end ].

Lemma open_l3_socket_kept type : sender_related config_kept (open_l3_socket type).
Proof. unfold open_l3_socket. repeat kept_step. Qed.

Lemma probe_bpf_kept fuel i : sender_related config_kept (probe_bpf fuel i).
Proof.
  revert i. induction fuel as [|fuel IH]; intros i; simpl.
  - apply kept_diverge.
  - apply kept_bind; [apply kept_sys|]. intros sock.
    destruct (sock =? -1); [apply IH|apply kept_ret].
Qed.

Lemma make_pcap_handle_kept iface :
  sender_related config_kept (make_pcap_handle iface).
Proof. unfold make_pcap_handle. repeat kept_step. Qed.

Lemma open_l2_socket_kept b fuel iface :
  sender_related config_kept (open_l2_socket b fuel iface).
Proof.
  unfold open_l2_socket. destruct (pcap_sendpacket b); [|destruct (bsd b)].
  - apply kept_bind; [apply kept_this|]. intros [h|]; [apply kept_ret|].
    apply kept_bind; [apply make_pcap_handle_kept|]. intros h. kept_step.
  - apply kept_bind; [apply probe_bpf_kept|]. intros sock. repeat kept_step.
  - repeat kept_step.
Qed.

Lemma get_ether_socket_kept b fuel iface :
  sender_related config_kept (get_ether_socket b fuel iface).
Proof.
  unfold get_ether_socket.
  apply kept_bind; [apply kept_this|]. intros ready.
  apply kept_bind.
  - destruct ready; [apply kept_ret|apply open_l2_socket_kept].
  - intros _. destruct (bsd b); [|apply kept_this].
    unfold ether_socket_bsd_at. repeat kept_step.
Qed.

Lemma close_socket_kept b type iface :
  sender_related config_kept (close_socket b type iface).
Proof. unfold close_socket. repeat kept_step. Qed.

Lemma send_l2_kept b fuel pdu iface :
  sender_related config_kept (send_l2 b fuel pdu iface).
Proof.
  unfold send_l2. destruct (pcap_sendpacket b).
  - apply kept_bind; [apply open_l2_socket_kept|]. intros _. repeat kept_step.
  - apply kept_bind; [apply get_ether_socket_kept|]. intros sock. repeat kept_step.
Qed.

Lemma send_l3_kept pdu type : sender_related config_kept (send_l3 pdu type).
Proof.
  unfold send_l3. apply kept_bind; [apply open_l3_socket_kept|]. intros _.
  repeat kept_step.
Qed.

Lemma recv_l2_kept b abi fuel wfuel lfuel scratch pdu iface :
  sender_related config_kept (recv_l2 b abi fuel wfuel lfuel scratch pdu iface).
Proof.
  unfold recv_l2. apply kept_bind; [apply get_ether_socket_kept|]. intros sock.
  repeat kept_step.
Qed.

Lemma recv_l3_kept b BSD_macro abi wfuel lfuel scratch pdu type :
  sender_related config_kept (recv_l3 b BSD_macro abi wfuel lfuel scratch pdu type).
Proof.
  unfold recv_l3. apply kept_bind; [apply open_l3_socket_kept|]. intros _.
  apply kept_bind; [apply kept_this|]. intros first.
  destruct (bool_decide _); [destruct BSD_macro; [apply kept_throw|]|].
  - apply kept_bind; [apply open_l3_socket_kept|]. intros _. repeat kept_step.
  - repeat kept_step.
Qed.

(** X3.  A sender as the constructor leaves it, whatever the interface and
    the timeouts given: the socket table has one slot per kind, no channel
    of any kind is open for any interface on any build, each IP-layer kind has
    its protocol number, and the look-up finds none (-1) for the link-layer
    kind and the sentinel, and only for them. *)
Theorem constructed_sender_is_closed
    (b : Build) (iface : NetworkInterface) (recv_timeout usec : Z)
    (type : SocketType) (iface' : NetworkInterface) :
  sender_inv (PacketSender_new iface recv_timeout usec) /\
  channel b (PacketSender_new iface recv_timeout usec) type iface' = None /\
  (find_type (PacketSender_new iface recv_timeout usec) type = -1 <->
   type = ETHER_SOCKET \/ type = SOCKETS_END) /\
  find_type (PacketSender_new iface recv_timeout usec) type
  = match type with
    | IP_TCP_SOCKET => IPPROTO_TCP
    | IP_UDP_SOCKET => IPPROTO_UDP
    | IP_RAW_SOCKET | IPV6_SOCKET => IPPROTO_RAW
    | ICMP_SOCKET => IPPROTO_ICMP
    | ETHER_SOCKET | SOCKETS_END => -1
    end /\
  0 <= _timeout (PacketSender_new iface recv_timeout usec) <= UINT32_MAX /\
  0 <= timeout_usec_ (PacketSender_new iface recv_timeout usec) <= UINT32_MAX.
Proof.
  assert (find_type (PacketSender_new iface recv_timeout usec) type
          = match type with
            | IP_TCP_SOCKET => IPPROTO_TCP
            | IP_UDP_SOCKET => IPPROTO_UDP
            | IP_RAW_SOCKET | IPV6_SOCKET => IPPROTO_RAW
            | ICMP_SOCKET => IPPROTO_ICMP
            | ETHER_SOCKET | SOCKETS_END => -1
            end) as Htable.
  { destruct type; reflexivity. }
  split; [split; reflexivity|]. split.
  { unfold channel. destruct b as [[] [] ?], type; reflexivity. }
  split.
  { rewrite Htable. destruct type; split; intros H;
      first [ reflexivity | left; reflexivity | right; reflexivity
            | destruct H as [H|H]; discriminate H
            | exfalso; cbv in H; discriminate H ]. }
  split; [exact Htable|].
  cbn [_timeout timeout_usec_ PacketSender_new]. unfold UINT32_MAX, to_uint32.
  pose proof (Z.mod_pos_bound recv_timeout (2 ^ 32) eq_refl).
  pose proof (Z.mod_pos_bound usec (2 ^ 32) eq_refl). lia.
Qed.

(** X4.  No operation on channels touches the configuration: opening,
    closing, sending and receiving, whatever their outcome, leave the
    protocol table, the two timeouts, the default interface and the size of
    the socket table as they were, and so keep the constructor's invariant. *)
Theorem channel_operations_keep_configuration
    (b : Build) (BSD_macro : bool) (abi : BpfAbi) (fuel wfuel lfuel : nat)
    (scratch : list Z) (pdu : PDU) (type : SocketType) (iface : NetworkInterface)
    (s : PacketSender) (os : OS) :
  Forall (fun s' => config_kept s s' /\ (sender_inv s -> sender_inv s'))
    [ sender_after (open_l3_socket type s os);
      sender_after (open_l2_socket b fuel iface s os);
      sender_after (get_ether_socket b fuel iface s os);
      sender_after (close_socket b type iface s os);
      sender_after (send_l2 b fuel pdu iface s os);
      sender_after (send_l3 pdu type s os);
      sender_after (recv_l2 b abi fuel wfuel lfuel scratch pdu iface s os);
      sender_after (recv_l3 b BSD_macro abi wfuel lfuel scratch pdu type s os) ].
Proof.
  assert (forall s', config_kept s s' ->
                     config_kept s s' /\ (sender_inv s -> sender_inv s')) as Hboth.
  { intros s' Hk. split; [exact Hk|]. apply config_kept_inv, Hk. }
  repeat (apply Forall_cons; split; [apply Hboth|]).
  - apply open_l3_socket_kept.
  - apply open_l2_socket_kept.
  - apply get_ether_socket_kept.
  - apply close_socket_kept.
  - apply send_l2_kept.
  - apply send_l3_kept.
  - apply recv_l2_kept.
  - apply recv_l3_kept.
  - constructor.
Qed.

End Configuration.

(** ** Opening and closing, outcome by outcome *)

Section OpenClose.

Lemma set_sockets_same s : set_sockets_ (sockets_ s) s = s.
Proof. destruct s. reflexivity. Qed.

Lemma set_ether_socket_same s : set_ether_socket_ (ether_socket_ s) s = s.
Proof. destruct s. reflexivity. Qed.

Lemma known_type_in_range s type :
  sender_inv s -> find_type s type <> -1 ->
  (type_index type < length (sockets_ s))%nat.
Proof.
  intros [Hlen Hend] Hknown. rewrite Hlen. destruct type; simpl; try lia.
  exfalso. apply Hknown. unfold find_type. rewrite Hend. reflexivity.
Qed.

(** The successful opening of a closed channel. *)
Lemma open_l3_socket_opens type s os :
  find_type s type <> -1 -> socket_at s type = INVALID_RAW_SOCKET ->
  0 <= wrap_int (os_ret os (tick os)) ->
  open_l3_socket type s os
  = (Ok tt,
     set_sockets_ (<[type_index type := wrap_int (os_ret os (tick os))]> (sockets_ s)) s,
     logs [c_socket (if decide (type = IPV6_SOCKET) then AF_INET6 else AF_INET)
             SOCK_RAW (find_type s type);
           c_setsockopt (wrap_int (os_ret os (tick os)))] os).
Proof.
  intros Hknown Hclosed Hfd. unfold open_l3_socket. run_m.
  destruct (Z.eqb_spec (find_type s type) (-1)) as [|_]; [contradiction|].
  rewrite Hclosed. change (INVALID_RAW_SOCKET =? INVALID_RAW_SOCKET) with true.
  cbv beta iota zeta.
  destruct (Z.ltb_spec (wrap_int (os_ret os (tick os))) 0) as [|_]; [lia|].
  cbv beta. f_equal. apply log_log.
Qed.

Lemma open_l2_socket_raw_opens b fuel iface s os :
  pcap_sendpacket b = false -> bsd b = false ->
  ether_socket_ s = INVALID_RAW_SOCKET ->
  wrap_int (os_ret os (tick os)) <> -1 ->
  open_l2_socket b fuel iface s os
  = (Ok tt, set_ether_socket_ (wrap_int (os_ret os (tick os))) s,
     log (c_socket PF_PACKET SOCK_RAW ETH_P_ALL_be) os).
Proof.
  intros Hpcap Hbsd Hclosed Hfd. unfold open_l2_socket. rewrite Hpcap, Hbsd. run_m.
  rewrite Hclosed. change (INVALID_RAW_SOCKET =? INVALID_RAW_SOCKET) with true.
  cbv beta iota zeta.
  destruct (Z.eqb_spec (wrap_int (os_ret os (tick os))) (-1)) as [|_];
    [contradiction|reflexivity].
Qed.

(** X5.  [open_l3_socket] outcome by outcome, on a sender that keeps the
    constructor's invariant.  A kind without a protocol number is refused
    with [invalid_socket_type] before any system call.  An open channel is
    left alone, with no call.  Otherwise one raw socket is asked for, of the
    family AF_INET6 for [IPV6_SOCKET] and AF_INET for the rest, with the
    kind's protocol number: a negative answer is a [socket_open_error] and the
    pool stays as it was; any other answer is stored in the kind's slot after
    one [setsockopt], whose result is not looked at, and no other slot
    changes. *)
Theorem open_l3_socket_effect (type : SocketType) (s : PacketSender) (os : OS) :
  sender_inv s ->
  (find_type s type = -1 ->
   open_l3_socket type s os = (Throw invalid_socket_type, s, os)) /\
  (find_type s type <> -1 -> socket_at s type <> INVALID_RAW_SOCKET ->
   open_l3_socket type s os = (Ok tt, s, os)) /\
  (find_type s type <> -1 -> socket_at s type = INVALID_RAW_SOCKET ->
   (wrap_int (os_ret os (tick os)) < 0 ->
    open_l3_socket type s os
    = (Throw socket_open_error, s,
       log (c_socket (if decide (type = IPV6_SOCKET) then AF_INET6 else AF_INET)
              SOCK_RAW (find_type s type)) os)) /\
   (0 <= wrap_int (os_ret os (tick os)) ->
    outcome (open_l3_socket type s os) = Ok tt /\
    os_after (open_l3_socket type s os)
    = logs [c_socket (if decide (type = IPV6_SOCKET) then AF_INET6 else AF_INET)
              SOCK_RAW (find_type s type);
            c_setsockopt (wrap_int (os_ret os (tick os)))] os /\
    socket_at (sender_after (open_l3_socket type s os)) type
    = wrap_int (os_ret os (tick os)) /\
    forall type', type' <> type ->
      socket_at (sender_after (open_l3_socket type s os)) type'
      = socket_at s type')).
Proof.
  intros Hinv. unfold open_l3_socket. run_m. split; [|split].
  - intros ->. reflexivity.
  - intros Hknown Hopen.
    destruct (Z.eqb_spec (find_type s type) (-1)) as [|_]; [contradiction|].
    destruct (Z.eqb_spec (socket_at s type) INVALID_RAW_SOCKET) as [|_];
      [contradiction|reflexivity].
  - intros Hknown Hclosed.
    pose proof (known_type_in_range s type Hinv Hknown) as Hlt.
    destruct (Z.eqb_spec (find_type s type) (-1)) as [|_]; [contradiction|].
    rewrite Hclosed. change (INVALID_RAW_SOCKET =? INVALID_RAW_SOCKET) with true.
    cbv iota. split.
    + intros Hneg.
      destruct (Z.ltb_spec (wrap_int (os_ret os (tick os))) 0) as [_|]; [|lia].
      reflexivity.
    + intros Hfd.
      destruct (Z.ltb_spec (wrap_int (os_ret os (tick os))) 0) as [|_]; [lia|].
      unfold outcome, os_after, sender_after. cbn [fst snd].
      split; [reflexivity|]. split; [apply log_log|]. split.
      * apply socket_at_set_same, Hlt.
      * intros type' Hne. apply socket_at_set_other. congruence.
Qed.

Lemma open_l3_socket_effect_witness :
  sender_inv sender0 /\
  open_l3_socket ETHER_SOCKET sender0 (scripted_os [5] [] [] [] [])
  = (Throw invalid_socket_type, sender0, scripted_os [5] [] [] [] []).
Proof.
  split; [split; reflexivity|].
  apply (proj1 (open_l3_socket_effect ETHER_SOCKET sender0
                  (scripted_os [5] [] [] [] []) ltac:(split; reflexivity))).
  reflexivity.
Defined.

(** X6.  Where the open operation looks for the channel first, opening
    twice is opening once: for every IP-layer kind, and for the link-layer
    channel kept as the one raw socket or as a pcap handle, a second open
    after a successful first one succeeds, makes no system call and leaves the
    pool as it is. *)
Theorem guarded_open_is_idempotent
    (b : Build) (fuel : nat) (type : SocketType) (iface : NetworkInterface)
    (s : PacketSender) (os : OS) :
  (sender_inv s -> open_idempotent (open_l3_socket type) s os) /\
  (pcap_sendpacket b = true \/ bsd b = false ->
   open_idempotent (open_l2_socket b fuel iface) s os).
Proof.
  split.
  - apply open_l3_socket_idempotent.
  - intros Hguard. destruct (pcap_sendpacket b) eqn:Hpcap.
    + apply open_l2_socket_pcap_idempotent, Hpcap.
    + destruct Hguard as [Hp|Hbsd]; [discriminate Hp|].
      apply open_l2_socket_raw_idempotent; assumption.
Qed.

Lemma guarded_open_is_idempotent_witness :
  sender_inv sender0 /\
  open_l3_socket ICMP_SOCKET sender0 (scripted_os [5; 0] [] [] [] [])
  = (Ok tt, set_sockets_ (<[type_index ICMP_SOCKET := 5]> (sockets_ sender0)) sender0,
     logs [c_socket AF_INET SOCK_RAW IPPROTO_ICMP; c_setsockopt 5]
       (scripted_os [5; 0] [] [] [] [])) /\
  open_l3_socket ICMP_SOCKET
    (set_sockets_ (<[type_index ICMP_SOCKET := 5]> (sockets_ sender0)) sender0)
    (scripted_os [9] [] [] [] [])
  = (Ok tt, set_sockets_ (<[type_index ICMP_SOCKET := 5]> (sockets_ sender0)) sender0,
     scripted_os [9] [] [] [] []).
Proof.
  split; [split; reflexivity|]. split; [reflexivity|].
  apply (proj1 (guarded_open_is_idempotent linux_build 0 ICMP_SOCKET eth0 sender0
                  (scripted_os [5; 0] [] [] [] []))
           ltac:(split; reflexivity) _ _ eq_refl).
Defined.

(** X7.  Opening a closed channel and closing it again gives the pool back
    as it was, field for field, for an IP-layer kind and for the raw
    link-layer socket; the calls made are the [socket], the [setsockopt] (IP
    layer only) and the [close] of the descriptor the [socket] call
    returned. *)
Theorem open_then_close_restores_pool
    (b : Build) (fuel : nat) (type : SocketType) (iface : NetworkInterface)
    (s : PacketSender) (os : OS) :
  (sender_inv s -> type <> ETHER_SOCKET -> find_type s type <> -1 ->
   socket_at s type = INVALID_RAW_SOCKET ->
   0 <= wrap_int (os_ret os (tick os)) ->
   wrap_int (os_ret os (S (S (tick os)))) <> -1 ->
   close_socket b type iface
     (sender_after (open_l3_socket type s os)) (os_after (open_l3_socket type s os))
   = (Ok tt, s,
      logs [c_socket (if decide (type = IPV6_SOCKET) then AF_INET6 else AF_INET)
              SOCK_RAW (find_type s type);
            c_setsockopt (wrap_int (os_ret os (tick os)));
            c_close (wrap_int (os_ret os (tick os)))] os)) /\
  (pcap_sendpacket b = false -> bsd b = false ->
   ether_socket_ s = INVALID_RAW_SOCKET ->
   wrap_int (os_ret os (tick os)) <> -1 ->
   wrap_int (os_ret os (S (tick os))) <> -1 ->
   close_socket b ETHER_SOCKET iface
     (sender_after (open_l2_socket b fuel iface s os))
     (os_after (open_l2_socket b fuel iface s os))
   = (Ok tt, s,
      logs [c_socket PF_PACKET SOCK_RAW ETH_P_ALL_be;
            c_close (wrap_int (os_ret os (tick os)))] os)).
Proof.
  split.
  - intros Hinv Hip Hknown Hclosed Hfd Hclose.
    pose proof (known_type_in_range s type Hinv Hknown) as Hlt.
    assert (type <> SOCKETS_END) as Hkind.
    { intros ->. destruct Hinv as [Hlen _]. rewrite Hlen in Hlt. simpl in Hlt. lia. }
    assert ((type_index SOCKETS_END <=? type_index type)%nat = false) as Hend.
    { destruct type; try reflexivity; contradiction. }
    rewrite (open_l3_socket_opens type s os Hknown Hclosed Hfd).
    unfold sender_after, os_after. cbn [fst snd].
    unfold close_socket. destruct (decide (type = ETHER_SOCKET)) as [|_];
      [contradiction|].
    run_m. rewrite socket_at_set_same by exact Hlt. rewrite Hend. cbn [orb].
    destruct (Z.eqb_spec (wrap_int (os_ret os (tick os))) INVALID_RAW_SOCKET) as [Hbad|_];
      [unfold INVALID_RAW_SOCKET in Hbad; lia|].
    rewrite <- log_log, !tick_log. cbn [os_ret log].
    destruct (Z.eqb_spec (wrap_int (os_ret os (S (S (tick os))))) (-1)) as [|_];
      [contradiction|].
    f_equal; [f_equal|].
    + cbn [sockets_ set_sockets_]. rewrite list_insert_insert_eq.
      rewrite list_insert_id.
      * destruct s; reflexivity.
      * unfold socket_at in Hclosed.
        destruct (sockets_ s !! type_index type) as [v|] eqn:Hl.
        { simpl in Hclosed. congruence. }
        apply lookup_ge_None in Hl. lia.
    + apply log_log_log.
  - intros Hpcap Hbsd Hclosed Hfd Hclose.
    rewrite (open_l2_socket_raw_opens b fuel iface s os Hpcap Hbsd Hclosed Hfd).
    unfold sender_after, os_after. cbn [fst snd].
    unfold close_socket. destruct (decide (ETHER_SOCKET = ETHER_SOCKET)) as [_|];
      [|contradiction].
    rewrite Hbsd. run_m. cbn [ether_socket_ set_ether_socket_].
    destruct (Z.eqb_spec (wrap_int (os_ret os (tick os))) INVALID_RAW_SOCKET) as [|_];
      [contradiction|].
    rewrite tick_log. cbn [os_ret log].
    destruct (Z.eqb_spec (wrap_int (os_ret os (S (tick os)))) (-1)) as [|_];
      [contradiction|].
    f_equal; [f_equal|].
    + destruct s. cbn in *. subst. reflexivity.
    + apply log_log.
Qed.

Lemma open_then_close_restores_pool_witness :
  sender_inv sender0 /\
  close_socket linux_build IP_UDP_SOCKET eth0
    (sender_after (open_l3_socket IP_UDP_SOCKET sender0 (scripted_os [5; 0; 0] [] [] [] [])))
    (os_after (open_l3_socket IP_UDP_SOCKET sender0 (scripted_os [5; 0; 0] [] [] [] [])))
  = (Ok tt, sender0,
     logs [c_socket AF_INET SOCK_RAW IPPROTO_UDP; c_setsockopt 5; c_close 5]
       (scripted_os [5; 0; 0] [] [] [] [])).
Proof.
  split; [split; reflexivity|].
  apply (proj1 (open_then_close_restores_pool linux_build 0 IP_UDP_SOCKET eth0 sender0
                  (scripted_os [5; 0; 0] [] [] [] [])));
    first [split; reflexivity | discriminate | reflexivity
          | (vm_compute; discriminate)].
Defined.

(** X8.  When the system refuses to close an open channel, [close_socket]
    fails with [socket_close_error] after that one call and the pool keeps
    the channel: the descriptor is still there for another attempt. *)
Theorem failed_close_keeps_channel
    (b : Build) (type : SocketType) (iface : NetworkInterface)
    (s : PacketSender) (os : OS) (fd : Z) :
  channel b s type iface = Some fd ->
  (type = ETHER_SOCKET -> pcap_sendpacket b = false) ->
  wrap_int (os_ret os (tick os)) = -1 ->
  close_socket b type iface s os = (Throw socket_close_error, s, log (c_close fd) os).
Proof.
  unfold channel, close_socket. intros Hch Hscope Hfail.
  destruct (decide (type = ETHER_SOCKET)) as [->|Hip].
  - rewrite (Hscope eq_refl) in Hch. destruct (bsd b).
    + run_m. rewrite Hch. run_m. rewrite Hfail. reflexivity.
    + destruct (Z.eqb_spec (ether_socket_ s) INVALID_RAW_SOCKET) as [|Hopen];
        [discriminate|]. injection Hch as <-.
      run_m. destruct (Z.eqb_spec (ether_socket_ s) INVALID_RAW_SOCKET) as [|_];
        [contradiction|]. rewrite Hfail. reflexivity.
  - destruct (decide (type = SOCKETS_END)) as [|Hkind]; [discriminate|].
    destruct (Z.eqb_spec (socket_at s type) INVALID_RAW_SOCKET) as [|Hopen];
      [discriminate|]. injection Hch as <-.
    assert ((type_index SOCKETS_END <=? type_index type)%nat = false) as Hend.
    { destruct type; try reflexivity; contradiction. }
    run_m. rewrite Hend. cbn [orb].
    destruct (Z.eqb_spec (socket_at s type) INVALID_RAW_SOCKET) as [|_];
      [contradiction|]. rewrite Hfail. reflexivity.
Qed.

Lemma failed_close_keeps_channel_witness :
  channel linux_build (set_ether_socket_ 6 sender0) ETHER_SOCKET eth0 = Some 6 /\
  close_socket linux_build ETHER_SOCKET eth0 (set_ether_socket_ 6 sender0)
    (scripted_os [-1] [] [] [] [])
  = (Throw socket_close_error, set_ether_socket_ 6 sender0,
     log (c_close 6) (scripted_os [-1] [] [] [] [])).
Proof.
  split; [reflexivity|].
  apply (failed_close_keeps_channel linux_build ETHER_SOCKET eth0
           (set_ether_socket_ 6 sender0) (scripted_os [-1] [] [] [] []) 6);
    reflexivity.
Defined.

End OpenClose.

(** ** The link-layer channel on demand *)

Section LinkLayerOnDemand.

(** X9.  On the builds that keep the link-layer channel as an OS descriptor,
    [get_ether_socket] opens it at most once: what a successful call returns
    is the pool's channel for the interface, and every later call, whatever
    the system does in between, returns the same descriptor with no system
    call and no change to the pool.  This holds on BSD too, where
    [open_l2_socket] called on its own would open a second device. *)
Theorem get_ether_socket_opens_once
    (b : Build) (fuel : nat) (iface : NetworkInterface)
    (s : PacketSender) (os : OS) (sock : Z) (s1 : PacketSender) (os1 : OS) :
  pcap_sendpacket b = false ->
  get_ether_socket b fuel iface s os = (Ok sock, s1, os1) ->
  channel b s1 ETHER_SOCKET iface = Some sock /\
  forall fuel' os2, get_ether_socket b fuel' iface s1 os2 = (Ok sock, s1, os2).
Proof.
  intros Hpcap Hget.
  pose proof (get_ether_socket_channel b fuel iface s os sock s1 os1 Hpcap Hget) as Hch.
  split; [exact Hch|].
  intros fuel' os2. apply get_ether_socket_ready; assumption.
Qed.

Lemma get_ether_socket_opens_once_witness :
  get_ether_socket bsd_build 4 eth0 sender0
    (scripted_os [3; 0; 0; 0] [0; 0; 0; 4096] [] [] [])
  = (Ok 3,
     set_ether_socket_bsd_ (<[iface_id eth0 := 3]> ∅) (set_buffer_size_ 4096 sender0),
     logs [c_open_bpf 0; c_ioctl 3 (BIOCSETIF (iface_name eth0));
           c_ioctl 3 BIOCIMMEDIATE; c_ioctl 3 BIOCGBLEN]
       (scripted_os [3; 0; 0; 0] [0; 0; 0; 4096] [] [] [])) /\
  get_ether_socket bsd_build 4 eth0
    (set_ether_socket_bsd_ (<[iface_id eth0 := 3]> ∅) (set_buffer_size_ 4096 sender0))
    (scripted_os [7] [] [] [] [])
  = (Ok 3,
     set_ether_socket_bsd_ (<[iface_id eth0 := 3]> ∅) (set_buffer_size_ 4096 sender0),
     scripted_os [7] [] [] [] []).
Proof.
  split; [reflexivity|].
  apply (proj2 (get_ether_socket_opens_once bsd_build 4 eth0 sender0
                  (scripted_os [3; 0; 0; 0] [0; 0; 0; 4096] [] [] []) 3 _ _
                  eq_refl eq_refl)).
Defined.

(** X10.  Once the link-layer channel is in the pool, every [send_l2] on a
    build without the pcap transport costs one system call, the write of the
    serialized frame on that descriptor, or none for an empty serialization;
    the pool is not touched, whether the write succeeds or fails. *)
Theorem send_l2_on_open_channel
    (b : Build) (fuel : nat) (pdu : PDU) (iface : NetworkInterface)
    (s : PacketSender) (os : OS) (sock : Z) :
  pcap_sendpacket b = false ->
  channel b s ETHER_SOCKET iface = Some sock ->
  sender_after (send_l2 b fuel pdu iface s os) = s /\
  os_after (send_l2 b fuel pdu iface s os)
  = (if bool_decide (serialize pdu = []) then os
     else log (if bsd b then c_write sock (serialize pdu)
               else c_sendto sock (serialize pdu)) os) /\
  (outcome (send_l2 b fuel pdu iface s os) = Ok tt \/
   outcome (send_l2 b fuel pdu iface s os) = Throw socket_write_error).
Proof.
  intros Hpcap Hch. unfold send_l2. rewrite Hpcap.
  rewrite (bind_ok _ _ _ _ _ _ _ (get_ether_socket_ready b fuel iface s os sock Hpcap Hch)).
  destruct (bool_decide (serialize pdu = [])); cbn [negb].
  - repeat split. left. reflexivity.
  - run_m. unfold sender_after, os_after, outcome.
    destruct (wrap_int (os_ret os (tick os)) =? -1); cbn [fst snd];
      (split; [reflexivity|]); (split; [reflexivity|]); [right|left]; reflexivity.
Qed.

Lemma send_l2_on_open_channel_witness :
  channel linux_build (set_ether_socket_ 6 sender0) ETHER_SOCKET eth0 = Some 6 /\
  os_after (send_l2 linux_build 0 picky_pdu eth0 (set_ether_socket_ 6 sender0)
              (scripted_os [3] [] [] [] []))
  = log (c_sendto 6 [1; 2; 3]) (scripted_os [3] [] [] [] []).
Proof.
  split; [reflexivity|].
  apply (proj1 (proj2 (send_l2_on_open_channel linux_build 0 picky_pdu eth0
                         (set_ether_socket_ 6 sender0) (scripted_os [3] [] [] [] [])
                         6 eq_refl eq_refl))).
Defined.

(** X11.  [send_l3] has no test for an empty serialization: whenever the
    channel of the kind is there or can be opened, exactly one [sendto] is
    made on its descriptor with the serialized bytes, empty or not, and its
    answer -1 is a [socket_write_error]; when the channel cannot be opened,
    the error of [open_l3_socket] is the outcome and nothing is sent. *)
Theorem send_l3_always_writes
    (pdu : PDU) (type : SocketType) (s : PacketSender) (os : OS) :
  (forall s1 os1,
     open_l3_socket type s os = (Ok tt, s1, os1) ->
     sender_after (send_l3 pdu type s os) = s1 /\
     os_after (send_l3 pdu type s os)
     = log (c_sendto (socket_at s1 type) (serialize pdu)) os1 /\
     (wrap_int (os_ret os1 (tick os1)) = -1 ->
      outcome (send_l3 pdu type s os) = Throw socket_write_error) /\
     (wrap_int (os_ret os1 (tick os1)) <> -1 ->
      outcome (send_l3 pdu type s os) = Ok tt)) /\
  (forall e s1 os1,
     open_l3_socket type s os = (Throw e, s1, os1) ->
     send_l3 pdu type s os = (Throw e, s, os1) /\
     writes (calls_since os os1) = [] /\
     (e = invalid_socket_type \/ e = socket_open_error)).
Proof.
  split.
  - intros s1 os1 Hopen. unfold send_l3.
    rewrite (bind_ok _ _ _ _ _ _ _ Hopen). run_m.
    unfold sender_after, os_after, outcome.
    destruct (Z.eqb_spec (wrap_int (os_ret os1 (tick os1))) (-1)) as [Hfail|Hok];
      cbn [fst snd]; (split; [reflexivity|]); (split; [reflexivity|]);
      split; intros ?; first [reflexivity | contradiction].
  - intros e s1 os1 Hopen.
    assert (s1 = s /\ writes (calls_since os os1) = [] /\
            (e = invalid_socket_type \/ e = socket_open_error)) as (-> & Hw & He).
    { revert Hopen. unfold open_l3_socket. run_m.
      destruct (find_type s type =? -1).
      - intros [= <- <- <-]. unfold calls_since. rewrite drop_all.
        split; [reflexivity|]. split; [reflexivity|]. left; reflexivity.
      - destruct (socket_at s type =? INVALID_RAW_SOCKET); [|discriminate].
        destruct (wrap_int (os_ret os (tick os)) <? 0); [|discriminate].
        intros [= <- <- <-]. rewrite log_logs, calls_since_logs.
        split; [reflexivity|]. split; [reflexivity|]. right; reflexivity. }
    split; [|split; assumption].
    unfold send_l3. apply bind_throw, Hopen.
Qed.

Lemma send_l3_always_writes_witness :
  open_l3_socket IP_RAW_SOCKET sender0 (scripted_os [5; 0; 0] [] [] [] [])
  = (Ok tt, set_sockets_ (<[type_index IP_RAW_SOCKET := 5]> (sockets_ sender0)) sender0,
     logs [c_socket AF_INET SOCK_RAW IPPROTO_RAW; c_setsockopt 5]
       (scripted_os [5; 0; 0] [] [] [] [])) /\
  os_after (send_l3 empty_pdu IP_RAW_SOCKET sender0 (scripted_os [5; 0; 0] [] [] [] []))
  = log (c_sendto 5 [])
      (logs [c_socket AF_INET SOCK_RAW IPPROTO_RAW; c_setsockopt 5]
         (scripted_os [5; 0; 0] [] [] [] [])).
Proof.
  split; [reflexivity|].
  apply (proj1 (proj2 (proj1 (send_l3_always_writes empty_pdu IP_RAW_SOCKET sender0
                                (scripted_os [5; 0; 0] [] [] [] [])) _ _ eq_refl))).
Defined.

End LinkLayerOnDemand.

(** ** Opening a capture device on BSD *)

Section CaptureDevice.

(** X12.  How [open_l2_socket] fails on BSD once a capture device has been
    opened as [sock].  Each of the three [ioctl]s answering below zero gives
    [socket_open_error] and an unchanged pool; but only a failed [BIOCSETIF]
    closes the device again.  When [BIOCIMMEDIATE] or [BIOCGBLEN] fails, no
    [close] is made and the pool does not record the descriptor: the device
    stays open and out of reach of [close_socket] and of the destructor. *)
Theorem open_l2_socket_bsd_failure_paths
    (b : Build) (fuel : nat) (iface : NetworkInterface)
    (s : PacketSender) (os : OS) (sock : Z) (s' : PacketSender) (os' : OS) :
  pcap_sendpacket b = false -> bsd b = true ->
  probe_bpf fuel 0 s os = (Ok sock, s', os') -> sock <> -1 ->
  let r1 := wrap_int (os_ret os' (tick os')) in
  let r2 := wrap_int (os_ret os' (S (tick os'))) in
  let r3 := wrap_int (os_ret os' (S (S (tick os')))) in
  let result := open_l2_socket b fuel iface s os in
  (r1 < 0 ->
   result = (Throw socket_open_error, s,
             logs [c_ioctl sock (BIOCSETIF (iface_name iface)); c_close sock] os')) /\
  (0 <= r1 -> r2 < 0 \/ r3 < 0 ->
   outcome result = Throw socket_open_error /\
   sender_after result = s /\
   c_close sock ∉ calls_since os' (os_after result)) /\
  (0 <= r1 -> 0 <= r2 -> 0 <= r3 ->
   outcome result = Ok tt /\
   channel b (sender_after result) ETHER_SOCKET iface = Some sock /\
   buffer_size_ (sender_after result) = os_out os' (S (S (tick os'))) /\
   forall other, iface_id other <> iface_id iface ->
     channel b (sender_after result) ETHER_SOCKET other
     = channel b s ETHER_SOCKET other).
Proof.
  intros Hpcap Hbsd Hprobe Hsock r1 r2 r3 result.
  assert (s' = s) as ->.
  { pose proof (probe_bpf_sender fuel 0 s os) as H. rewrite Hprobe in H. exact H. }
  pose proof (open_l2_socket_bsd_after_probe b fuel iface s os sock s os'
                Hpcap Hbsd Hprobe Hsock) as Hshape.
  fold r1 r2 r3 result in Hshape.
  split; [|split].
  - intros H1. rewrite Hshape.
    destruct (Z.ltb_spec r1 0) as [_|]; [reflexivity|lia].
  - intros H1 H23. rewrite Hshape.
    destruct (Z.ltb_spec r1 0) as [|_]; [lia|].
    destruct (Z.ltb_spec r2 0) as [_|H2].
    + unfold outcome, sender_after, os_after. cbn [fst snd].
      rewrite calls_since_logs. repeat split.
      intros Hin.
      repeat (apply elem_of_cons in Hin as [Hin|Hin]; [discriminate Hin|]).
      apply elem_of_nil in Hin. exact Hin.
    + destruct (Z.ltb_spec r3 0) as [_|]; [|lia].
      unfold outcome, sender_after, os_after. cbn [fst snd].
      rewrite calls_since_logs. repeat split.
      intros Hin.
      repeat (apply elem_of_cons in Hin as [Hin|Hin]; [discriminate Hin|]).
      apply elem_of_nil in Hin. exact Hin.
  - intros H1 H2 H3. rewrite Hshape.
    destruct (Z.ltb_spec r1 0) as [|_]; [lia|].
    destruct (Z.ltb_spec r2 0) as [|_]; [lia|].
    destruct (Z.ltb_spec r3 0) as [|_]; [lia|].
    unfold outcome, sender_after, os_after, channel. cbn [fst snd].
    rewrite Hpcap, Hbsd.
    destruct (decide (ETHER_SOCKET = ETHER_SOCKET)) as [_|]; [|contradiction].
    cbn. rewrite lookup_insert_eq. repeat split.
    intros other Hother. rewrite lookup_insert_ne by congruence. reflexivity.
Qed.

Lemma open_l2_socket_bsd_failure_paths_witness :
  outcome (open_l2_socket bsd_build 4 eth0 sender0
             (scripted_os [3; 0; -1] [] [] [] []))
  = Throw socket_open_error /\
  sender_after (open_l2_socket bsd_build 4 eth0 sender0
                  (scripted_os [3; 0; -1] [] [] [] [])) = sender0 /\
  c_close 3 ∉ calls_since (log (c_open_bpf 0) (scripted_os [3; 0; -1] [] [] [] []))
                (os_after (open_l2_socket bsd_build 4 eth0 sender0
                             (scripted_os [3; 0; -1] [] [] [] []))).
Proof.
  apply (proj1 (proj2 (open_l2_socket_bsd_failure_paths bsd_build 4 eth0 sender0
                         (scripted_os [3; 0; -1] [] [] [] []) 3 sender0
                         (log (c_open_bpf 0) (scripted_os [3; 0; -1] [] [] [] []))
                         eq_refl eq_refl eq_refl ltac:(discriminate)))).
  - vm_compute. discriminate.
  - left. vm_compute. reflexivity.
Defined.

(** X13.  On BSD [open_l2_socket] asks for the capture devices [/dev/bpf0],
    [/dev/bpf1], ... in ascending order, skipping each one whose [open]
    answers -1, and takes the first that opens; with the three [ioctl]s
    answering zero or more, the calls made are exactly those probes followed
    by [BIOCSETIF] for the interface's name, [BIOCIMMEDIATE] and [BIOCGBLEN]
    on the new descriptor, which becomes the interface's channel. *)
Theorem open_l2_socket_bsd_probes_in_order
    (b : Build) (fuel k : nat) (iface : NetworkInterface)
    (s : PacketSender) (os : OS) :
  pcap_sendpacket b = false -> bsd b = true ->
  (k < fuel)%nat -> Z.of_nat k <= INT_MAX ->
  (forall j, (j < k)%nat -> wrap_int (os_ret os (tick os + j)%nat) = -1) ->
  wrap_int (os_ret os (tick os + k)%nat) <> -1 ->
  (forall j, (k < j <= k + 3)%nat -> 0 <= wrap_int (os_ret os (tick os + j)%nat)) ->
  let sock := wrap_int (os_ret os (tick os + k)%nat) in
  let result := open_l2_socket b fuel iface s os in
  outcome result = Ok tt /\
  calls_since os (os_after result)
  = bpf_probes (S k) ++ [c_ioctl sock (BIOCSETIF (iface_name iface));
                         c_ioctl sock BIOCIMMEDIATE; c_ioctl sock BIOCGBLEN] /\
  channel b (sender_after result) ETHER_SOCKET iface = Some sock.
Proof.
  intros Hpcap Hbsd Hfuel Hmax Hbusy Hfree Hioctl sock result.
  pose proof (probe_bpf_from k fuel 0 s os Hfuel ltac:(lia) ltac:(lia) Hbusy Hfree)
    as Hprobe.
  fold sock in Hprobe, Hfree.
  pose proof (open_l2_socket_bsd_after_probe b fuel iface s os sock s _
                Hpcap Hbsd Hprobe Hfree) as Hshape.
  fold result in Hshape. rewrite Hshape.
  rewrite !tick_logs, !os_ret_logs, length_map, length_seq.
  pose proof (Hioctl (S k) ltac:(lia)) as H1.
  pose proof (Hioctl (S (S k)) ltac:(lia)) as H2.
  pose proof (Hioctl (S (S (S k))) ltac:(lia)) as H3.
  replace (S (tick os + S k)) with (tick os + S (S k))%nat by lia.
  replace (S (tick os + S (S k))) with (tick os + S (S (S k)))%nat by lia.
  destruct (Z.ltb_spec (wrap_int (os_ret os (tick os + S k)%nat)) 0) as [|_]; [lia|].
  destruct (Z.ltb_spec (wrap_int (os_ret os (tick os + S (S k))%nat)) 0) as [|_]; [lia|].
  destruct (Z.ltb_spec (wrap_int (os_ret os (tick os + S (S (S k)))%nat)) 0) as [|_];
    [lia|].
  unfold outcome, sender_after, os_after, channel. cbn [fst snd].
  rewrite Hpcap, Hbsd, logs_logs, calls_since_logs.
  destruct (decide (ETHER_SOCKET = ETHER_SOCKET)) as [_|]; [|contradiction].
  split; [reflexivity|]. split.
  - reflexivity.
  - cbn. rewrite lookup_insert_eq. reflexivity.
Qed.

Lemma open_l2_socket_bsd_probes_in_order_witness :
  calls_since (scripted_os [-1; -1; 9; 0; 0; 0] [] [] [] [])
    (os_after (open_l2_socket bsd_build 5 eth0 sender0
                 (scripted_os [-1; -1; 9; 0; 0; 0] [] [] [] [])))
  = [c_open_bpf 0; c_open_bpf 1; c_open_bpf 2;
     c_ioctl 9 (BIOCSETIF (iface_name eth0)); c_ioctl 9 BIOCIMMEDIATE;
     c_ioctl 9 BIOCGBLEN].
Proof.
  refine (proj1 (proj2 (open_l2_socket_bsd_probes_in_order bsd_build 5 2 eth0 sender0
                         (scripted_os [-1; -1; 9; 0; 0; 0] [] [] [] [])
                         eq_refl eq_refl ltac:(lia) ltac:(vm_compute; discriminate)
                         _ _ _))).
  - intros j Hj. destruct j as [|[|j]]; [reflexivity|reflexivity|lia].
  - vm_compute. discriminate.
  - intros j Hj. destruct j as [|[|[|[|[|[|j]]]]]]; try lia; vm_compute; discriminate.
Defined.

End CaptureDevice.

(** ** The receive loop: what it calls *)

Section LoopFootprint.

Variable b : Build.
Variable abi : BpfAbi.
Variable pdu : PDU.
Variable wfuel : nat.
Variable sockets : list Z.

Section Footprint.

Variable Q : call -> Prop.
Hypothesis Q_clock : Q c_gettimeofday.
Hypothesis Q_wait : forall t, Q (c_select (max_fd sockets + 1) sockets t).
Hypothesis Q_read :
  forall fd, fd ∈ sockets -> Q (if bsd b then c_read fd else c_recvfrom fd).
Hypothesis Q_test : forall mem size, Q (c_matches_response mem size).

Lemma bpf_walk_footprint fuel buf size ptr os :
  exists cs, (bpf_walk abi pdu fuel buf size ptr os).2 = logs cs os /\ Forall Q cs.
Proof.
  revert ptr os. induction fuel as [|fuel IH]; intros ptr os; simpl.
  - exists []. rewrite logs_nil. split; [reflexivity|constructor].
  - destruct (ptr <? size).
    + unfold test_candidate. destruct (matches_response pdu _ _).
      * eexists [_]. split; [reflexivity|]. repeat constructor. apply Q_test.
      * match goal with |- context [bpf_walk _ _ _ _ _ ?p ?o] =>
          destruct (IH p o) as (cs & E & Hcs) end.
        rewrite E, log_logs, logs_logs. eexists. split; [reflexivity|].
        apply Forall_app. split; [|exact Hcs]. repeat constructor. apply Q_test.
    + exists []. rewrite logs_nil. split; [reflexivity|constructor].
Qed.

Lemma recv_one_footprint cap fd buf os :
  fd ∈ sockets ->
  exists cs, (recv_one b abi pdu wfuel cap fd buf os).2 = logs cs os /\ Forall Q cs.
Proof.
  intros Hfd. pose proof (Q_read fd Hfd) as Hread.
  unfold recv_one in *. destruct (bsd b).
  - destruct (deliver _ cap buf) as [size buf1].
    destruct (bpf_walk_footprint wfuel buf1 size 0 (log (c_read fd) os))
      as (cs & E & Hcs).
    destruct (bpf_walk _ _ _ _ _ _ _) as [r os2]. simpl in *. subst os2.
    rewrite log_logs, logs_logs. eexists. split; [reflexivity|].
    apply Forall_app. split; [|exact Hcs]. repeat constructor. exact Hread.
  - destruct (deliver _ cap buf) as [size buf1]. unfold test_candidate.
    destruct (matches_response pdu buf1 size); simpl;
      rewrite !log_logs, logs_logs; eexists; (split; [reflexivity|]);
      repeat constructor; solve [exact Hread | apply Q_test].
Qed.

Lemma recv_ready_footprint cap readfds socks buf os :
  socks ⊆ sockets ->
  exists cs, (recv_ready b abi pdu wfuel cap readfds socks buf os).2 = logs cs os /\
             Forall Q cs.
Proof.
  revert buf os. induction socks as [|fd rest IH]; intros buf os Hsub; simpl.
  - exists []. rewrite logs_nil. split; [reflexivity|constructor].
  - assert (fd ∈ sockets) as Hfd by (apply Hsub; left).
    assert (rest ⊆ sockets) as Hrest by (intros x Hx; apply Hsub; right; exact Hx).
    destruct (bool_decide (fd ∈ readfds)); [|apply IH; exact Hrest].
    destruct (recv_one_footprint cap fd buf os Hfd) as (cs & E & Hcs).
    destruct (recv_one b abi pdu wfuel cap fd buf os) as [[r buf1] os1].
    simpl in E. subst os1.
    destruct r as [[reply|]|].
    + exists cs. split; [reflexivity|assumption].
    + destruct (IH buf1 (logs cs os) Hrest) as (cs' & E' & Hcs').
      rewrite E', logs_logs. eexists. split; [reflexivity|].
      apply Forall_app. split; assumption.
    + exists cs. split; [reflexivity|assumption].
Qed.

Lemma wait_and_read_footprint cap st os :
  exists cs, (wait_and_read b abi pdu wfuel cap sockets st os).2 = logs cs os /\
             Forall Q cs.
Proof.
  unfold wait_and_read, sys_int.
  destruct (wrap_int (os_ret os (tick os)) =? -1).
  { eexists [_]. split; [reflexivity|]. repeat constructor. apply Q_wait. }
  destruct (0 <? wrap_int (os_ret os (tick os))).
  - match goal with |- context [recv_ready _ _ _ _ _ ?r ?s ?bf ?o] =>
      destruct (recv_ready_footprint cap r s bf o ltac:(reflexivity)) as (cs & E & Hcs);
      destruct (recv_ready b abi pdu wfuel cap r s bf o) as [[res buf1] os2] end.
    simpl in E. subst os2. rewrite log_logs, logs_logs.
    eexists. destruct res as [[reply|]|]; (split; [reflexivity|]);
      (apply Forall_app; split; [|exact Hcs]); repeat constructor; apply Q_wait.
  - eexists [_]. split; [reflexivity|]. repeat constructor. apply Q_wait.
Qed.

Lemma loop_footprint cap fuel st os :
  exists cs, (loop b abi pdu wfuel cap sockets fuel st os).2 = logs cs os /\
             Forall Q cs.
Proof.
  revert st os. induction fuel as [|fuel IH]; intros st os.
  { exists []. simpl. rewrite logs_nil. split; [reflexivity|constructor]. }
  rewrite loop_unfold. unfold loop_body.
  destruct (wait_and_read_footprint cap st os) as (cs & E & Hcs).
  destruct (wait_and_read b abi pdu wfuel cap sockets st os) as [w os1].
  simpl in E. subst os1. destruct w as [|reply|buffer1|].
  - exists cs. split; [reflexivity|exact Hcs].
  - exists cs. split; [reflexivity|exact Hcs].
  - unfold check_deadline.
    destruct (timeval_subtract _ _) as [[diff y2] expired].
    destruct expired.
    + cbn [snd]. rewrite log_logs, logs_logs. eexists. split; [reflexivity|].
      apply Forall_app. split; [exact Hcs|]. repeat constructor. exact Q_clock.
    + match goal with |- context [loop _ _ _ _ _ _ _ ?st' ?os'] =>
        destruct (IH st' os') as (cs' & E' & Hcs') end.
      rewrite E', log_logs, !logs_logs. eexists. split; [reflexivity|].
      rewrite !Forall_app. repeat split; try assumption.
      repeat constructor. exact Q_clock.
  - exists cs. split; [reflexivity|exact Hcs].
Qed.

End Footprint.

End LoopFootprint.

Lemma recv_match_loop_footprint b abi s pdu wfuel fuel scratch sockets os :
  exists cs,
    (recv_match_loop b abi s pdu wfuel fuel scratch sockets os).2
    = logs (c_time :: cs) os /\
    Forall (receive_call_on b sockets) cs.
Proof.
  unfold recv_match_loop. cbv zeta.
  match goal with |- context [loop _ _ _ _ ?c _ _ ?st ?os'] =>
    destruct (loop_footprint b abi pdu wfuel sockets (receive_call_on b sockets)
                I (fun t => conj eq_refl eq_refl)
                ltac:(intros fd Hfd; cbn; destruct (bsd b) eqn:E; cbn; rewrite ?E; auto)
                (fun _ _ => I) c fuel st os')
      as (cs & E & Hcs) end.
  exists cs. rewrite E, log_logs, logs_logs. split; [reflexivity|exact Hcs].
Qed.

(** X14.  Whatever the system answers, [recv_match_loop] reads the clock
    once with [time], and after that does nothing but wait with [select] on
    exactly the descriptors it was given (with [nfds] their maximum plus one),
    read descriptors of that list with the read call of the build, show
    candidates to the matcher and read the clock with [gettimeofday]: it
    sends nothing, and it opens or closes no descriptor. *)
Theorem recv_match_loop_touches_only_its_descriptors
    (b : Build) (abi : BpfAbi) (s : PacketSender) (pdu : PDU)
    (wfuel fuel : nat) (scratch sockets : list Z) (os : OS) :
  exists cs,
    calls_since os (recv_match_loop b abi s pdu wfuel fuel scratch sockets os).2
    = c_time :: cs /\
    Forall (receive_call_on b sockets) cs /\
    writes cs = [] /\
    Forall (fun fd => fd ∈ sockets) (reads cs).
Proof.
  destruct (recv_match_loop_footprint b abi s pdu wfuel fuel scratch sockets os)
    as (cs & E & Hcs).
  exists cs. rewrite E, calls_since_logs. split; [reflexivity|].
  split; [exact Hcs|]. split.
  - apply writes_none. eapply Forall_impl; [exact Hcs|].
    intros c Hc. destruct c; try reflexivity; destruct Hc.
  - unfold reads. clear E. induction Hcs as [|c cs Hc _ IH]; [constructor|].
    destruct c; cbn; try exact IH; constructor; solve [exact IH | apply Hc].
Qed.


(** ** The receive loop: one iteration's reads *)

Section IterationReads.

Variable b : Build.
Variable abi : BpfAbi.
Variable pdu : PDU.
Variable wfuel : nat.

Lemma reads_app cs1 cs2 : reads (cs1 ++ cs2) = reads cs1 ++ reads cs2.
Proof. apply omap_app. Qed.

Lemma verdict_after cs1 cs2 r :
  all_rejected pdu cs1 -> verdict pdu cs2 r -> verdict pdu (cs1 ++ cs2) r.
Proof.
  intros H1 H2. destruct r as [reply|]; cbn in *.
  - destruct H2 as (cs' & sp & -> & Hrej & Hacc & Hreply).
    exists (cs1 ++ cs'), sp. rewrite app_assoc. split; [reflexivity|].
    split; [apply Forall_app; split; assumption|]. split; assumption.
  - apply Forall_app. split; assumption.
Qed.

Lemma bpf_walk_verdict fuel buf size ptr os :
  exists cs,
    (bpf_walk abi pdu fuel buf size ptr os).2 = logs cs os /\
    reads cs = [] /\
    verdict pdu cs (run_reply (bpf_walk abi pdu fuel buf size ptr os).1).
Proof.
  revert ptr os. induction fuel as [|fuel IH]; intros ptr os; simpl.
  - exists []. rewrite logs_nil. repeat split. constructor.
  - destruct (ptr <? size).
    + unfold test_candidate.
      destruct (matches_response pdu _ _) eqn:Hhit.
      * eexists [_]. split; [reflexivity|]. split; [reflexivity|].
        cbn [fst run_reply verdict].
        eexists [], (_, _). split; [reflexivity|]. split; [constructor|].
        split; [exact Hhit|reflexivity].
      * match goal with |- context [bpf_walk _ _ _ _ _ ?p ?o] =>
          destruct (IH p o) as (cs & E & Hreads & Hverdict);
          destruct (bpf_walk abi pdu fuel buf size p o) as [r os2] end.
        cbn [fst snd] in *. subst os2.
        rewrite log_logs, logs_logs. eexists. split; [reflexivity|].
        split; [rewrite reads_app, Hreads; reflexivity|].
        apply verdict_after; [|exact Hverdict].
        repeat constructor. exact Hhit.
    + exists []. rewrite logs_nil. repeat split. constructor.
Qed.

Lemma recv_one_verdict cap fd buf os :
  exists cs,
    (recv_one b abi pdu wfuel cap fd buf os).2 = logs cs os /\
    reads cs = [fd] /\
    verdict pdu cs (run_reply (recv_one b abi pdu wfuel cap fd buf os).1.1).
Proof.
  unfold recv_one. destruct (bsd b).
  - destruct (deliver _ cap buf) as [size buf1].
    destruct (bpf_walk_verdict wfuel buf1 size 0 (log (c_read fd) os))
      as (cs & E & Hreads & Hverdict).
    destruct (bpf_walk _ _ _ _ _ _ _) as [r os2]. cbn [fst snd] in *. subst os2.
    rewrite log_logs, logs_logs. eexists. split; [reflexivity|].
    split; [rewrite reads_app, Hreads; reflexivity|].
    apply verdict_after; [|exact Hverdict]. repeat constructor.
  - destruct (deliver _ cap buf) as [size buf1]. unfold test_candidate.
    destruct (matches_response pdu buf1 size) eqn:Hhit; cbn [fst snd];
      rewrite !log_logs, logs_logs; eexists; (split; [reflexivity|]);
      (split; [reflexivity|]); cbn [run_reply verdict].
    + eexists [_], (_, _). split; [reflexivity|]. split; [repeat constructor|].
      split; [exact Hhit|reflexivity].
    + repeat constructor. exact Hhit.
Qed.

Lemma recv_ready_verdict cap readfds socks buf os :
  let ready := filter (fun fd => fd ∈ readfds) socks in
  let result := recv_ready b abi pdu wfuel cap readfds socks buf os in
  exists cs,
    result.2 = logs cs os /\
    verdict pdu cs (run_reply result.1.1) /\
    (result.1.1 = Done None -> reads cs = ready) /\
    (result.1.1 <> Done None -> reads_stop_within ready cs).
Proof.
  revert buf os. induction socks as [|fd rest IH]; intros buf os; cbn zeta.
  - exists []. cbn. rewrite logs_nil. split; [reflexivity|].
    split; [constructor|]. split; [reflexivity|]. intros H. contradiction.
  - cbn [recv_ready]. destruct (decide (fd ∈ readfds)) as [Hin|Hout].
    + rewrite bool_decide_eq_true_2, filter_cons_True by exact Hin.
      destruct (recv_one_verdict cap fd buf os) as (cs & E & Hreads & Hverdict).
      destruct (recv_one b abi pdu wfuel cap fd buf os) as [[r buf1] os1].
      cbn [fst snd] in *. subst os1.
      destruct r as [[reply|]|].
      * exists cs. cbn [fst snd]. split; [reflexivity|]. split; [exact Hverdict|].
        split; [discriminate|]. intros _.
        exists [], fd, (filter (fun fd => fd ∈ readfds) rest).
        split; [reflexivity|exact Hreads].
      * destruct (IH buf1 (logs cs os)) as (cs' & E' & Hverdict' & Hall & Hstop).
        exists (cs ++ cs'). rewrite E', logs_logs. split; [reflexivity|].
        split; [apply verdict_after; assumption|].
        split.
        -- intros Hdone. rewrite reads_app, Hreads. cbn. f_equal. apply Hall, Hdone.
        -- intros Hnot. destruct (Hstop Hnot) as (before & fd' & later & Hready & Hcs').
           exists (fd :: before), fd', later. rewrite reads_app, Hreads, Hcs', Hready.
           split; reflexivity.
      * exists cs. cbn [fst snd]. split; [reflexivity|]. split; [exact Hverdict|].
        split; [discriminate|]. intros _.
        exists [], fd, (filter (fun fd => fd ∈ readfds) rest).
        split; [reflexivity|exact Hreads].
    + rewrite bool_decide_eq_false_2, filter_cons_False by exact Hout. apply IH.
Qed.

(** X15.  One iteration of the loop, from its [select] to the end of its
    reads.  When [select] answers zero or less, no descriptor is read and the
    matcher is shown nothing.  When it answers more than zero, the
    descriptors read are those of the list that [select] left set, each
    once and in the order of the list.  With nothing accepted all of them
    are read, and every candidate shown was rejected.  With a reply, the
    reads stop at one of them and the last call of the iteration is the test
    of the accepted candidate, the only one accepted: no descriptor is read
    and nothing is tested after it, and the reply is built from it. *)
Theorem iteration_reads_ready_descriptors
    (cap : Z) (sockets : list Z) (st : LoopState) (os : OS) :
  let answer := wrap_int (os_ret os (tick os)) in
  let ready := filter (fun fd => fd ∈ os_ready os (tick os)) sockets in
  let after := wait_and_read b abi pdu wfuel cap sockets st os in
  exists cs,
    calls_since os after.2
    = c_select (max_fd sockets + 1) sockets (timeout st) :: cs /\
    (answer <= 0 -> cs = [] /\ found_reply after.1 = None) /\
    (0 < answer ->
     verdict pdu cs (found_reply after.1) /\
     (forall buffer1, after.1 = NotFound buffer1 -> reads cs = ready) /\
     (forall reply, after.1 = Found reply -> reads_stop_within ready cs) /\
     (after.1 = WalkSpin -> reads_stop_within ready cs) /\
     after.1 <> WaitFailed).
Proof.
  intros answer ready after. subst after. unfold wait_and_read, sys_int.
  fold answer.
  destruct (Z.eqb_spec answer (-1)) as [Hfail|Hnot].
  { exists []. cbn [fst snd]. rewrite log_logs, calls_since_logs.
    split; [reflexivity|]. split; [split; reflexivity|]. intros; lia. }
  destruct (Z.ltb_spec 0 answer) as [Hpos|Hnone].
  - match goal with |- context [recv_ready _ _ _ _ _ ?r ?s ?bf ?o] =>
      destruct (recv_ready_verdict cap r s bf o) as (cs & E & Hverdict & Hall & Hstop);
      destruct (recv_ready b abi pdu wfuel cap r s bf o) as [[res buf1] os2] end.
    cbn [fst snd] in E, Hverdict, Hall, Hstop. subst os2. exists cs.
    destruct res as [[reply|]|]; cbn [fst snd found_reply run_reply] in *;
      rewrite log_logs, logs_logs, calls_since_logs;
      (split; [reflexivity|]); (split; [intros; lia|]); intros _;
      (split; [exact Hverdict|]).
    + split; [discriminate|]. split; [intros ? _; apply Hstop; discriminate|].
      split; discriminate.
    + split; [intros ? _; apply Hall; reflexivity|].
      split; [discriminate|]. split; discriminate.
    + split; [discriminate|]. split; [discriminate|].
      split; [intros _; apply Hstop; discriminate|discriminate].
  - exists []. cbn [fst snd]. rewrite log_logs, calls_since_logs.
    split; [reflexivity|]. split; [split; reflexivity|]. intros; lia.
Qed.

End IterationReads.

Lemma iteration_reads_ready_descriptors_witness :
  (wait_and_read linux_build freebsd_abi credulous_pdu 0 2048 [5; 6; 7]
     {| timeout := Timeval 2 0; end_time := Timeval 102 0; buffer := [] |}
     (scripted_os [2] [] [[7; 5]] [None; None; None] [])).1
  = Found (pdu_from_flag (pdu_type credulous_pdu) [] (-1)) /\
  reads_stop_within [5; 7]
    (calls_since (log (c_select 8 [5; 6; 7] (Timeval 2 0))
                    (scripted_os [2] [] [[7; 5]] [None; None; None] []))
       (wait_and_read linux_build freebsd_abi credulous_pdu 0 2048 [5; 6; 7]
          {| timeout := Timeval 2 0; end_time := Timeval 102 0; buffer := [] |}
          (scripted_os [2] [] [[7; 5]] [None; None; None] [])).2) /\
  calls_since (log (c_select 8 [5; 6; 7] (Timeval 2 0))
                 (scripted_os [2] [] [[7; 5]] [None; None; None] []))
    (wait_and_read linux_build freebsd_abi credulous_pdu 0 2048 [5; 6; 7]
       {| timeout := Timeval 2 0; end_time := Timeval 102 0; buffer := [] |}
       (scripted_os [2] [] [[7; 5]] [None; None; None] [])).2
  = [c_recvfrom 5; c_matches_response [] (-1)].
Proof.
  split; [reflexivity|]. split; [|reflexivity].
  destruct (iteration_reads_ready_descriptors linux_build freebsd_abi credulous_pdu 0
              2048 [5; 6; 7]
              {| timeout := Timeval 2 0; end_time := Timeval 102 0; buffer := [] |}
              (scripted_os [2] [] [[7; 5]] [None; None; None] []))
    as (cs & E & _ & Hpos).
  destruct (Hpos ltac:(vm_compute; reflexivity)) as (_ & _ & Hstop & _).
  assert (cs = [c_recvfrom 5; c_matches_response [] (-1)]) as ->.
  { vm_compute in E. injection E as <-. reflexivity. }
  apply (Hstop _ eq_refl).
Defined.

(** ** The receive loop: how long it waits *)

Section WaitBounds.

Variable b : Build.
Variable abi : BpfAbi.
Variable pdu : PDU.
Variable wfuel : nat.
Variable sockets : list Z.

(** With the clock never before the deadline less [C], no wait is longer
    than [C]. *)
Lemma loop_waits_bounded (C cap : Z) fuel st os :
  clock_sane os ->
  deadline_range (end_time st) -> 0 <= tv_usec (end_time st) <= INT_MAX ->
  (forall n, micros (end_time st) - C <= micros (os_now os n)) ->
  0 <= micros (timeout st) <= C ->
  exists cs, (loop b abi pdu wfuel cap sockets fuel st os).2 = logs cs os /\
             Forall (fun t => 0 <= micros t <= C) (select_timeouts cs).
Proof.
  revert st os. induction fuel as [|fuel IH]; intros st os Hclock Hend Hendu Hnot Ht.
  { exists []. simpl. rewrite logs_nil. split; [reflexivity|constructor]. }
  rewrite loop_unfold. unfold loop_body.
  destruct (wait_and_read_calls b abi pdu wfuel cap sockets st os) as (cs & E & Hsel).
  assert (Forall (fun t => 0 <= micros t <= C)
            (select_timeouts
               (c_select (max_fd sockets + 1) sockets (timeout st) :: cs))) as Hfirst.
  { simpl. rewrite Hsel. repeat constructor; lia. }
  destruct (wait_and_read b abi pdu wfuel cap sockets st os) as [w os1].
  simpl in E. subst os1. destruct w as [|reply|buffer1|].
  - eexists. split; [reflexivity|exact Hfirst].
  - eexists. split; [reflexivity|exact Hfirst].
  - set (os1 := logs (c_select (max_fd sockets + 1) sockets (timeout st) :: cs) os) in *.
    assert (clock_sane os1) as Hclock1 by exact Hclock.
    destruct (Hclock1 (tick os1)) as [Hnorm Hrange].
    destruct (timeval_subtract_exact _ _ Hend Hendu Hnorm Hrange)
      as (Hdiff & Husec & _ & Hflag).
    destruct (subtract_expired (end_time st) (os_now os1 (tick os1))) eqn:Hexp.
    + rewrite check_deadline_expired by exact Hexp.
      subst os1. rewrite log_logs, logs_logs. eexists. split; [reflexivity|].
      rewrite select_timeouts_app. simpl. rewrite app_nil_r. exact Hfirst.
    + rewrite check_deadline_remaining by exact Hexp.
      symmetry in Hflag. apply Z.ltb_ge in Hflag.
      destruct (IH {| timeout := subtract_result (end_time st) (os_now os1 (tick os1));
                      end_time := end_time st; buffer := buffer1 |}
                  (log c_gettimeofday os1)) as (cs' & E' & Hrest);
        [exact Hclock1|exact Hend|exact Hendu|exact Hnot| |].
      { cbn [timeout]. rewrite Hdiff. split.
        - rewrite <- Hdiff. unfold micros. lia.
        - pose proof (Hnot (tick os1)) as Hn. change (os_now os1) with (os_now os). lia. }
      rewrite E'. subst os1. rewrite log_logs, !logs_logs.
      eexists. split; [reflexivity|].
      rewrite !select_timeouts_app. simpl. rewrite Hsel. simpl.
      constructor; [lia|exact Hrest].
  - eexists. split; [reflexivity|exact Hfirst].
Qed.

End WaitBounds.

(** X16.  With a clock that never shows a time before the second in which
    the call started, no [select] of [recv_match_loop] is given a timeout
    longer than the configured one, and none a negative one: every wait of a
    call is between zero and the configured timeout. *)
Theorem recv_match_loop_waits_within_configured
    (b : Build) (abi : BpfAbi) (s : PacketSender) (pdu : PDU)
    (wfuel fuel : nat) (scratch sockets : list Z) (os : OS) :
  clock_sane os ->
  0 <= _timeout s <= UINT32_MAX -> 0 <= timeout_usec_ s <= INT_MAX ->
  clock_not_before os (tv_sec (os_now os (tick os))) ->
  Forall (within_configured s)
    (select_timeouts
       (calls_since os (recv_match_loop b abi s pdu wfuel fuel scratch sockets os).2)).
Proof.
  intros Hclock Ht Hu Hnot. unfold recv_match_loop. cbv zeta.
  destruct (Hclock (tick os)) as [_ Hnow]. unfold clock_range in Hnow.
  unfold UINT32_MAX, INT_MAX in *.
  match goal with |- context [loop _ _ _ _ ?c _ _ ?st ?os'] =>
    destruct (loop_waits_bounded b abi pdu wfuel sockets (configured_micros s)
                c fuel st os')
      as (cs & E & Hcs) end;
    cbn [end_time timeout tv_sec tv_usec].
  - exact Hclock.
  - unfold deadline_range. cbn [end_time tv_sec].
    rewrite wrap_long_small by long_range. lia.
  - unfold INT_MAX. lia.
  - intros n. pose proof (Hnot n) as Hn. unfold micros, configured_micros in *.
    cbn [tv_sec tv_usec]. rewrite wrap_long_small by long_range.
    change (os_now (log c_time os)) with (os_now os). lia.
  - unfold micros, configured_micros. cbn [tv_sec tv_usec]. lia.
  - rewrite E, log_logs, logs_logs, calls_since_logs. exact Hcs.
Qed.

Lemma recv_match_loop_waits_within_configured_witness :
  select_timeouts
    (calls_since ticking_os
       (recv_match_loop linux_build freebsd_abi sender0 deaf_pdu 0 5 [] [5]
          ticking_os).2)
  = [Timeval 2 0; Timeval 0 0] /\
  Forall (within_configured sender0)
    (select_timeouts
       (calls_since ticking_os
          (recv_match_loop linux_build freebsd_abi sender0 deaf_pdu 0 5 [] [5]
             ticking_os).2)).
Proof.
  split; [reflexivity|].
  apply (recv_match_loop_waits_within_configured linux_build freebsd_abi sender0
           deaf_pdu 0 5 [] [5] ticking_os).
  - intros n. unfold ticking_os, normalized, clock_range. cbn. lia.
  - vm_compute. split; discriminate.
  - vm_compute. split; discriminate.
  - intros n. unfold ticking_os, micros. cbn. lia.
Defined.

(** X17.  The deadline is the whole second [time(0)] shows plus the
    configured timeout: the part of that second already gone when the call
    starts is counted against the timeout.  When the first [select] reports
    nothing and the clock is then past that deadline, the call gives up with
    no reply after this one wait, however little time has passed since it
    started. *)
Theorem recv_match_loop_deadline_from_whole_second
    (b : Build) (abi : BpfAbi) (s : PacketSender) (pdu : PDU)
    (wfuel fuel : nat) (scratch sockets : list Z) (os : OS) :
  clock_sane os ->
  0 <= _timeout s <= UINT32_MAX -> 0 <= timeout_usec_ s <= INT_MAX ->
  wrap_int (os_ret os (S (tick os))) = 0 ->
  tv_sec (os_now os (tick os)) * 1000000 + configured_micros s
    < micros (os_now os (S (S (tick os)))) ->
  recv_match_loop b abi s pdu wfuel (S fuel) scratch sockets os
  = (Done None,
     logs [c_time;
           c_select (max_fd sockets + 1) sockets
             (Timeval (_timeout s) (timeout_usec_ s));
           c_gettimeofday] os).
Proof.
  intros Hclock Ht Hu Hsel Hlate. unfold recv_match_loop. cbv zeta.
  rewrite loop_unfold. unfold loop_body, wait_and_read, sys_int.
  rewrite tick_log. cbn [os_ret os_ready log timeout buffer]. rewrite Hsel.
  change (0 =? -1) with false. change (0 <? 0) with false. cbv iota.
  destruct (Hclock (tick os)) as [_ Hnow].
  destruct (Hclock (S (S (tick os)))) as [Hnorm Hrange].
  unfold clock_range, UINT32_MAX, INT_MAX in *.
  rewrite check_deadline_expired.
  - rewrite !log_logs, !logs_logs. reflexivity.
  - rewrite !tick_log. cbn [os_now log end_time].
    rewrite wrap_long_small by long_range.
    match goal with |- subtract_expired ?x ?y = true =>
      destruct (timeval_subtract_exact x y) as (Hdiff & Husec & _ & ->) end.
    + unfold deadline_range. cbn [tv_sec]. lia.
    + cbn [tv_usec]. unfold INT_MAX. lia.
    + exact Hnorm.
    + exact Hrange.
    + apply Z.ltb_lt. unfold micros, configured_micros in *.
      cbn [tv_sec tv_usec] in *. lia.
Qed.

Lemma recv_match_loop_deadline_from_whole_second_witness :
  micros (os_now mid_second_os 2) - micros (os_now mid_second_os 0) = 10 /\
  configured_micros half_second_sender = 500000 /\
  recv_match_loop linux_build freebsd_abi half_second_sender deaf_pdu 0 1 [] [5]
    mid_second_os
  = (Done None,
     logs [c_time; c_select 6 [5] (Timeval 0 500000); c_gettimeofday] mid_second_os).
Proof.
  split; [reflexivity|]. split; [reflexivity|].
  apply (recv_match_loop_deadline_from_whole_second linux_build freebsd_abi
           half_second_sender deaf_pdu 0 0 [] [5] mid_second_os).
  - intros n. unfold mid_second_os, scripted_os, normalized, clock_range. simpl.
    do 3 (destruct n as [|n]; [simpl; lia|]). destruct n; simpl; lia.
  - vm_compute. split; discriminate.
  - vm_compute. split; discriminate.
  - reflexivity.
  - vm_compute. reflexivity.
Defined.

(** ** The receive entry points *)

Section ReceiveEntryPoints.

Variable b : Build.
Variable abi : BpfAbi.
Variable pdu : PDU.
Variables wfuel lfuel : nat.
Variable scratch : list Z.

Lemma open_l3_socket_setup type : calls_satisfy is_setup_call (open_l3_socket type).
Proof. unfold open_l3_socket. repeat calls_step; exact I. Qed.

Lemma open_l3_socket_ok type s os s1 os1 :
  sender_inv s -> open_l3_socket type s os = (Ok tt, s1, os1) ->
  sender_inv s1 /\ socket_at s1 type <> INVALID_RAW_SOCKET /\
  forall type', type' <> type -> socket_at s1 type' = socket_at s type'.
Proof.
  intros Hinv Hopen.
  split.
  { pose proof (open_l3_socket_kept type s os) as Hkept.
    rewrite Hopen in Hkept. exact (config_kept_inv _ _ Hkept Hinv). }
  revert Hopen. unfold open_l3_socket. run_m.
  destruct (Z.eqb_spec (find_type s type) (-1)) as [|Hknown]; [discriminate|].
  pose proof (known_type_in_range s type Hinv Hknown) as Hlt.
  destruct (Z.eqb_spec (socket_at s type) INVALID_RAW_SOCKET) as [Hclosed|Hopen].
  - destruct (Z.ltb_spec (wrap_int (os_ret os (tick os))) 0) as [|Hfd]; [discriminate|].
    intros [= <- _]. split.
    + rewrite socket_at_set_same by exact Hlt. unfold INVALID_RAW_SOCKET. lia.
    + intros type' Hne. apply socket_at_set_other. congruence.
  - intros [= <- _]. split; [exact Hopen|reflexivity].
Qed.

Lemma open_l3_socket_failed type s os e s1 os1 :
  open_l3_socket type s os = (Throw e, s1, os1) -> s1 = s.
Proof.
  unfold open_l3_socket. run_m.
  destruct (find_type s type =? -1); [intros [= _ <- _]; reflexivity|].
  destruct (socket_at s type =? INVALID_RAW_SOCKET); [|discriminate].
  destruct (wrap_int (os_ret os (tick os)) <? 0); [|discriminate].
  intros [= _ <- _]. reflexivity.
Qed.

Lemma open_l3_socket_returns type s os : outcome (open_l3_socket type s os) <> Diverge.
Proof.
  unfold open_l3_socket. run_m.
  destruct (find_type s type =? -1); [discriminate|].
  destruct (socket_at s type =? INVALID_RAW_SOCKET); [|discriminate].
  destruct (wrap_int (os_ret os (tick os)) <? 0); discriminate.
Qed.

Lemma recv_l3_after_open BSD_macro type s os s1 os1 :
  open_l3_socket type s os = (Ok tt, s1, os1) ->
  recv_l3 b BSD_macro abi wfuel lfuel scratch pdu type s os
  = if bool_decide (type = IP_TCP_SOCKET \/ type = IP_UDP_SOCKET) then
      if BSD_macro then (Throw runtime_error, s1, os1)
      else
        match open_l3_socket ICMP_SOCKET s1 os1 with
        | (Ok _, s2, os2) =>
            lift_run (recv_match_loop b abi s2 pdu wfuel lfuel scratch
                        [socket_at s1 type; socket_at s2 ICMP_SOCKET]) s2 os2
        | (Throw e, s2, os2) => (Throw e, s2, os2)
        | (Diverge, s2, os2) => (Diverge, s2, os2)
        end
    else lift_run (recv_match_loop b abi s1 pdu wfuel lfuel scratch
                     [socket_at s1 type]) s1 os1.
Proof.
  intros Hopen. unfold recv_l3. rewrite (bind_ok _ _ _ _ _ _ _ Hopen).
  unfold bind at 1, this at 1.
  destruct (bool_decide (type = IP_TCP_SOCKET \/ type = IP_UDP_SOCKET));
    [destruct BSD_macro; [reflexivity|]|reflexivity].
  unfold bind at 1.
  destruct (open_l3_socket ICMP_SOCKET s1 os1) as [[[[]|e|] s2] os2]; reflexivity.
Qed.

Lemma recv_l3_open_failed BSD_macro type s os e s1 os1 :
  open_l3_socket type s os = (Throw e, s1, os1) ->
  recv_l3 b BSD_macro abi wfuel lfuel scratch pdu type s os = (Throw e, s1, os1).
Proof. intros Hopen. unfold recv_l3. apply bind_throw, Hopen. Qed.


(** X18.  [recv_l3] for TCP and UDP on a build with [BSD] defined never
    receives: it always ends with an exception and makes no call of the
    receive path.  The refusal comes after the first [open_l3_socket]: when
    that succeeds the error is the [runtime_error] of the platform, and the
    socket just opened stays open in the pool. *)
Theorem recv_l3_refused_on_bsd_after_opening
    (type : SocketType) (s : PacketSender) (os : OS) :
  type = IP_TCP_SOCKET \/ type = IP_UDP_SOCKET -> sender_inv s ->
  let result := recv_l3 b true abi wfuel lfuel scratch pdu type s os in
  (exists e, outcome result = Throw e) /\
  Forall is_setup_call (calls_since os (os_after result)) /\
  (forall s1 os1, open_l3_socket type s os = (Ok tt, s1, os1) ->
     result = (Throw runtime_error, s1, os1) /\
     socket_at s1 type <> INVALID_RAW_SOCKET).
Proof.
  intros Htype Hinv result. subst result.
  destruct (open_l3_socket_setup type s os) as (cs & Hcs & Hsetup).
  pose proof (open_l3_socket_returns type s os) as Hret.
  destruct (open_l3_socket type s os) as [[[[]|e|] s1] os1] eqn:Hopen.
  - rewrite (recv_l3_after_open true type s os s1 os1 Hopen).
    rewrite bool_decide_eq_true_2 by exact Htype.
    unfold os_after in *. cbn [fst snd] in *. subst os1.
    rewrite calls_since_logs. split; [eexists; reflexivity|].
    split; [exact Hsetup|]. intros s1' os1' [= <- <-]. split; [reflexivity|].
    apply (open_l3_socket_ok type s os s1 (logs cs os) Hinv Hopen).
  - rewrite (recv_l3_open_failed true type s os e s1 os1 Hopen).
    unfold os_after in *. cbn [fst snd] in *. subst os1.
    rewrite calls_since_logs. split; [eexists; reflexivity|].
    split; [exact Hsetup|]. intros ? ? [=].
  - exfalso. apply Hret. reflexivity.
Qed.


(** X20.  [recv_l2] on a build that keeps the link-layer channel as a
    descriptor: a failure to obtain the channel is the outcome, with no call
    of the receive path; otherwise the descriptor obtained is the pool's
    channel for the interface, and all that follows is the call of [time] and
    the receive loop on that one descriptor. *)
Theorem recv_l2_waits_on_interface_channel
    (fuel : nat) (iface : NetworkInterface) (s : PacketSender) (os : OS) :
  pcap_sendpacket b = false ->
  let result := recv_l2 b abi fuel wfuel lfuel scratch pdu iface s os in
  (forall e s1 os1,
     get_ether_socket b fuel iface s os = (Throw e, s1, os1) ->
     result = (Throw e, s1, os1)) /\
  (forall sock s1 os1,
     get_ether_socket b fuel iface s os = (Ok sock, s1, os1) ->
     sender_after result = s1 /\
     channel b s1 ETHER_SOCKET iface = Some sock /\
     exists cs, calls_since os1 (os_after result) = c_time :: cs /\
                Forall (receive_call_on b [sock]) cs).
Proof.
  intros Hpcap result. subst result. split.
  - intros e s1 os1 Hget. unfold recv_l2. apply bind_throw, Hget.
  - intros sock s1 os1 Hget.
    assert (recv_l2 b abi fuel wfuel lfuel scratch pdu iface s os
            = lift_run (recv_match_loop b abi s1 pdu wfuel lfuel scratch [sock]) s1 os1)
      as ->.
    { unfold recv_l2. rewrite (bind_ok _ _ _ _ _ _ _ Hget). reflexivity. }
    split; [|split].
    + unfold lift_run, sender_after.
      destruct (recv_match_loop _ _ _ _ _ _ _ _ _) as [[a|] os']; reflexivity.
    + apply (get_ether_socket_channel b fuel iface s os sock s1 os1 Hpcap Hget).
    + destruct (recv_match_loop_footprint b abi s1 pdu wfuel lfuel scratch [sock] os1)
        as (cs & E & Hcs).
      exists cs. split; [|exact Hcs].
      unfold lift_run, os_after.
      destruct (recv_match_loop _ _ _ _ _ _ _ _ _) as [[a|] os'];
        cbn [fst snd] in *; subst os'; apply calls_since_logs.
Qed.

End ReceiveEntryPoints.

Lemma recv_l3_refused_on_bsd_after_opening_witness :
  recv_l3 bsd_build true freebsd_abi 0 1 [] deaf_pdu IP_TCP_SOCKET sender0
    (scripted_os [5; 0] [] [] [] [])
  = (Throw runtime_error,
     set_sockets_ (<[type_index IP_TCP_SOCKET := 5]> (sockets_ sender0)) sender0,
     logs [c_socket AF_INET SOCK_RAW IPPROTO_TCP; c_setsockopt 5]
       (scripted_os [5; 0] [] [] [] [])).
Proof.
  apply (proj2 (proj2 (recv_l3_refused_on_bsd_after_opening bsd_build freebsd_abi
                         deaf_pdu 0 1 [] IP_TCP_SOCKET sender0
                         (scripted_os [5; 0] [] [] [] [])
                         (or_introl eq_refl) ltac:(split; reflexivity)))).
  reflexivity.
Defined.


Lemma recv_l2_waits_on_interface_channel_witness :
  get_ether_socket linux_build 0 eth0 sender0 (scripted_os [4; 0; -1] [] [] [] [])
  = (Ok 4, set_ether_socket_ 4 sender0,
     log (c_socket PF_PACKET SOCK_RAW ETH_P_ALL_be)
       (scripted_os [4; 0; -1] [] [] [] [])) /\
  channel linux_build (set_ether_socket_ 4 sender0) ETHER_SOCKET eth0 = Some 4.
Proof.
  split; [reflexivity|].
  apply (proj1 (proj2 (proj2 (recv_l2_waits_on_interface_channel linux_build
                                freebsd_abi deaf_pdu 0 1 [] 0 eth0 sender0
                                (scripted_os [4; 0; -1] [] [] [] []) eq_refl)
                         4 _ _ eq_refl))).
Defined.

(** ** Teardown *)

Section Teardown.

Lemma elem_of_map {A B} (f : A -> B) (l : list A) (x : A) :
  x ∈ l -> f x ∈ map f l.
Proof. rewrite !list_elem_of_In. apply in_map. Qed.

Lemma elem_of_map_inv {A B} (f : A -> B) (l : list A) (y : B) :
  y ∈ map f l -> exists x, y = f x /\ x ∈ l.
Proof.
  rewrite list_elem_of_In, in_map_iff. intros (x & <- & Hx).
  exists x. split; [reflexivity|]. apply list_elem_of_In, Hx.
Qed.

Lemma elem_of_entries (m : gmap Z Z) k v : m !! k = Some v -> (k, v) ∈ entries m.
Proof.
  intros H. unfold entries. rewrite merge_sort_Permutation.
  apply elem_of_map_to_list, H.
Qed.

(** X21.  The destructor releases every channel the pool holds, by
    [pcap_close] for a pcap handle and by [close] for a descriptor; on a
    build without BSD it never calls [close] on the invalid descriptor; and
    for a sender on which nothing was opened it makes no call at all. *)
Theorem destructor_releases_every_channel (b : Build) (s : PacketSender) :
  (forall type iface handle,
     channel b s type iface = Some handle ->
     release_of b type handle ∈ PacketSender_destructor b s) /\
  (bsd b = false -> t_close INVALID_RAW_SOCKET ∉ PacketSender_destructor b s) /\
  (forall iface recv_timeout usec,
     PacketSender_destructor b (PacketSender_new iface recv_timeout usec) = []).
Proof.
  split; [|split].
  - intros type iface handle. unfold channel, release_of, PacketSender_destructor.
    destruct (decide (type = ETHER_SOCKET)) as [->|Hip].
    + destruct (pcap_sendpacket b).
      * intros H. rewrite !elem_of_app. right; right.
        apply (elem_of_map (fun kv => t_pcap_close kv.2) _ (iface_id iface, handle)).
        apply elem_of_entries, H.
      * destruct (bsd b).
        -- intros H. rewrite !elem_of_app. right; left.
           apply (elem_of_map (fun kv => t_close kv.2) _ (iface_id iface, handle)).
           apply elem_of_entries, H.
        -- destruct (ether_socket_ s =? INVALID_RAW_SOCKET); [discriminate|].
           intros [= <-]. rewrite !elem_of_app. right; left. left.
    + destruct (decide (type = SOCKETS_END)); [discriminate|].
      unfold socket_at.
      destruct (Z.eqb_spec (default INVALID_RAW_SOCKET (sockets_ s !! type_index type))
                  INVALID_RAW_SOCKET) as [|Hopen]; [discriminate|].
      intros [= <-].
      destruct (sockets_ s !! type_index type) as [v|] eqn:Hv; cbn [default] in *;
        [|contradiction Hopen; reflexivity].
      rewrite !elem_of_app. left.
      apply elem_of_map, list_elem_of_filter. split; [exact Hopen|].
      eapply list_elem_of_lookup_2, Hv.
  - intros Hbsd. unfold PacketSender_destructor. rewrite Hbsd, !elem_of_app.
    intros [H|[H|H]].
    + apply elem_of_map_inv in H as (fd & [= <-] & Hfd).
      apply list_elem_of_filter in Hfd as [Hne _]. apply Hne. reflexivity.
    + destruct (Z.eqb_spec (ether_socket_ s) INVALID_RAW_SOCKET) as [|Hne].
      * apply elem_of_nil in H. exact H.
      * apply list_elem_of_singleton in H. injection H as H. apply Hne. symmetry.
        exact H.
    + destruct (pcap_sendpacket b).
      * apply elem_of_map_inv in H as (kv & [=] & _).
      * apply elem_of_nil in H. exact H.
  - intros iface recv_timeout usec. unfold PacketSender_destructor.
    destruct (bsd b), (pcap_sendpacket b); reflexivity.
Qed.

Lemma destructor_releases_every_channel_witness :
  channel bsd_build
    (set_ether_socket_bsd_ (<[iface_id eth0 := 3]> ∅) (set_buffer_size_ 4096 sender0))
    ETHER_SOCKET eth0 = Some 3 /\
  t_close 3 ∈ PacketSender_destructor bsd_build
    (set_ether_socket_bsd_ (<[iface_id eth0 := 3]> ∅) (set_buffer_size_ 4096 sender0)).
Proof.
  split; [reflexivity|].
  apply (proj1 (destructor_releases_every_channel bsd_build
                  (set_ether_socket_bsd_ (<[iface_id eth0 := 3]> ∅)
                     (set_buffer_size_ 4096 sender0)))
           ETHER_SOCKET eth0 3).
  reflexivity.
Defined.

End Teardown.

(** ** [send_recv] and the default interface *)

Section DefaultInterface.

(** X22.  [send_recv] protects the transmission only.  After a successful
    [pdu.send] the outcome is that of [pdu.recv_response], its exceptions
    included, run on the sender and the system as the send left them; an
    exception of [pdu.send] that is no [std::runtime_error] goes through to
    the caller; and [send_recv(pdu)] is [send_recv(pdu, default_iface_)],
    with the interface the setter stored last. *)
Theorem send_recv_guards_only_the_send
    (pdu : PDU) (iface : NetworkInterface) (s : PacketSender) (os : OS) :
  (forall s1 os1,
     pdu_send pdu iface s os = (Ok tt, s1, os1) ->
     send_recv_iface pdu iface s os = recv_response pdu iface s1 os1) /\
  (forall e s1 os1,
     pdu_send pdu iface s os = (Throw e, s1, os1) -> is_runtime_error e = false ->
     send_recv_iface pdu iface s os = (Throw e, s1, os1)) /\
  send_recv pdu s os = send_recv_iface pdu (default_iface_ s) s os /\
  (set_default_interface iface ;;; send_recv pdu) s os
  = send_recv_iface pdu iface (set_default_iface_ iface s) os.
Proof.
  split; [|split; [|split]].
  - intros s1 os1 Hsend.
    unfold send_recv_iface, bind, try_catch_runtime_error, ret. rewrite Hsend.
    reflexivity.
  - intros e s1 os1 Hsend He.
    unfold send_recv_iface, bind, try_catch_runtime_error, ret. rewrite Hsend, He.
    reflexivity.
  - reflexivity.
  - reflexivity.
Qed.

Lemma send_recv_guards_only_the_send_witness :
  send_recv_iface refused_reply_pdu eth0 sender0 (scripted_os [] [] [] [] [])
  = (Throw runtime_error, sender0, scripted_os [] [] [] [] []).
Proof.
  apply (proj1 (send_recv_guards_only_the_send refused_reply_pdu eth0 sender0
                  (scripted_os [] [] [] [] [])) sender0 (scripted_os [] [] [] [] [])).
  reflexivity.
Defined.

End DefaultInterface.

(** ** Sending through pcap *)

Ltac raises_step :=
  first
    [ apply throws_ret | apply throws_this | apply throws_assign
    | apply throws_diverge | apply throws_sys
    | apply throws_throw; reflexivity
    | apply throws_bind; [|intros ?]
    | match goal with |- throws_only _ (if ?c then _ else _) => destruct c end
    | match goal with |- throws_only _ (match ?c with _ => _ end) => destruct c end ].

Section PcapTransport.

Variable b : Build.
Variable fuel : nat.
Variable pdu : PDU.
Variable iface : NetworkInterface.

Lemma make_pcap_handle_throws :
  throws_only (fun e => e = runtime_error) (make_pcap_handle iface).
Proof. unfold make_pcap_handle. repeat raises_step. Qed.

Lemma send_l2_pcap_throws :
  pcap_sendpacket b = true ->
  throws_only (fun e => e = runtime_error) (send_l2 b fuel pdu iface).
Proof.
  intros Hpcap. unfold send_l2, open_l2_socket. rewrite Hpcap.
  apply throws_bind.
  - apply throws_bind; [apply throws_this|]. intros [h|]; [apply throws_ret|].
    apply throws_bind; [apply make_pcap_handle_throws|]. intros; apply throws_assign.
  - intros _. repeat raises_step.
Qed.

(** X23.  [send_l2] on a build with the pcap transport.  Every error it
    raises is a plain [runtime_error], never one of the socket errors.  With
    a handle in the pool for the interface it makes one call,
    [pcap_sendpacket] on that handle with the serialized bytes, empty or
    not, and fails when the answer is not zero; with none, the handle is
    created first by [pcap_create], [pcap_set_promisc] and [pcap_activate],
    and recorded for the interface only when all three succeed. *)
Theorem send_l2_over_pcap (s : PacketSender) (os : OS) :
  pcap_sendpacket b = true ->
  let result := send_l2 b fuel pdu iface s os in
  (forall e, outcome result = Throw e -> e = runtime_error) /\
  (forall handle,
     pcap_handles_ s !! iface_id iface = Some handle ->
     result = (if wrap_int (os_ret os (tick os)) =? 0 then Ok tt
               else Throw runtime_error,
               s, log (c_pcap_sendpacket handle (serialize pdu)) os)) /\
  (pcap_handles_ s !! iface_id iface = None ->
   let handle := os_ret os (tick os) in
   (handle = 0 \/ wrap_int (os_ret os (S (tick os))) < 0 \/
    wrap_int (os_ret os (S (S (tick os)))) < 0 ->
    outcome result = Throw runtime_error /\ sender_after result = s /\
    writes (calls_since os (os_after result)) = []) /\
   (handle <> 0 -> 0 <= wrap_int (os_ret os (S (tick os))) ->
    0 <= wrap_int (os_ret os (S (S (tick os)))) ->
    sender_after result
    = set_pcap_handles_ (<[iface_id iface := handle]> (pcap_handles_ s)) s /\
    calls_since os (os_after result)
    = [c_pcap_create (iface_name iface); c_pcap_set_promisc handle;
       c_pcap_activate handle; c_pcap_sendpacket handle (serialize pdu)])).
Proof.
  intros Hpcap result. subst result. split; [|split].
  - intros e He.
    destruct (send_l2 b fuel pdu iface s os) as [[r s1] os1] eqn:Hrun.
    cbn in He. subst r. exact (send_l2_pcap_throws Hpcap s os e s1 os1 Hrun).
  - intros handle Hhandle. unfold send_l2, open_l2_socket. rewrite Hpcap. run_m.
    rewrite Hhandle. cbv beta iota. rewrite ?Hhandle. cbn [default].
    destruct (wrap_int (os_ret os (tick os)) =? 0); reflexivity.
  - intros Hnone handle. subst handle.
    unfold send_l2, open_l2_socket, make_pcap_handle. rewrite Hpcap. run_m.
    rewrite Hnone. cbv beta iota.
    destruct (Z.eqb_spec (os_ret os (tick os)) 0) as [Hnull|Hhandle].
    { split; [|intros; contradiction]. intros _.
      unfold outcome, sender_after, os_after. cbn [fst snd].
      rewrite log_logs, calls_since_logs. repeat split. }
    rewrite !tick_log. cbn [os_ret log].
    destruct (Z.ltb_spec (wrap_int (os_ret os (S (tick os)))) 0) as [Hneg1|Hok1].
    { split; [|intros; lia]. intros _.
      unfold outcome, sender_after, os_after. cbn [fst snd].
      rewrite log_log, calls_since_logs. repeat split. }
    rewrite !tick_log. cbn [os_ret log].
    destruct (Z.ltb_spec (wrap_int (os_ret os (S (S (tick os))))) 0) as [Hneg2|Hok2].
    { split; [|intros; lia]. intros _.
      unfold outcome, sender_after, os_after. cbn [fst snd].
      rewrite log_log_log, calls_since_logs. repeat split. }
    split; [intros [?|[?|?]]; [contradiction|lia|lia]|]. intros _ _ _.
    cbn [pcap_handles_ set_pcap_handles_]. rewrite lookup_insert_eq. cbn [default].
    rewrite !tick_log. cbn [os_ret log].
    unfold sender_after, os_after.
    destruct (wrap_int (os_ret os (S (S (S (tick os))))) =? 0); cbn [negb fst snd];
      rewrite log_log_log, log_logs, logs_logs, calls_since_logs; split; reflexivity.
Qed.

End PcapTransport.

Lemma send_l2_over_pcap_witness :
  send_l2 pcap_build 0 empty_pdu eth0
    (set_pcap_handles_ (<[iface_id eth0 := 77]> ∅) sender0)
    (scripted_os [0] [] [] [] [])
  = (Ok tt, set_pcap_handles_ (<[iface_id eth0 := 77]> ∅) sender0,
     log (c_pcap_sendpacket 77 []) (scripted_os [0] [] [] [] [])).
Proof.
  apply (proj1 (proj2 (send_l2_over_pcap pcap_build 0 empty_pdu eth0
                         (set_pcap_handles_ (<[iface_id eth0 := 77]> ∅) sender0)
                         (scripted_os [0] [] [] [] []) eq_refl)) 77).
  reflexivity.
Defined.

(** ** The walk over a BSD read *)

Section RecordWalk.

Variable abi : BpfAbi.
Variable pdu : PDU.

Lemma bpf_walk_stalls buf size ptr :
  ptr < size -> accepts pdu (record_span abi buf ptr) = false ->
  record_advance abi buf ptr = 0 ->
  forall fuel os, (bpf_walk abi pdu fuel buf size ptr os).1 = Spin.
Proof.
  intros Hin Hrej Hstep. unfold accepts, record_span, record_advance in *.
  cbn [fst snd] in Hrej.
  induction fuel as [|fuel IH]; intros os; [reflexivity|].
  simpl. destruct (Z.ltb_spec ptr size) as [_|]; [|lia].
  unfold test_candidate. rewrite Hrej, Hstep, Z.add_0_r. apply IH.
Qed.

(** X24.  The walk over the records of a BSD read advances by what each
    record's header announces, and the deadline is not looked at inside it.
    When the first ready descriptor's read delivers a record that the matcher
    rejects and whose announced lengths round to a step of zero, the walk
    stays on that record: whatever the bounds given to the walk and to the
    loop, the call does not return. *)
Theorem bpf_walk_never_leaves_a_zero_length_record
    (b : Build) (cap fd : Z) (rest : list Z) (st : LoopState) (os : OS) :
  bsd b = true ->
  0 < wrap_int (os_ret os (tick os)) ->
  fd ∈ os_ready os (tick os) ->
  let read := deliver (os_recv os (S (tick os))) cap (buffer st) in
  0 < read.1 ->
  accepts pdu (record_span abi read.2 0) = false ->
  record_advance abi read.2 0 = 0 ->
  forall wfuel fuel,
    (loop b abi pdu wfuel cap (fd :: rest) (S fuel) st os).1 = Spin.
Proof.
  intros Hbsd Hsel Hready read Hsize Hrej Hstep wfuel fuel.
  rewrite loop_unfold. unfold loop_body, wait_and_read, sys_int.
  destruct (Z.eqb_spec (wrap_int (os_ret os (tick os))) (-1)) as [|_]; [lia|].
  destruct (Z.ltb_spec 0 (wrap_int (os_ret os (tick os)))) as [_|]; [|lia].
  cbn [recv_ready]. rewrite bool_decide_eq_true_2 by exact Hready.
  unfold recv_one. rewrite Hbsd, tick_log. cbn [os_recv log].
  fold read. destruct read as [size buffer1] eqn:Hread. cbn [fst snd] in *.
  pose proof (bpf_walk_stalls buffer1 size 0 Hsize Hrej Hstep wfuel
                (log (c_read fd)
                   (log (c_select (max_fd (fd :: rest) + 1) (fd :: rest) (timeout st))
                      os))) as Hspin.
  destruct (bpf_walk _ _ _ _ _ _ _) as [r os2]. cbn [fst] in Hspin. subst r.
  reflexivity.
Qed.

End RecordWalk.

Lemma bpf_walk_never_leaves_a_zero_length_record_witness :
  (loop bsd_build freebsd_abi deaf_pdu 1000 4096 [5] 1
     {| timeout := Timeval 2 0; end_time := Timeval 102 0;
        buffer := replicate 4096 0 |}
     zero_record_os).1 = Spin.
Proof.
  apply (bpf_walk_never_leaves_a_zero_length_record freebsd_abi deaf_pdu bsd_build
           4096 5 []
           {| timeout := Timeval 2 0; end_time := Timeval 102 0;
              buffer := replicate 4096 0 |}
           zero_record_os eq_refl).
  - vm_compute. reflexivity.
  - vm_compute. left.
  - vm_compute. reflexivity.
  - reflexivity.
  - vm_compute. reflexivity.
Defined.

(** ** The first argument of [select] *)

Section SelectArgument.

Lemma foldl_max_bounds (l : list Z) :
  forall a, a <= foldl Z.max a l /\ Forall (fun x => x <= foldl Z.max a l) l /\
            (foldl Z.max a l = a \/ foldl Z.max a l ∈ l).
Proof.
  induction l as [|x l IH]; intros a; cbn [foldl].
  - split; [lia|]. split; [constructor|]. left; reflexivity.
  - destruct (IH (Z.max a x)) as (Hge & Hall & Hin).
    split; [lia|]. split.
    + constructor; [lia|exact Hall].
    + destruct Hin as [Heq|Hin].
      * destruct (Z.max_spec a x) as [[_ Hm]|[_ Hm]]; rewrite Hm in Heq |- *.
        -- right. rewrite Heq. left.
        -- left. exact Heq.
      * right. right. exact Hin.
Qed.

Lemma max_fd_fits sockets :
  nfds_fits sockets (max_fd sockets + 1, sockets).
Proof.
  unfold nfds_fits, max_fd. cbn [fst snd].
  destruct (foldl_max_bounds sockets 0) as (Hge & Hall & Hin).
  split; [reflexivity|]. split; [lia|]. split.
  - eapply Forall_impl; [exact Hall|]. intros fd Hfd. cbn in Hfd. lia.
  - destruct Hin as [->|Hin]; [left; reflexivity|right].
    replace (foldl Z.max 0 sockets + 1 - 1) with (foldl Z.max 0 sockets) by lia.
    exact Hin.
Qed.

(** X25.  Every [select] of [recv_match_loop] is given the descriptors the
    loop was called with and a first argument that fits them: it is greater
    than every descriptor of the list, at least one, and no greater than
    needed, being one more than a descriptor of the list unless it is one. *)
Theorem select_nfds_exceeds_every_descriptor
    (b : Build) (abi : BpfAbi) (s : PacketSender) (pdu : PDU)
    (wfuel fuel : nat) (scratch sockets : list Z) (os : OS) :
  Forall (nfds_fits sockets)
    (select_calls
       (calls_since os (recv_match_loop b abi s pdu wfuel fuel scratch sockets os).2)).
Proof.
  destruct (recv_match_loop_footprint b abi s pdu wfuel fuel scratch sockets os)
    as (cs & E & Hcs).
  rewrite E, calls_since_logs. cbn [select_calls omap]. fold (select_calls cs).
  clear E. induction Hcs as [|c cs Hc _ IH]; [constructor|].
  destruct c; cbn; try exact IH.
  destruct Hc as [-> ->]. constructor; [|exact IH].
  apply max_fd_fits.
Qed.

End SelectArgument.

(** ** The link-layer channel as one raw socket, and as a capture device *)

Section LinkLayerChannel.

Variable b : Build.
Variable fuel : nat.
Variable iface : NetworkInterface.

(** X26.  [open_l2_socket] on a build with the one raw socket, outcome by
    outcome.  With the socket open nothing is done.  Otherwise one packet
    socket is asked for and its answer stored before it is looked at: the
    answer -1 is [socket_open_error], the stored value being the invalid
    descriptor the field held already, so that the pool is as it was; any
    other answer, the other negative numbers included, is kept as the
    channel, and it is the channel of every interface at once. *)
Theorem open_l2_socket_raw_effect (s : PacketSender) (os : OS) :
  pcap_sendpacket b = false -> bsd b = false ->
  (ether_socket_ s <> INVALID_RAW_SOCKET ->
   open_l2_socket b fuel iface s os = (Ok tt, s, os)) /\
  (ether_socket_ s = INVALID_RAW_SOCKET ->
   let fd := wrap_int (os_ret os (tick os)) in
   (fd = -1 ->
    open_l2_socket b fuel iface s os
    = (Throw socket_open_error, s, log (c_socket PF_PACKET SOCK_RAW ETH_P_ALL_be) os)) /\
   (fd <> -1 ->
    open_l2_socket b fuel iface s os
    = (Ok tt, set_ether_socket_ fd s, log (c_socket PF_PACKET SOCK_RAW ETH_P_ALL_be) os) /\
    forall other,
      channel b (sender_after (open_l2_socket b fuel iface s os)) ETHER_SOCKET other
      = Some fd)).
Proof.
  intros Hpcap Hbsd. split.
  - intros Hopen. unfold open_l2_socket. rewrite Hpcap, Hbsd. run_m.
    destruct (Z.eqb_spec (ether_socket_ s) INVALID_RAW_SOCKET) as [|_];
      [contradiction|reflexivity].
  - intros Hclosed fd. subst fd. split.
    + intros Hfail. unfold open_l2_socket. rewrite Hpcap, Hbsd. run_m.
      rewrite Hclosed. change (INVALID_RAW_SOCKET =? INVALID_RAW_SOCKET) with true.
      cbv beta iota zeta. rewrite Hfail. change (-1 =? -1) with true. cbv iota.
      rewrite <- Hclosed at 1. rewrite set_ether_socket_same. reflexivity.
    + intros Hfd.
      pose proof (open_l2_socket_raw_opens b fuel iface s os Hpcap Hbsd Hclosed Hfd)
        as Hopen.
      split; [exact Hopen|]. intros other. rewrite Hopen.
      unfold channel, sender_after. cbn [fst snd ether_socket_ set_ether_socket_].
      rewrite Hpcap, Hbsd.
      destruct (decide (ETHER_SOCKET = ETHER_SOCKET)) as [_|]; [|contradiction].
      destruct (Z.eqb_spec (wrap_int (os_ret os (tick os))) INVALID_RAW_SOCKET) as [|_];
        [contradiction|reflexivity].
Qed.

Lemma bsd_channel_removed (m : gmap Z Z) k v blen s :
  ether_socket_bsd_ s = m -> m !! k = None ->
  set_ether_socket_bsd_
    (delete k (ether_socket_bsd_
                 (set_ether_socket_bsd_ (<[k := v]> m) (set_buffer_size_ blen s))))
    (set_ether_socket_bsd_ (<[k := v]> m) (set_buffer_size_ blen s))
  = set_buffer_size_ blen s.
Proof.
  intros <- Hnone. destruct s. unfold set_ether_socket_bsd_, set_buffer_size_.
  cbn in *. f_equal. apply delete_insert_id, Hnone.
Qed.

(** X27.  On BSD opening the capture device of an interface that has none
    and closing it again, both succeeding, leaves the pool without a channel
    for the interface and with every map entry as before, but not as it was:
    [buffer_size_] keeps the length [BIOCGBLEN] stored.  The calls after the
    probing are the three [ioctl]s and one [close] of the device. *)
Theorem open_then_close_on_bsd_keeps_buffer_size
    (s : PacketSender) (os : OS) (sock : Z) (s' : PacketSender) (os' : OS) :
  pcap_sendpacket b = false -> bsd b = true ->
  ether_socket_bsd_ s !! iface_id iface = None ->
  probe_bpf fuel 0 s os = (Ok sock, s', os') -> sock <> -1 ->
  0 <= wrap_int (os_ret os' (tick os')) ->
  0 <= wrap_int (os_ret os' (S (tick os'))) ->
  0 <= wrap_int (os_ret os' (S (S (tick os')))) ->
  wrap_int (os_ret os' (S (S (S (tick os'))))) <> -1 ->
  (open_l2_socket b fuel iface ;;; close_socket b ETHER_SOCKET iface) s os
  = (Ok tt, set_buffer_size_ (os_out os' (S (S (tick os')))) s,
     logs [c_ioctl sock (BIOCSETIF (iface_name iface)); c_ioctl sock BIOCIMMEDIATE;
           c_ioctl sock BIOCGBLEN; c_close sock] os').
Proof.
  intros Hpcap Hbsd Hnone Hprobe Hsock H1 H2 H3 Hclose.
  assert (s' = s) as ->.
  { pose proof (probe_bpf_sender fuel 0 s os) as H. rewrite Hprobe in H. exact H. }
  pose proof (open_l2_socket_bsd_after_probe b fuel iface s os sock s os'
                Hpcap Hbsd Hprobe Hsock) as Hshape.
  destruct (Z.ltb_spec (wrap_int (os_ret os' (tick os'))) 0) as [|_]; [lia|].
  destruct (Z.ltb_spec (wrap_int (os_ret os' (S (tick os')))) 0) as [|_]; [lia|].
  destruct (Z.ltb_spec (wrap_int (os_ret os' (S (S (tick os'))))) 0) as [|_]; [lia|].
  rewrite (bind_ok _ _ _ _ _ _ _ Hshape).
  unfold close_socket.
  destruct (decide (ETHER_SOCKET = ETHER_SOCKET)) as [_|]; [|contradiction].
  rewrite Hbsd. run_m. cbn [ether_socket_bsd_ set_ether_socket_bsd_].
  rewrite lookup_insert_eq. rewrite tick_logs. cbn [length os_ret logs].
  replace (tick os' + 3)%nat with (S (S (S (tick os')))) by lia.
  destruct (Z.eqb_spec (wrap_int (os_ret os' (S (S (S (tick os')))))) (-1)) as [|_];
    [contradiction|].
  f_equal; [f_equal|].
  - apply (bsd_channel_removed (ether_socket_bsd_ s)); [reflexivity|exact Hnone].
  - rewrite log_logs, logs_logs. reflexivity.
Qed.

End LinkLayerChannel.

Lemma open_l2_socket_raw_effect_witness :
  open_l2_socket linux_build 0 eth0 sender0 (scripted_os [-2] [] [] [] [])
  = (Ok tt, set_ether_socket_ (-2) sender0,
     log (c_socket PF_PACKET SOCK_RAW ETH_P_ALL_be) (scripted_os [-2] [] [] [] [])) /\
  channel linux_build
    (sender_after (open_l2_socket linux_build 0 eth0 sender0
                     (scripted_os [-2] [] [] [] [])))
    ETHER_SOCKET wlan0 = Some (-2).
Proof.
  destruct (proj2 (proj2 (open_l2_socket_raw_effect linux_build 0 eth0 sender0
                            (scripted_os [-2] [] [] [] []) eq_refl eq_refl)
                     eq_refl) ltac:(vm_compute; discriminate)) as [Hopen Hall].
  split; [exact Hopen|apply Hall].
Defined.

Lemma open_then_close_on_bsd_keeps_buffer_size_witness :
  (open_l2_socket bsd_build 4 eth0 ;;; close_socket bsd_build ETHER_SOCKET eth0)
    sender0 (scripted_os [3; 0; 0; 0; 0] [0; 0; 0; 4096] [] [] [])
  = (Ok tt, set_buffer_size_ 4096 sender0,
     logs [c_ioctl 3 (BIOCSETIF (iface_name eth0)); c_ioctl 3 BIOCIMMEDIATE;
           c_ioctl 3 BIOCGBLEN; c_close 3]
       (log (c_open_bpf 0) (scripted_os [3; 0; 0; 0; 0] [0; 0; 0; 4096] [] [] []))).
Proof.
  apply (open_then_close_on_bsd_keeps_buffer_size bsd_build 4 eth0 sender0
           (scripted_os [3; 0; 0; 0; 0] [0; 0; 0; 4096] [] [] []) 3 sender0
           (log (c_open_bpf 0) (scripted_os [3; 0; 0; 0; 0] [0; 0; 0; 4096] [] [] []))
           eq_refl eq_refl eq_refl eq_refl ltac:(discriminate));
    vm_compute; discriminate.
Defined.

(** ** The descriptor map on a BSD build with the pcap transport *)

Section DescriptorMapWithPcap.

Variable b : Build.
Variable fuel : nat.
Variable iface : NetworkInterface.

Lemma bsd_entry_removed (m : gmap Z Z) k v s :
  ether_socket_bsd_ s = m -> m !! k = None ->
  set_ether_socket_bsd_
    (delete k (ether_socket_bsd_ (set_ether_socket_bsd_ (<[k := v]> m) s)))
    (set_ether_socket_bsd_ (<[k := v]> m) s)
  = s.
Proof.
  intros <- Hnone. destruct s. unfold set_ether_socket_bsd_.
  cbn in *. f_equal. apply delete_insert_id, Hnone.
Qed.

(** X29.  On a BSD build with the pcap transport the link-layer channel is
    a pcap handle and the descriptor map stays empty, so [get_ether_socket],
    which [recv_l2] calls, finds no entry for the interface; with the handle
    there, [open_l2_socket] does nothing, and the closing [ether_socket_[id]]
    of the map then enters the interface with the descriptor 0 and returns 0.
    From then on descriptor 0 passes for the interface's channel:
    [close_socket] closes it and succeeds, and the destructor closes it. *)
Theorem get_ether_socket_with_pcap_on_bsd_enters_zero
    (s : PacketSender) (os : OS) (handle : Z) :
  bsd b = true -> pcap_sendpacket b = true ->
  ether_socket_bsd_ s !! iface_id iface = None ->
  pcap_handles_ s !! iface_id iface = Some handle ->
  let entered :=
    set_ether_socket_bsd_ (<[iface_id iface := 0]> (ether_socket_bsd_ s)) s in
  get_ether_socket b fuel iface s os = (Ok 0, entered, os) /\
  (forall os', wrap_int (os_ret os' (tick os')) <> -1 ->
     close_socket b ETHER_SOCKET iface entered os' = (Ok tt, s, log (c_close 0) os')) /\
  t_close 0 ∈ PacketSender_destructor b entered /\
  channel b entered ETHER_SOCKET iface = Some handle.
Proof.
  intros Hbsd Hpcap Hnone Hhandle entered. subst entered. split; [|split; [|split]].
  - rewrite get_ether_socket_opening.
    + unfold open_l2_socket. rewrite Hpcap, Hbsd. run_m. rewrite Hhandle.
      unfold ether_socket_bsd_at. run_m. rewrite Hnone. reflexivity.
    + unfold ether_socket_initialized. rewrite Hbsd.
      apply bool_decide_eq_false_2. rewrite Hnone. intros [? ?]. discriminate.
  - intros os' Hclose. unfold close_socket.
    destruct (decide (ETHER_SOCKET = ETHER_SOCKET)) as [_|]; [|contradiction].
    rewrite Hbsd. run_m. cbn [ether_socket_bsd_ set_ether_socket_bsd_].
    rewrite lookup_insert_eq.
    destruct (Z.eqb_spec (wrap_int (os_ret os' (tick os'))) (-1)) as [|_];
      [contradiction|].
    f_equal. f_equal.
    apply (bsd_entry_removed (ether_socket_bsd_ s)); [reflexivity|exact Hnone].
  - unfold PacketSender_destructor. rewrite Hbsd, !elem_of_app. right; left.
    apply (elem_of_map (fun kv => t_close kv.2) _ (iface_id iface, 0)).
    apply elem_of_entries. cbn. apply lookup_insert_eq.
  - unfold channel. rewrite Hpcap.
    destruct (decide (ETHER_SOCKET = ETHER_SOCKET)) as [_|]; [|contradiction].
    exact Hhandle.
Qed.

End DescriptorMapWithPcap.

Lemma get_ether_socket_with_pcap_on_bsd_enters_zero_witness :
  get_ether_socket pcap_bsd_build 0 eth0
    (set_pcap_handles_ (<[iface_id eth0 := 77]> ∅) sender0)
    (scripted_os [] [] [] [] [])
  = (Ok 0,
     set_ether_socket_bsd_ (<[iface_id eth0 := 0]> ∅)
       (set_pcap_handles_ (<[iface_id eth0 := 77]> ∅) sender0),
     scripted_os [] [] [] [] []).
Proof.
  refine (proj1 (get_ether_socket_with_pcap_on_bsd_enters_zero pcap_bsd_build 0 eth0
                   (set_pcap_handles_ (<[iface_id eth0 := 77]> ∅) sender0)
                   (scripted_os [] [] [] [] []) 77 eq_refl eq_refl _ _));
    reflexivity.
Defined.
